(** * YouTube tool adapters: identifier extraction, time-boxed cache,
      parameter parsing and response shaping

    A shallow embedding of the TypeScript sources under [lib/youtube] and
    [app/(chat)/api/youtube], with the properties of their specification.

    Strings.  A JavaScript string is a sequence of UTF-16 code units.  It is
    modelled by [string], whose characters are the code units below 256
    (Latin-1); the character classes and [trim]/[toLowerCase] below are the
    JavaScript ones restricted to that range.

    Numbers.  Integers computed by [parseInt], [length] and the clock are
    modelled by [Z]; they are exact doubles up to 2^53. *)

From Stdlib Require Import ZArith QArith Qround Lqa Ascii String List Bool Lia DecimalString DecimalPos.
From stdpp Require Import base option list strings gmap.

Local Open Scope string_scope.
Local Open Scope list_scope.

(** ** Characters and character classes *)

Module Chars.

Definition code (c : ascii) : N := N_of_ascii c.

Definition in_range (lo hi : ascii) (c : ascii) : bool :=
  (code lo <=? code c)%N && (code c <=? code hi)%N.

(** [\d] *)
Definition isDigit (c : ascii) : bool := in_range "0" "9" c.

Definition isLower (c : ascii) : bool := in_range "a" "z" c.
Definition isUpper (c : ascii) : bool := in_range "A" "Z" c.

(** [[a-zA-Z0-9_-]], the identifier alphabet *)
Definition isIdChar (c : ascii) : bool :=
  isLower c || isUpper c || isDigit c || Ascii.eqb c "_" || Ascii.eqb c "-".

(** [\s] (also the characters removed by [trim]): TAB, LF, VT, FF, CR,
    SPACE and NO-BREAK SPACE are the white space and line terminators
    below 256. *)
Definition isSpace (c : ascii) : bool :=
  in_range "009" "013" c || Ascii.eqb c " " || Ascii.eqb c "160".

(** [\S] *)
Definition isNonSpace (c : ascii) : bool := negb (isSpace c).

(** [.] without the [s] flag: anything but a line terminator *)
Definition isDot (c : ascii) : bool :=
  negb (Ascii.eqb c "010" || Ascii.eqb c "013").

(** [[^\/\n\s]] *)
Definition isPathSegChar (c : ascii) : bool :=
  negb (Ascii.eqb c "/" || Ascii.eqb c "010" || isSpace c).

Definition isChar (c0 : ascii) (c : ascii) : bool := Ascii.eqb c0 c.

Definition oneOf (cs : string) (c : ascii) : bool :=
  existsb (Ascii.eqb c) (list_ascii_of_string cs).

(** The 256 code units of the model. *)
Definition alphabet : list ascii := map ascii_of_nat (seq 0 256).

End Chars.

(** ** Regular expressions

    The regular expressions of the sources are transcribed into [regex] and
    run by a backtracking matcher that follows the ECMAScript semantics:
    alternatives are tried left to right, a greedy quantifier tries one more
    iteration before the continuation (a lazy one the other way round), and
    an iteration of a star that consumes nothing is rejected. *)

Module Regex.

Inductive regex : Type :=
| Eps : regex
| Chr (p : ascii -> bool) : regex
| Seq (r1 r2 : regex) : regex
| Alt (r1 r2 : regex) : regex
| Star (greedy : bool) (r : regex) : regex
| Group (n : nat) (r : regex) : regex
| Bol : regex
| Eol : regex.

(** [r+], [r+?], [r?], [r{n}] and literals *)
Definition Plus (greedy : bool) (r : regex) : regex := Seq r (Star greedy r).
Definition Opt (r : regex) : regex := Alt r Eps.

Fixpoint Rep (n : nat) (r : regex) : regex :=
  match n with
  | O => Eps
  | S n' => Seq r (Rep n' r)
  end.

Fixpoint LitL (cs : list ascii) : regex :=
  match cs with
  | [] => Eps
  | c :: cs' => Seq (Chr (Chars.isChar c)) (LitL cs')
  end.

Definition Lit (s : string) : regex := LitL (list_ascii_of_string s).

(** Capture groups: the most recent binding of a group comes first. *)
Definition captures : Type := list (nat * list ascii).

Fixpoint capture (n : nat) (caps : captures) : option (list ascii) :=
  match caps with
  | [] => None
  | (m, w) :: caps' => if Nat.eqb n m then Some w else capture n caps'
  end.

Section Matcher.

Context {A : Type}.

(** [total] is the length of the whole input: [^] holds where nothing has
    been consumed yet. *)
Variable total : nat.

(** The iterations of a star: [step] runs the body once. *)
Fixpoint star_loop
    (step : list ascii -> captures -> (list ascii -> captures -> option A) -> option A)
    (greedy : bool) (k : list ascii -> captures -> option A)
    (fuel : nat) (s : list ascii) (caps : captures) {struct fuel} : option A :=
  let again :=
    match fuel with
    | O => None
    | S fuel' =>
        step s caps (fun s1 caps1 =>
          if (length s1 <? length s)%nat
          then star_loop step greedy k fuel' s1 caps1
          else None)
    end in
  if greedy then
    match again with Some x => Some x | None => k s caps end
  else
    match k s caps with Some x => Some x | None => again end.

Fixpoint rmatch (r : regex) (s : list ascii) (caps : captures)
    (k : list ascii -> captures -> option A) {struct r} : option A :=
  match r with
  | Eps => k s caps
  | Chr p =>
      match s with
      | c :: s' => if p c then k s' caps else None
      | [] => None
      end
  | Seq r1 r2 => rmatch r1 s caps (fun s1 caps1 => rmatch r2 s1 caps1 k)
  | Alt r1 r2 =>
      match rmatch r1 s caps k with
      | Some x => Some x
      | None => rmatch r2 s caps k
      end
  | Star greedy r1 => star_loop (rmatch r1) greedy k (length s) s caps
  | Group n r1 =>
      rmatch r1 s caps (fun s1 caps1 =>
        k s1 ((n, firstn (length s - length s1) s) :: caps1))
  | Bol => if (length s =? total)%nat then k s caps else None
  | Eol => match s with [] => k s caps | _ :: _ => None end
  end.

End Matcher.

(** The result of [RegExp.prototype.exec]: where the match starts, the
    matched text and the capture groups. *)
Record MatchResult : Type := mkMatch {
  index : nat;
  matched : list ascii;
  groups : captures
}.

Definition matchAt (total : nat) (r : regex) (s : list ascii)
  : option (list ascii * captures) :=
  rmatch total r s [] (fun s' caps => Some (s', caps)).

(** Leftmost match: start positions are tried from left to right. *)
Fixpoint search (total : nat) (r : regex) (s : list ascii) : option MatchResult :=
  match matchAt total r s with
  | Some (s', caps) =>
      Some (mkMatch (total - length s) (firstn (length s - length s') s) caps)
  | None =>
      match s with
      | [] => None
      | _ :: s' => search total r s'
      end
  end.

(** [r.exec(s)] and [r.test(s)] for a regular expression without the [g]
    flag. *)
Definition exec (r : regex) (s : string) : option MatchResult :=
  let l := list_ascii_of_string s in search (length l) r l.

Definition test (r : regex) (s : string) : bool :=
  match exec r s with Some _ => true | None => false end.

Definition group (n : nat) (m : MatchResult) : option string :=
  option_map string_of_list_ascii (capture n (groups m)).

(** [s.replace(r, ...)] for a regular expression with the [g] flag: every
    match, from left to right, is replaced by [repl matched groups]; after
    an empty match the next character is copied and the scan moves on. *)
Fixpoint replace_loop (fuel total : nat) (r : regex)
    (repl : list ascii -> captures -> list ascii) (s : list ascii) : list ascii :=
  match fuel with
  | O => s
  | S fuel' =>
      match matchAt total r s with
      | Some (s', caps) =>
          let n := (length s - length s')%nat in
          let out := repl (firstn n s) caps in
          if (n =? 0)%nat then
            match s with
            | [] => out
            | c :: t => out ++ c :: replace_loop fuel' total r repl t
            end
          else out ++ replace_loop fuel' total r repl s'
      | None =>
          match s with
          | [] => []
          | c :: t => c :: replace_loop fuel' total r repl t
          end
      end
  end.

Definition replaceAll (r : regex) (repl : list ascii -> captures -> list ascii)
    (s : string) : string :=
  let l := list_ascii_of_string s in
  string_of_list_ascii (replace_loop (S (length l)) (length l) r repl l).

(** Replacement patterns: a constant, and text around [$1]. *)
Definition constant (w : string) : list ascii -> captures -> list ascii :=
  fun _ _ => list_ascii_of_string w.

Definition aroundGroup1 (before after : string)
  : list ascii -> captures -> list ascii :=
  fun _ caps =>
    list_ascii_of_string before ++ default [] (capture 1 caps)
      ++ list_ascii_of_string after.

(** [s.split(r)]: the pieces between the matches of [r].  A match is looked
    for at each position in turn; an empty match right after the previous
    split point is skipped. *)
Fixpoint split_loop (fuel total : nat) (r : regex) (piece : list ascii)
    (s : list ascii) : list (list ascii) :=
  match fuel with
  | O => [rev piece ++ s]
  | S fuel' =>
      match s with
      | [] => [rev piece]
      | c :: t =>
          match matchAt total r s with
          | Some (s', _) =>
              if ((length s' =? length s)%nat && (length piece =? 0)%nat)%bool
              then split_loop fuel' total r (c :: piece) t
              else rev piece :: split_loop fuel' total r [] s'
          | None => split_loop fuel' total r (c :: piece) t
          end
      end
  end.

Definition splitRegex (r : regex) (s : string) : list string :=
  let l := list_ascii_of_string s in
  match l with
  | [] => match matchAt 0 r [] with Some _ => [] | None => [""] end
  | _ :: _ =>
      map string_of_list_ascii (split_loop (2 * length l + 2) (length l) r [] l)
  end.

End Regex.

Import Regex.

(** ** What a regular expression denotes

    [Matches total r s s'] says that [r] can consume a prefix of [s] and
    leave [s']; this is the usual language of [r], told without the order in
    which a backtracking matcher explores it. *)

Module RegexSpec.

Inductive Matches (total : nat) : regex -> list ascii -> list ascii -> Prop :=
| M_Eps s : Matches total Eps s s
| M_Chr p c s : p c = true -> Matches total (Chr p) (c :: s) s
| M_Seq r1 r2 s s1 s2 :
    Matches total r1 s s1 -> Matches total r2 s1 s2 ->
    Matches total (Seq r1 r2) s s2
| M_AltL r1 r2 s s' : Matches total r1 s s' -> Matches total (Alt r1 r2) s s'
| M_AltR r1 r2 s s' : Matches total r2 s s' -> Matches total (Alt r1 r2) s s'
| M_Star0 g r s : Matches total (Star g r) s s
| M_StarS g r s s1 s2 :
    Matches total r s s1 -> (length s1 < length s)%nat ->
    Matches total (Star g r) s1 s2 -> Matches total (Star g r) s s2
| M_Group n r s s' : Matches total r s s' -> Matches total (Group n r) s s'
| M_Bol s : length s = total -> Matches total Bol s s
| M_Eol : Matches total Eol [] [].

(** The string has a substring that [r] matches. *)
Definition containsMatch (r : regex) (s : string) : Prop :=
  exists pre t s',
    list_ascii_of_string s = pre ++ t /\
    Matches (length (list_ascii_of_string s)) r t s'.

(** Every word of [r] has a character in the class [P]: a sufficient
    syntactic check. *)
Fixpoint needs (P : ascii -> bool) (r : regex) : bool :=
  match r with
  | Eps => false
  | Chr p => forallb (fun c => implb (p c) (P c)) Chars.alphabet
  | Seq r1 r2 => needs P r1 || needs P r2
  | Alt r1 r2 => needs P r1 && needs P r2
  | Star _ _ => false
  | Group _ r1 => needs P r1
  | Bol => false
  | Eol => false
  end.

End RegexSpec.

Import RegexSpec.

(** ** The string and number operations of JavaScript used by the sources *)

Module Js.

(** A number that may be [NaN].  The numbers of the sources are doubles;
    the model holds the whole numbers among them exactly, and follows the
    source as long as every value has a magnitude below 2^53: from there on
    a double rounds, prints with an exponent from 10^21 and overflows to
    infinity, which the model does not do.  Statements about numbers carry
    that bound where the difference can show. *)
Definition Num : Type := option Z.
Definition NaN : Num := None.

Definition isNaN (n : Num) : bool :=
  match n with None => true | Some _ => false end.

Definition mul (a b : Num) : Num :=
  match a, b with Some x, Some y => Some (x * y)%Z | _, _ => None end.

Definition add (a b : Num) : Num :=
  match a, b with Some x, Some y => Some (x + y)%Z | _, _ => None end.

(** [s.split(sep)] for a separator of one character *)
Fixpoint splitL (sep : ascii) (s : list ascii) : list (list ascii) :=
  match s with
  | [] => [[]]
  | c :: s' =>
      if Ascii.eqb c sep then [] :: splitL sep s'
      else match splitL sep s' with
           | w :: ws => (c :: w) :: ws
           | [] => [[c]]
           end
  end.

Definition split (sep : ascii) (s : string) : list string :=
  map string_of_list_ascii (splitL sep (list_ascii_of_string s)).

(** [s.split(sep, limit)] *)
Definition splitLimit (sep : ascii) (limit : nat) (s : string) : list string :=
  firstn limit (split sep s).

(** [a.join(sep)] *)
Definition join (sep : string) (ws : list string) : string :=
  String.concat sep ws.

(** [s.includes(c)] for a string [c] of one character *)
Definition includes (c : ascii) (s : string) : bool :=
  existsb (Ascii.eqb c) (list_ascii_of_string s).

Fixpoint trimStartL (s : list ascii) : list ascii :=
  match s with
  | c :: s' => if Chars.isSpace c then trimStartL s' else s
  | [] => []
  end.

Definition trimEndL (s : list ascii) : list ascii :=
  rev (trimStartL (rev s)).

(** [s.trim()] *)
Definition trim (s : string) : string :=
  string_of_list_ascii (trimEndL (trimStartL (list_ascii_of_string s))).

Definition lowerChar (c : ascii) : ascii :=
  let n := Chars.code c in
  if ((65 <=? n) && (n <=? 90) || (192 <=? n) && (n <=? 214)
      || (216 <=? n) && (n <=? 222))%N
  then ascii_of_N (n + 32) else c.

(** [s.toLowerCase()] *)
Definition toLowerCase (s : string) : string :=
  string_of_list_ascii (map lowerChar (list_ascii_of_string s)).

(** The value of a digit in the given radix, if it is one. *)
Definition digitValue (radix : Z) (c : ascii) : option Z :=
  let n := Z.of_N (Chars.code c) in
  let v := if Chars.isDigit c then Some (n - 48)%Z
           else if Chars.isLower c then Some (n - 97 + 10)%Z
           else if Chars.isUpper c then Some (n - 65 + 10)%Z
           else None in
  match v with
  | Some d => if (d <? radix)%Z then Some d else None
  | None => None
  end.

(** Reads the longest prefix of digits; [acc] is [None] until a digit has
    been read. *)
Fixpoint readDigits (radix : Z) (acc : option Z) (s : list ascii) : option Z :=
  match s with
  | c :: s' =>
      match digitValue radix c with
      | Some d => readDigits radix (Some (default 0%Z acc * radix + d)%Z) s'
      | None => acc
      end
  | [] => acc
  end.

(** [parseInt(s)] without a radix: leading white space, an optional sign,
    an optional [0x]/[0X] prefix selecting radix 16, then the longest
    prefix of digits; [NaN] when there is none. *)
Definition parseInt (s : string) : Num :=
  let s0 := trimStartL (list_ascii_of_string s) in
  let sign :=
    match s0 with
    | c :: _ => if Ascii.eqb c "-" then (-1)%Z else 1%Z
    | [] => 1%Z
    end in
  let s1 :=
    match s0 with
    | c :: t => if Ascii.eqb c "-" || Ascii.eqb c "+" then t else s0
    | [] => s0
    end in
  let hex :=
    match s1 with
    | c0 :: c1 :: _ => Ascii.eqb c0 "0" && (Ascii.eqb c1 "x" || Ascii.eqb c1 "X")
    | _ => false
    end in
  let radix := if hex then 16%Z else 10%Z in
  let s2 := if hex then skipn 2 s1 else s1 in
  match readDigits radix None s2 with
  | Some v => Some (sign * v)%Z
  | None => NaN
  end.

(** [n.toString()] for an integer *)
Definition showZ (z : Z) : string :=
  match z with
  | Z0 => "0"
  | Zpos p => NilEmpty.string_of_uint (Pos.to_uint p)
  | Zneg p => "-" ++ NilEmpty.string_of_uint (Pos.to_uint p)
  end.

(** [s.padStart(2, '0')] *)
Definition padStart2 (s : string) : string :=
  match String.length s with
  | 0%nat => "00"
  | 1%nat => "0" ++ s
  | _ => s
  end.

(** [a.includes(v)] for an array of strings *)
Definition inList (ws : list string) (v : string) : bool :=
  existsb (String.eqb v) ws.

(** [s.startsWith(p)] and [s.substring(n)] *)
Definition startsWith (p s : string) : bool := String.prefix p s.

Definition substringFrom (n : nat) (s : string) : string :=
  string_of_list_ascii (skipn n (list_ascii_of_string s)).

(** The double quote. *)
Definition quote : string := String "034" EmptyString.

End Js.

(** ** lib/youtube/base-tool.ts *)

(** A JavaScript computation either returns or throws.  A thrown value is
    an [Error] with its message, or some other value. *)
Inductive Thrown : Type :=
| ErrorObj (message : string)
| NotAnError.

Inductive Exc (A : Type) : Type :=
| Return (a : A)
| Throw (e : Thrown).
Arguments Return {A} a.
Arguments Throw {A} e.

(** [/(?:youtube\.com\/(?:[^\/\n\s]+\/\S+\/|(?:v|e(?:mbed)?)\/|watch\?(?:\S*&)?v=|shorts\/)|youtu\.be\/)([a-zA-Z0-9_-]{11})/] *)
Definition youtube_prefix : regex :=
  Alt (Seq (Lit "youtube.com/")
         (Alt (Seq (Plus true (Chr Chars.isPathSegChar))
                 (Seq (Lit "/") (Seq (Plus true (Chr Chars.isNonSpace)) (Lit "/"))))
         (Alt (Seq (Alt (Lit "v") (Seq (Lit "e") (Opt (Lit "mbed")))) (Lit "/"))
         (Alt (Seq (Lit "watch?")
                 (Seq (Opt (Seq (Star true (Chr Chars.isNonSpace)) (Lit "&")))
                      (Lit "v=")))
              (Lit "shorts/")))))
      (Lit "youtu.be/").

Definition youtube_pattern : regex :=
  Seq youtube_prefix (Group 1 (Rep 11 (Chr Chars.isIdChar))).

(** [/^[a-zA-Z0-9_-]{11}$/] *)
Definition bare_id_pattern : regex :=
  Seq Bol (Seq (Rep 11 (Chr Chars.isIdChar)) Eol).

Definition extractVideoId (videoInput : string) : Exc string :=
  match exec youtube_pattern videoInput with
  | Some m =>
      (* match[1]; group 1 takes part in every match of the pattern *)
      match group 1 m with
      | Some id => Return id
      | None => Return ""
      end
  | None =>
      if test bare_id_pattern videoInput then Return videoInput
      else Throw (ErrorObj
             ("Could not extract valid YouTube video ID from: " ++ videoInput))
  end.


(** A bare identifier: exactly 11 characters of the identifier alphabet. *)
Definition isBareId (s : string) : Prop :=
  String.length s = 11%nat /\
  forallb Chars.isIdChar (list_ascii_of_string s) = true.

(** The URL forms that the specification names: watch, youtu.be, embed and
    shorts, each followed by the identifier. *)
Definition named_forms_pattern : regex :=
  Seq (Alt (Seq (Lit "youtube.com/")
              (Alt (Lit "embed/")
              (Alt (Seq (Lit "watch?")
                      (Seq (Opt (Seq (Star true (Chr Chars.isNonSpace)) (Lit "&")))
                           (Lit "v=")))
                   (Lit "shorts/"))))
           (Lit "youtu.be/"))
      (Group 1 (Rep 11 (Chr Chars.isIdChar))).

(** ** app/(chat)/api/youtube/video/route.ts *)

(** [/PT(?:(\d+)H)?(?:(\d+)M)?(?:(\d+)S)?/] *)
Definition duration_pattern : regex :=
  Seq (Lit "PT")
    (Seq (Opt (Seq (Group 1 (Plus true (Chr Chars.isDigit))) (Lit "H")))
    (Seq (Opt (Seq (Group 2 (Plus true (Chr Chars.isDigit))) (Lit "M")))
         (Opt (Seq (Group 3 (Plus true (Chr Chars.isDigit))) (Lit "S"))))).

(** [x || '0'] for a capture group [x], which is undefined when the group
    took no part in the match *)
Definition orZero (x : option string) : string :=
  match x with
  | Some w => if String.eqb w "" then "0" else w
  | None => "0"
  end.

Definition parseDuration (duration : string) : Js.Num :=
  match exec duration_pattern duration with
  | None => Some 0%Z
  | Some m =>
      let hours := group 1 m in
      let minutes := group 2 m in
      let seconds := group 3 m in
      Js.add
        (Js.add (Js.mul (Js.parseInt (orZero hours)) (Some 3600%Z))
                (Js.mul (Js.parseInt (orZero minutes)) (Some 60%Z)))
        (Js.parseInt (orZero seconds))
  end.

(** The durations of the specification: [PT], then the hours, minutes and
    seconds that are present, each a run of decimal digits and its unit. *)
Module IsoDuration.

Definition decimalValue (digits : list ascii) : Z :=
  fold_left (fun acc c => (acc * 10 + (Z.of_N (Chars.code c) - 48))%Z) digits 0%Z.

Definition wellFormed (part : option (list ascii)) : Prop :=
  match part with
  | Some digits => digits <> [] /\ forallb Chars.isDigit digits = true
  | None => True
  end.

Definition component (part : option (list ascii)) (unit : ascii) : list ascii :=
  match part with
  | Some digits => digits ++ [unit]
  | None => []
  end.

Definition render (hours minutes seconds : option (list ascii)) : string :=
  string_of_list_ascii
    ("P"%char :: "T"%char
       :: component hours "H" ++ component minutes "M" ++ component seconds "S").

Definition amount (part : option (list ascii)) : Z :=
  match part with
  | Some digits => decimalValue digits
  | None => 0%Z
  end.

Definition totalSeconds (hours minutes seconds : option (list ascii)) : Z :=
  (amount hours * 3600 + amount minutes * 60 + amount seconds)%Z.

(** [(\d+)U], a part of the pattern, for a unit [U]. *)
Definition digitsThen (n : nat) (unit : ascii) : regex :=
  Seq (Group n (Plus true (Chr Chars.isDigit))) (LitL [unit]).

(** The capture groups after a match: group [n] bound to the digits of a
    part that is present. *)
Definition bindPart (n : nat) (part : option (list ascii)) (caps : captures)
  : captures :=
  match part with
  | Some digits => (n, digits) :: caps
  | None => caps
  end.

(** The string goes on with something that is no digit, or ends. *)
Definition noDigitAhead (tail : list ascii) : Prop :=
  match tail with
  | c :: _ => Chars.isDigit c = false
  | [] => True
  end.

End IsoDuration.

(** ** lib/youtube/discovery-tool.ts: parsing the input *)

Module Discovery.

Record SearchParams : Type := mkParams {
  count : Z;
  sort : string;
  recent : bool;
  minViews : Z;
  duration : option string
}.

Definition defaultParams : SearchParams :=
  {| count := 5; sort := "relevance"; recent := false; minViews := 0;
     duration := None |}.

(** The body of the loop over the parameter tokens. *)
Definition applyParam (params : SearchParams) (param : string) : SearchParams :=
  let trimmed := Js.trim param in
  if Js.includes "=" trimmed then
    match map (fun part => Js.toLowerCase (Js.trim part))
              (Js.splitLimit "=" 2 trimmed) with
    | key :: value :: _ =>
        if String.eqb key "count" then
          match Js.parseInt value with
          | Some count =>
              {| count := Z.min count 20; sort := sort params;
                 recent := recent params; minViews := minViews params;
                 duration := duration params |}
          | None => params
          end
        else if String.eqb key "sort"
                && Js.inList ["relevance"; "date"; "views"; "rating"] value then
          {| count := count params; sort := value; recent := recent params;
             minViews := minViews params; duration := duration params |}
        else if String.eqb key "recent" && Js.inList ["true"; "yes"; "1"] value then
          {| count := count params; sort := sort params; recent := true;
             minViews := minViews params; duration := duration params |}
        else if String.eqb key "min_views" then
          match Js.parseInt value with
          | Some minViews =>
              {| count := count params; sort := sort params;
                 recent := recent params; minViews := minViews;
                 duration := duration params |}
          | None => params
          end
        else if String.eqb key "duration"
                && Js.inList ["short"; "medium"; "long"] value then
          {| count := count params; sort := sort params; recent := recent params;
             minViews := minViews params; duration := Some value |}
        else params
    | _ => params
    end
  else params.

Definition parseInput (input : string) : string * SearchParams :=
  let parts := Js.splitLimit "|" 2 input in
  let query := Js.trim (nth 0 parts "") in
  let params :=
    match parts with
    | _ :: part1 :: _ =>
        let paramParts :=
          if Js.includes "," part1 then Js.split "," part1
          else Js.split "|" part1 in
        fold_left applyParam paramParts defaultParams
    | _ => defaultParams
    end in
  (query, params).

(** A [key=value] token takes effect when the key is known and the value is
    valid for it. *)
Definition validToken (key value : string) : bool :=
  if String.eqb key "count" then negb (Js.isNaN (Js.parseInt value))
  else if String.eqb key "sort" then
    Js.inList ["relevance"; "date"; "views"; "rating"] value
  else if String.eqb key "recent" then Js.inList ["true"; "yes"; "1"] value
  else if String.eqb key "min_views" then negb (Js.isNaN (Js.parseInt value))
  else if String.eqb key "duration" then Js.inList ["short"; "medium"; "long"] value
  else false.

End Discovery.

(** ** app/(chat)/api/youtube/download/route.ts: the format catalogue

    The numbers of the media extractor (bit rates, sizes) are finite doubles;
    they are modelled by the rationals they denote.  The sign of a difference
    of two doubles is the sign of the exact difference, so sorting by it is
    sorting by the rationals. *)

(** A format as the media extractor reports it; a missing field is [None]. *)
Module YtDlp.

Record Format : Type := mkFormat {
  format_id : option string;
  ext : option string;
  resolution : option string;
  fps : option Q;
  vcodec : option string;
  acodec : option string;
  abr : option Q;
  vbr : option Q;
  filesize : option Q;
  format_note : option string
}.

End YtDlp.

Module DownloadRoute.

Record YtDlpResult : Type := mkResult {
  title : option string;
  duration : option Q;
  format_id : option string;
  formats : list YtDlp.Format
}.

Record FormatInfo : Type := mkFormatInfo {
  formatId : option string;
  ext : option string;
  resolution : option string;
  fps : option Q;
  vcodec : option string;
  acodec : option string;
  abr : option Q;
  vbr : option Q;
  filesize : option Q;
  formatNote : option string
}.

Record Buckets : Type := mkBuckets {
  combined : list FormatInfo;
  videoOnly : list FormatInfo;
  audioOnly : list FormatInfo
}.

Record BestQuality : Type := mkBest {
  best : option YtDlp.Format;
  bestVideo : option YtDlp.Format;
  bestAudio : option YtDlp.Format
}.

Inductive FormatResult : Type :=
| FormatCatalogue (videoId : string) (title : option string)
    (duration : option Q) (formats : Buckets) (bestQuality : BestQuality)
| FormatError (error : string) (videoId : string).

(** [x === 'literal'] for a field that may be missing *)
Definition isStr (x : option string) (lit : string) : bool :=
  match x with
  | Some w => String.eqb w lit
  | None => false
  end.

(** [x === y] for two fields that may be missing *)
Definition sameStr (x y : option string) : bool :=
  match x, y with
  | Some v, Some w => String.eqb v w
  | None, None => true
  | _, _ => false
  end.

(** The object built for each format at the head of the loop. *)
Definition formatInfo (format : YtDlp.Format) : FormatInfo :=
  {| formatId := YtDlp.format_id format;
     ext := YtDlp.ext format;
     resolution := YtDlp.resolution format;
     fps := YtDlp.fps format;
     vcodec := YtDlp.vcodec format;
     acodec := YtDlp.acodec format;
     abr := YtDlp.abr format;
     vbr := YtDlp.vbr format;
     filesize := YtDlp.filesize format;
     formatNote := YtDlp.format_note format |}.

(** The body of the loop over [result.formats]: one [push]. *)
Definition categorize (formats : Buckets) (format : YtDlp.Format) : Buckets :=
  if isStr (YtDlp.resolution format) "audio only" then
    {| combined := combined formats; videoOnly := videoOnly formats;
       audioOnly := audioOnly formats ++ [formatInfo format] |}
  else if isStr (YtDlp.acodec format) "none" then
    {| combined := combined formats;
       videoOnly := videoOnly formats ++ [formatInfo format];
       audioOnly := audioOnly formats |}
  else
    {| combined := combined formats ++ [formatInfo format];
       videoOnly := videoOnly formats; audioOnly := audioOnly formats |}.

(** [a.abr || 0] *)
Definition abrOrZero (f : YtDlp.Format) : Q :=
  match YtDlp.abr f with
  | Some q => q
  | None => 0
  end.

(** The comparator [(a, b) => (b.abr || 0) - (a.abr || 0)] *)
Definition byAbrDescending (a b : YtDlp.Format) : Q :=
  abrOrZero b - abrOrZero a.

(** [Array.prototype.sort] with a comparator: a stable sort, [x] staying
    before [y] unless the comparator is positive. *)
Fixpoint insertSorted {X : Type} (cmp : X -> X -> Q) (x : X) (l : list X) : list X :=
  match l with
  | [] => [x]
  | y :: l' =>
      if Qle_bool (cmp x y) 0 then x :: y :: l'
      else y :: insertSorted cmp x l'
  end.

Definition sortWith {X : Type} (cmp : X -> X -> Q) (l : list X) : list X :=
  fold_right (insertSorted cmp) [] l.

Definition getFormatInfo (ytdlp : string -> Exc YtDlpResult) (videoId : string)
  : FormatResult :=
  let url := ("https://www.youtube.com/watch?v=" ++ videoId)%string in
  match ytdlp url with
  | Return result =>
      let formats :=
        fold_left categorize (formats result)
          {| combined := []; videoOnly := []; audioOnly := [] |} in
      let bestQuality :=
        {| best :=
             find (fun f => sameStr (YtDlp.format_id f) (format_id result))
                  (DownloadRoute.formats result);
           bestVideo :=
             find (fun f => negb (isStr (YtDlp.vcodec f) "none")
                            && negb (isStr (YtDlp.acodec f) "none")
                            && sameStr (YtDlp.format_id f) (format_id result))
                  (DownloadRoute.formats result);
           bestAudio :=
             head (sortWith byAbrDescending
                     (List.filter (fun f => isStr (YtDlp.resolution f) "audio only")
                             (DownloadRoute.formats result))) |} in
      FormatCatalogue videoId (title result) (duration result) formats bestQuality
  | Throw (ErrorObj message) => FormatError message videoId
  | Throw NotAnError => FormatError "Failed to retrieve format information" videoId
  end.

(** The callbacks of the loop, as predicates on a raw format. *)
Definition isAudioOnly (f : YtDlp.Format) : bool :=
  isStr (YtDlp.resolution f) "audio only".

Definition isVideoOnly (f : YtDlp.Format) : bool :=
  negb (isAudioOnly f) && isStr (YtDlp.acodec f) "none".

Definition isCombined (f : YtDlp.Format) : bool :=
  negb (isAudioOnly f) && negb (isStr (YtDlp.acodec f) "none").

(** What the specification asks of the catalogue, on the fields of the raw
    formats.  An entry shows a raw format when it has its ten fields. *)
Definition shows (f : YtDlp.Format) (entry : FormatInfo) : Prop :=
  formatId entry = YtDlp.format_id f /\
  ext entry = YtDlp.ext f /\
  resolution entry = YtDlp.resolution f /\
  fps entry = YtDlp.fps f /\
  vcodec entry = YtDlp.vcodec f /\
  acodec entry = YtDlp.acodec f /\
  abr entry = YtDlp.abr f /\
  vbr entry = YtDlp.vbr f /\
  filesize entry = YtDlp.filesize f /\
  formatNote entry = YtDlp.format_note f.

(** The three classes: the resolution is "audio only"; it is not, and the
    audio codec is "none"; anything else. *)
Definition audioClass (f : YtDlp.Format) : bool :=
  bool_decide (YtDlp.resolution f = Some "audio only").

Definition videoClass (f : YtDlp.Format) : bool :=
  negb (bool_decide (YtDlp.resolution f = Some "audio only"))
  && bool_decide (YtDlp.acodec f = Some "none").

Definition combinedClass (f : YtDlp.Format) : bool :=
  negb (bool_decide (YtDlp.resolution f = Some "audio only"))
  && negb (bool_decide (YtDlp.acodec f = Some "none")).

(** Each bucket shows the raw formats of its class, one entry for each and
    in the order of the raw list. *)
Definition partitioned (raw : list YtDlp.Format) (b : Buckets) : Prop :=
  Forall2 shows (List.filter audioClass raw) (audioOnly b) /\
  Forall2 shows (List.filter videoClass raw) (videoOnly b) /\
  Forall2 shows (List.filter combinedClass raw) (combined b).

(** The best audio: a raw format of resolution "audio only" whose [abr] no
    other such format exceeds (a missing [abr] counts as 0); there is none
    only when no raw format has that resolution. *)
Definition isBestAudio (raw : list YtDlp.Format) (o : option YtDlp.Format) : Prop :=
  match o with
  | Some f =>
      In f raw /\ YtDlp.resolution f = Some "audio only" /\
      forall g, In g raw -> YtDlp.resolution g = Some "audio only" ->
                (default 0 (YtDlp.abr g) <= default 0 (YtDlp.abr f))%Q
  | None => forall g, In g raw -> YtDlp.resolution g <> Some "audio only"
  end.

(** A result of the media extractor with two audio-only formats, a
    video-only format and a combined one. *)
Definition audioLow : YtDlp.Format :=
  YtDlp.mkFormat (Some "139") (Some "m4a") (Some "audio only") None
    (Some "none") (Some "mp4a.40.5") (Some (48 # 1)) None (Some (1000 # 1))
    (Some "low").

Definition video1080 : YtDlp.Format :=
  YtDlp.mkFormat (Some "137") (Some "mp4") (Some "1920x1080") (Some (30 # 1))
    (Some "avc1.640028") (Some "none") None (Some (4400 # 1)) None (Some "1080p").

Definition audioMedium : YtDlp.Format :=
  YtDlp.mkFormat (Some "251") (Some "webm") (Some "audio only") None
    (Some "none") (Some "opus") (Some (259 # 2)) None None (Some "medium").

Definition combined360 : YtDlp.Format :=
  YtDlp.mkFormat (Some "18") (Some "mp4") (Some "640x360") (Some (30 # 1))
    (Some "avc1.42001E") (Some "mp4a.40.2") (Some (96 # 1)) None None (Some "360p").

Definition sampleFormats : list YtDlp.Format :=
  [audioLow; video1080; audioMedium; combined360].

Definition sampleResult : YtDlpResult :=
  mkResult (Some "A video") (Some (212 # 1)) (Some "18") sampleFormats.

Definition sampleYtdlp : string -> Exc YtDlpResult := fun _ => Return sampleResult.

End DownloadRoute.

(** ** JavaScript values

    The payloads that the tools return and cache.  An object keeps its
    fields in insertion order. *)

#[local] Set Warnings "-register-all".

Inductive Value : Type :=
| VUndefined
| VNull
| VBool (b : bool)
| VNum (q : Q)
| VStr (s : string)
| VArr (items : list Value)
| VObj (fields : list (string * Value)).

Fixpoint lookupField (name : string) (fields : list (string * Value)) : option Value :=
  match fields with
  | [] => None
  | (k, v) :: fields' => if String.eqb k name then Some v else lookupField name fields'
  end.

(** ['name' in v] for an object [v] *)
Definition hasField (name : string) (v : Value) : bool :=
  match v with
  | VObj fields =>
      match lookupField name fields with Some _ => true | None => false end
  | _ => false
  end.

(** [v.name] *)
Definition field (name : string) (v : Value) : Value :=
  match v with
  | VObj fields => default VUndefined (lookupField name fields)
  | _ => VUndefined
  end.

Definition VInt (z : Z) : Value := VNum (inject_Z z).

Definition LF : string := String "010" EmptyString.

(** ** lib/youtube/transcript-tool.ts: shaping *)

Module TranscriptTool.

Record TranscriptSegment : Type := mkSegment {
  text : string;
  start : Q;
  duration : Q
}.

(** [/\s+/g] *)
Definition spaces_pattern : regex := Plus true (Chr Chars.isSpace).

(** [/\[.*?\]/g] *)
Definition annotation_pattern : regex :=
  Seq (Lit "[") (Seq (Star false (Chr Chars.isDot)) (Lit "]")).

(** [/\s([.,;!?])/g] *)
Definition punctuation_pattern : regex :=
  Seq (Chr Chars.isSpace) (Group 1 (Chr (Chars.oneOf ".,;!?"))).

(** [/\[(\d+:\d+)\]\s+/g] *)
Definition timestamp_pattern : regex :=
  Seq (Lit "[")
    (Seq (Group 1 (Seq (Plus true (Chr Chars.isDigit))
                    (Seq (Lit ":") (Plus true (Chr Chars.isDigit)))))
    (Seq (Lit "]") (Plus true (Chr Chars.isSpace)))).

(** [/\s([.,;:!?])/g] *)
Definition punctuation_colon_pattern : regex :=
  Seq (Chr Chars.isSpace) (Group 1 (Chr (Chars.oneOf ".,;:!?"))).

(** The body of the loop of [formatTranscriptWithTimestamps]; the state is
    [lines] and [currentMinute]. *)
Definition pushSegment (st : list string * Z) (segment : TranscriptSegment)
  : list string * Z :=
  let '(lines, currentMinute) := st in
  let seconds := Qfloor (start segment) in
  let minutes := (seconds / 60)%Z in
  let remainingSeconds := Z.rem seconds 60 in
  if (currentMinute <? minutes)%Z then
    (lines ++ [(LF ++ "[" ++ Js.showZ minutes ++ ":"
                ++ Js.padStart2 (Js.showZ remainingSeconds) ++ "]")%string]
           ++ [text segment],
     minutes)
  else (lines ++ [text segment], currentMinute).

Definition formatTranscriptWithTimestamps (segments : list TranscriptSegment)
  : string :=
  let lines := fst (fold_left pushSegment segments ([], (-1)%Z)) in
  let result := Js.join " " lines in
  let result := replaceAll spaces_pattern (constant " ") result in
  let result := replaceAll timestamp_pattern
                  (aroundGroup1 (LF ++ "[") "] ") result in
  let result := replaceAll punctuation_colon_pattern (aroundGroup1 "" "") result in
  Js.trim result.

(** The cleaned transcript: [fullText] after the three replacements. *)
Definition cleanText (transcriptData : list TranscriptSegment) : string :=
  let fullText := Js.join " " (map text transcriptData) in
  let fullText := replaceAll spaces_pattern (constant " ") fullText in
  let fullText := replaceAll annotation_pattern (constant "") fullText in
  replaceAll punctuation_pattern (aroundGroup1 "" "") fullText.

(** [fullText.split(" ").slice(0, 100).join(" ")
       + (fullText.split(" ").length > 100 ? "..." : "")] *)
Definition summarize (fullText : string) : string :=
  (Js.join " " (firstn 100 (Js.split " " fullText))
   ++ (if (100 <? length (Js.split " " fullText))%nat then "..." else ""))%string.

(** [language || "auto"] *)
Definition languageOrAuto (language : option string) : string :=
  match language with
  | Some l => if String.eqb l "" then "auto" else l
  | None => "auto"
  end.

(** [transcriptData] is [None] when the value is null or undefined. *)
Definition processTranscript (transcriptData : option (list TranscriptSegment))
    (videoId : string) (language : option string) : Value :=
  match transcriptData with
  | None | Some [] =>
      VObj [("error", VStr "No transcript available for this video");
            ("videoId", VStr videoId)]
  | Some segments =>
      let fullText := cleanText segments in
      let summary := summarize fullText in
      let formattedTranscript := formatTranscriptWithTimestamps segments in
      VObj [("videoId", VStr videoId);
            ("transcript", VStr fullText);
            ("formattedTranscript", VStr formattedTranscript);
            ("language", VStr (languageOrAuto language));
            ("length", VInt (Z.of_nat (String.length fullText)));
            ("wordCount", VInt (Z.of_nat (length (Js.split " " fullText))));
            ("summary", VStr summary)]
  end.

End TranscriptTool.

(** ** app/(chat)/api/youtube/transcript/route.ts: shaping *)

Module TranscriptRoute.

Record TranscriptItem : Type := mkItem {
  start : Q;
  duration : Q;
  text : string
}.

(** The body of the loop of [formatTranscriptWithTimestamps]; the state is
    [formattedText] and [currentMinute]. *)
Definition appendItem (st : string * Z) (item : TranscriptItem) : string * Z :=
  let '(formattedText, currentMinute) := st in
  let seconds := Qfloor (start item) in
  let minutes := (seconds / 60)%Z in
  let remainingSeconds := Z.rem seconds 60 in
  if (currentMinute <? minutes)%Z then
    ((formattedText ++ (LF ++ "[" ++ Js.showZ minutes ++ ":"
                         ++ Js.padStart2 (Js.showZ remainingSeconds) ++ "] ")
       ++ text item ++ " ")%string,
     minutes)
  else ((formattedText ++ text item ++ " ")%string, currentMinute).

Definition formatTranscriptWithTimestamps (transcript : list TranscriptItem)
  : string :=
  Js.trim (fst (fold_left appendItem transcript ("", (-1)%Z))).

(** [x || 'auto'] *)
Definition orAuto (x : option string) : string :=
  match x with
  | Some l => if String.eqb l "" then "auto" else l
  | None => "auto"
  end.

(** The object that [fetchTranscriptDirectly] returns once the caption track
    has been fetched and parsed into [transcript]. *)
Definition transcriptResult (videoId : string) (languageCode : option string)
    (transcript : list TranscriptItem) : Value :=
  let joined := Js.join " " (map text transcript) in
  VObj [("videoId", VStr videoId);
        ("transcript", VStr joined);
        ("formattedTranscript", VStr (formatTranscriptWithTimestamps transcript));
        ("language", VStr (orAuto languageCode));
        ("length", VInt (Z.of_nat (String.length joined)));
        ("wordCount",
         VInt (Z.of_nat (length (splitRegex TranscriptTool.spaces_pattern joined))));
        ("summary",
         VStr (Js.join " "
                 (firstn 100 (splitRegex TranscriptTool.spaces_pattern joined))
               ++ "..."))].

End TranscriptRoute.

(** ** app/(chat)/api/youtube/search/route.ts: the recency filter

    [new Date(s)] is the engine's: [DateOf s] is the time value of the date
    it builds, in milliseconds, or [None] for the invalid date, whose time
    value is NaN.  [twoYearsAgo] is the time value of the date the route
    computes from the clock with [setFullYear]. *)

Module SearchRoute.

Record Video : Type := mkVideo {
  type : string;
  id : string;
  title : string;
  views : option Z;
  uploadedAt : option string
}.

(** [!video.uploadedAt]: the field is missing, null or the empty string. *)
Definition noUploadDate (video : Video) : bool :=
  match uploadedAt video with
  | None => true
  | Some w => String.eqb w ""
  end.

(** [uploadDate > twoYearsAgo]: a comparison of time values, false when the
    left one is NaN. *)
Definition laterThan (uploadDate : option Z) (twoYearsAgo : Z) : bool :=
  match uploadDate with
  | Some t => (twoYearsAgo <? t)%Z
  | None => false
  end.

(** The callback of the filter applied when [options.recent] is set. *)
Definition isRecent (DateOf : string -> option Z) (twoYearsAgo : Z)
    (video : Video) : bool :=
  if noUploadDate video then true
  else laterThan (DateOf (default "" (uploadedAt video))) twoYearsAgo.

(** The videos of a search result after the type filter and, when [recent]
    is set, the recency filter. *)
Definition recentVideos (DateOf : string -> option Z) (twoYearsAgo : Z)
    (recent : bool) (items : list Video) : list Video :=
  let videos := List.filter (fun item => String.eqb (type item) "video") items in
  if recent then List.filter (isRecent DateOf twoYearsAgo) videos else videos.

(** An engine's answer on a string that holds no date at all. *)
Definition rejectAll : string -> option Z := fun _ => None.

End SearchRoute.

(** ** The tool adapters

    Each tool module owns a cache, a [Map] from keys to [{data, timestamp}].
    A [World] is what one tool sees: its cache, the clock read by
    [Date.now()] and the requests sent so far.  The network is an oracle:
    asked for an endpoint it gives a reply, after some time. *)

Module Tools.

Record CacheEntry : Type := mkEntry {
  data : Value;
  timestamp : Z
}.

Record World : Type := mkWorld {
  cache : gmap string CacheEntry;
  clock : Z;
  requests : list string
}.

Record Response (T : Type) : Type := mkResponse {
  ok : bool;
  statusText : string;
  json : Exc T
}.
Arguments mkResponse {T} ok statusText json.
Arguments ok {T} r.
Arguments statusText {T} r.
Arguments json {T} r.

Inductive FetchOutcome (T : Type) : Type :=
| Rejected (e : Thrown)
| Fulfilled (response : Response T).
Arguments Rejected {T} e.
Arguments Fulfilled {T} response.

Record Reply (T : Type) : Type := mkReply {
  elapsed : Z;
  outcome : FetchOutcome T
}.
Arguments mkReply {T} elapsed outcome.
Arguments elapsed {T} r.
Arguments outcome {T} r.

(** The reply to a request, given the time, the requests sent before and
    the endpoint. *)
Definition Network (T : Type) : Type := Z -> list string -> string -> Reply T.

(** Computations that read and write the world and may throw. *)
Definition M (A : Type) : Type := World -> Exc A * World.

Definition ret {A : Type} (a : A) : M A := fun w => (Return a, w).

Definition throw {A : Type} (e : Thrown) : M A := fun w => (Throw e, w).

Definition lift {A : Type} (x : Exc A) : M A := fun w => (x, w).

Definition bind {A B : Type} (m : M A) (f : A -> M B) : M B :=
  fun w =>
    match m w with
    | (Return a, w') => f a w'
    | (Throw e, w') => (Throw e, w')
    end.

(** [try { m } catch (error) { handler }] *)
Definition tryCatch {A : Type} (m : M A) (handler : Thrown -> M A) : M A :=
  fun w =>
    match m w with
    | (Return a, w') => (Return a, w')
    | (Throw e, w') => handler e w'
    end.

#[local] Notation "x <- c1 ;; c2" := (bind c1 (fun x => c2))
  (at level 100, c1 at next level, c2 at level 200, only parsing).
#[local] Notation "c1 ;; c2" := (bind c1 (fun _ => c2))
  (at level 100, c2 at level 200, only parsing).

(** [Date.now()] *)
Definition dateNow : M Z := fun w => (Return (clock w), w).

(** [cache.get(key)] and [cache.set(key, {data, timestamp})] *)
Definition cacheGet (key : string) : M (option CacheEntry) :=
  fun w => (Return (cache w !! key), w).

Definition cacheSet (key : string) (entry : CacheEntry) : M unit :=
  fun w => (Return tt, mkWorld (<[key := entry]> (cache w)) (clock w) (requests w)).

(** [await fetch(endpoint)] *)
Definition fetch {T : Type} (net : Network T) (endpoint : string) : M (Response T) :=
  fun w =>
    let reply := net (clock w) (requests w) endpoint in
    let w' := mkWorld (cache w) (clock w + elapsed reply) (requests w ++ [endpoint]) in
    match outcome reply with
    | Rejected e => (Throw e, w')
    | Fulfilled response => (Return response, w')
    end.

(** [cachedResult && (now - cachedResult.timestamp) < ttl]: the entry, when
    there is one and it is fresh. *)
Definition freshEntry (ttl now : Z) (cachedResult : option CacheEntry)
  : option CacheEntry :=
  match cachedResult with
  | Some entry => if (now - timestamp entry <? ttl)%Z then Some entry else None
  | None => None
  end.

(** A string that may be undefined is truthy when it is there and not
    empty. *)
Definition truthy (x : option string) : bool :=
  match x with
  | Some w => negb (String.eqb w "")
  | None => false
  end.

(** *** lib/youtube/transcript-tool.ts *)

Definition TRANSCRIPT_CACHE_TTL : Z := 3600 * 1000.

Definition transcriptCacheKey (videoId : string) (language : option string) : string :=
  (videoId ++ (if truthy language then "_" ++ default "" language else ""))%string.

Definition transcriptEndpoint (videoId : string) (language : option string) : string :=
  if truthy language then
    ("/api/youtube/transcript?videoId=" ++ videoId ++ "&language="
       ++ default "" language)%string
  else ("/api/youtube/transcript?videoId=" ++ videoId)%string.

Definition fetchTranscript
    (net : Network (option (list TranscriptTool.TranscriptSegment)))
    (videoId : string) (language : option string) : M Value :=
  tryCatch
    (let cacheKey := transcriptCacheKey videoId language in
     cachedResult <- cacheGet cacheKey ;;
     now <- dateNow ;;
     match freshEntry TRANSCRIPT_CACHE_TTL now cachedResult with
     | Some entry => ret (data entry)
     | None =>
         let endpoint := transcriptEndpoint videoId language in
         response <- fetch net endpoint ;;
         if negb (ok response) then
           throw (ErrorObj ("Failed to fetch transcript: " ++ statusText response))
         else
           data <- lift (json response) ;;
           let processed := TranscriptTool.processTranscript data videoId language in
           now' <- dateNow ;;
           cacheSet cacheKey (mkEntry processed now') ;;
           ret processed
     end)
    (fun error => throw error).

Definition transcriptExecute
    (net : Network (option (list TranscriptTool.TranscriptSegment)))
    (input : string) : M Value :=
  tryCatch
    (let parts := Js.splitLimit "|" 2 input in
     let videoInput := Js.trim (nth 0 parts "") in
     let language :=
       match parts with
       | _ :: part1 :: _ => Some (Js.trim part1)
       | _ => None
       end in
     videoId <- lift (extractVideoId videoInput) ;;
     fetchTranscript net videoId language)
    (fun error =>
       match error with
       | ErrorObj message =>
           ret (VObj [("error", VStr message);
                      ("type", VStr "transcript_error");
                      ("details", VStr "This video likely does not have available transcripts or subtitles.")])
       | NotAnError =>
           ret (VObj [("error", VStr "An unexpected error occurred while fetching the transcript");
                      ("type", VStr "system_error")])
       end).

(** [input.length === 11 ? input : undefined] *)
Definition inputIfId (input : string) : Value :=
  if (String.length input =? 11)%nat then VStr input else VUndefined.

(** *** The video, discovery and download tools

    Their shaping functions work on untyped JSON and format floating-point
    numbers; what they compute plays no part below, so the adapters take
    them as parameters, free to return any payload or to throw.  So is the
    serialization of [URLSearchParams]. *)

Section Shaping.

Variable processVideoInfo : Value -> Exc Value.
Variable processSearchResults : Value -> string -> Discovery.SearchParams -> Exc Value.
Variable processVideoMetadata : Value -> Exc Value.
Variable processAudioStreams : Value -> Exc Value.
Variable processFormats : Value -> Exc Value.
Variable searchParamsToString : list (string * string) -> string.

(** *** lib/youtube/video-tool.ts *)

Definition VIDEO_CACHE_TTL : Z := 3600 * 1000.

Definition videoEndpoint (videoId : string) : string :=
  ("/api/youtube/video?videoId=" ++ videoId)%string.

Definition fetchVideoInfo (net : Network Value) (videoId : string) : M Value :=
  tryCatch
    (cachedResult <- cacheGet videoId ;;
     now <- dateNow ;;
     match freshEntry VIDEO_CACHE_TTL now cachedResult with
     | Some entry => ret (data entry)
     | None =>
         let endpoint := videoEndpoint videoId in
         response <- fetch net endpoint ;;
         if negb (ok response) then
           throw (ErrorObj ("Failed to fetch video info: " ++ statusText response))
         else
           data <- lift (json response) ;;
           processed <- lift (processVideoInfo data) ;;
           now' <- dateNow ;;
           cacheSet videoId (mkEntry processed now') ;;
           ret processed
     end)
    (fun error => throw error).

Definition videoExecute (net : Network Value) (input : string) : M Value :=
  tryCatch
    (videoId <- lift (extractVideoId (Js.trim input)) ;;
     fetchVideoInfo net videoId)
    (fun error =>
       match error with
       | ErrorObj message =>
           ret (VObj [("error", VStr message);
                      ("videoId", inputIfId input);
                      ("type", VStr "video_info_error")])
       | NotAnError =>
           ret (VObj [("error", VStr "An unexpected error occurred while fetching video information");
                      ("type", VStr "system_error")])
       end).

(** *** lib/youtube/discovery-tool.ts *)

Definition SEARCH_CACHE_TTL : Z := 3600 * 1000.

(** [JSON.stringify(params)] *)
Definition stringifyParams (params : Discovery.SearchParams) : string :=
  let q := Js.quote in
  ("{" ++ q ++ "count" ++ q ++ ":" ++ Js.showZ (Discovery.count params)
   ++ "," ++ q ++ "sort" ++ q ++ ":" ++ q ++ Discovery.sort params ++ q
   ++ "," ++ q ++ "recent" ++ q ++ ":"
   ++ (if Discovery.recent params then "true" else "false")
   ++ "," ++ q ++ "minViews" ++ q ++ ":" ++ Js.showZ (Discovery.minViews params)
   ++ "," ++ q ++ "duration" ++ q ++ ":"
   ++ match Discovery.duration params with
      | Some d => q ++ d ++ q
      | None => "null"
      end
   ++ "}")%string.

Definition searchCacheKey (query : string) (params : Discovery.SearchParams) : string :=
  (query ++ "_" ++ stringifyParams params)%string.

(** The pairs appended to [queryParams], in order. *)
Definition searchQueryParams (query : string) (params : Discovery.SearchParams)
  : list (string * string) :=
  [("q", query); ("count", Js.showZ (Discovery.count params));
   ("sort", Discovery.sort params)]
  ++ (if Discovery.recent params then [("recent", "true")] else [])
  ++ (if (0 <? Discovery.minViews params)%Z
      then [("minViews", Js.showZ (Discovery.minViews params))] else [])
  ++ (if truthy (Discovery.duration params)
      then [("duration", default "" (Discovery.duration params))] else [])
  ++ (if Js.startsWith "channel:" query then
        [("channelId", Js.trim (Js.substringFrom 8 query)); ("type", "channel")]
      else if Js.startsWith "playlist:" query then
        [("playlistId", Js.trim (Js.substringFrom 9 query)); ("type", "playlist")]
      else [("type", "search")]).

Definition searchEndpoint (query : string) (params : Discovery.SearchParams) : string :=
  ("/api/youtube/search?" ++ searchParamsToString (searchQueryParams query params))%string.

Definition searchVideos (net : Network Value) (query : string)
    (params : Discovery.SearchParams) : M Value :=
  tryCatch
    (let cacheKey := searchCacheKey query params in
     cachedResult <- cacheGet cacheKey ;;
     now <- dateNow ;;
     match freshEntry SEARCH_CACHE_TTL now cachedResult with
     | Some entry => ret (data entry)
     | None =>
         let endpoint := searchEndpoint query params in
         response <- fetch net endpoint ;;
         if negb (ok response) then
           throw (ErrorObj ("Search failed: " ++ statusText response))
         else
           data <- lift (json response) ;;
           processed <- lift (processSearchResults data query params) ;;
           now' <- dateNow ;;
           cacheSet cacheKey (mkEntry processed now') ;;
           ret processed
     end)
    (fun error => throw error).

Definition discoveryExecute (net : Network Value) (input : string) : M Value :=
  tryCatch
    (let '(query, params) := Discovery.parseInput input in
     if String.eqb query "" then
       ret (VObj [("error", VStr "Please provide a search query");
                  ("type", VStr "search_error")])
     else searchVideos net query params)
    (fun error =>
       match error with
       | ErrorObj message =>
           ret (VObj [("error", VStr message);
                      ("query", VStr input);
                      ("type", VStr "search_error")])
       | NotAnError =>
           ret (VObj [("error", VStr "An unexpected error occurred while searching");
                      ("type", VStr "system_error")])
       end).

(** *** lib/youtube/download-tool.ts *)

Definition DOWNLOAD_CACHE_TTL : Z := 3600 * 1000.

Definition downloadParseInput (input : string) : Exc (string * string) :=
  let parts := Js.splitLimit "|" 2 input in
  let videoInput := Js.trim (nth 0 parts "") in
  let mode :=
    match parts with
    | _ :: part1 :: _ =>
        let param := Js.toLowerCase (Js.trim part1) in
        if String.eqb param "audio_info" || String.eqb param "formats"
        then param else "metadata_only"
    | _ => "metadata_only"
    end in
  match extractVideoId videoInput with
  | Return videoId => Return (videoId, mode)
  | Throw e => Throw e
  end.

Definition downloadCacheKey (videoId mode : string) : string :=
  (videoId ++ "_" ++ mode)%string.

Definition downloadEndpoint (videoId mode : string) : string :=
  ("/api/youtube/download?videoId=" ++ videoId ++ "&mode=" ++ mode)%string.

Definition getVideoInfo (net : Network Value) (videoId mode : string) : M Value :=
  tryCatch
    (let cacheKey := downloadCacheKey videoId mode in
     cachedResult <- cacheGet cacheKey ;;
     now <- dateNow ;;
     match freshEntry DOWNLOAD_CACHE_TTL now cachedResult with
     | Some entry => ret (data entry)
     | None =>
         let endpoint := downloadEndpoint videoId mode in
         response <- fetch net endpoint ;;
         if negb (ok response) then
           throw (ErrorObj ("Failed to get video information: " ++ statusText response))
         else
           data <- lift (json response) ;;
           data <- lift (if String.eqb mode "metadata_only" then processVideoMetadata data
                         else if String.eqb mode "audio_info" then processAudioStreams data
                         else if String.eqb mode "formats" then processFormats data
                         else Return data) ;;
           now' <- dateNow ;;
           cacheSet cacheKey (mkEntry data now') ;;
           ret data
     end)
    (fun error => throw error).

Definition downloadExecute (net : Network Value) (input : string) : M Value :=
  tryCatch
    (parsed <- lift (downloadParseInput input) ;;
     let '(videoId, mode) := parsed in
     getVideoInfo net videoId mode)
    (fun error =>
       match error with
       | ErrorObj message =>
           ret (VObj [("error", VStr message);
                      ("videoId", inputIfId input);
                      ("type", VStr "download_error")])
       | NotAnError =>
           ret (VObj [("error", VStr "An unexpected error occurred while processing video information");
                      ("type", VStr "system_error")])
       end).

End Shaping.

(** *** What the specification asks of an adapter *)

(** The cache holds a fresh entry for the key. *)
Definition fresh (ttl : Z) (key : string) (w : World) : Prop :=
  exists entry, cache w !! key = Some entry /\ (clock w - timestamp entry < ttl)%Z.

(** The time-boxed cache: with a fresh entry the stored payload comes back
    and nothing else happens; otherwise exactly one request is sent, and an
    entry that was there is still there (as it was or overwritten). *)
Definition timeBoxed (run : M Value) (key endpoint : string) (ttl : Z) : Prop :=
  forall w,
    (forall entry,
       cache w !! key = Some entry -> (clock w - timestamp entry < ttl)%Z ->
       run w = (Return (data entry), w)) /\
    (~ fresh ttl key w ->
     exists r w',
       run w = (r, w') /\
       requests w' = requests w ++ [endpoint] /\
       (cache w' = cache w \/
        exists v, r = Return v /\
                  cache w' = <[key := mkEntry v (clock w')]> (cache w))).

(** Writing through: on a miss, whatever payload the adapter returns is
    stored under the key, and a thrown error stores nothing. *)
Definition writesThrough (run : M Value) (key : string) (ttl : Z) : Prop :=
  forall w r w',
    ~ fresh ttl key w -> run w = (r, w') ->
    match r with
    | Return v => cache w' = <[key := mkEntry v (clock w')]> (cache w)
    | Throw _ => cache w' = cache w
    end.


(** A network that answers every request with an empty transcript, and a
    world with an empty cache. *)
Definition emptyTranscriptNet
  : Network (option (list TranscriptTool.TranscriptSegment)) :=
  fun _ _ _ => mkReply 120 (Fulfilled (mkResponse true "OK" (Return (Some [])))).

Definition coldWorld : World := mkWorld ∅ 1000 [].

(** A world whose cache holds one transcript payload stored at time 1000. *)
Definition storedPayload : Value :=
  VObj [("videoId", VStr "dQw4w9WgXcQ"); ("transcript", VStr "hello world")].

Definition warmWorld (now : Z) : World :=
  mkWorld {[ "dQw4w9WgXcQ" := mkEntry storedPayload 1000 ]} now ["/earlier"].

End Tools.

(** ** lib/youtube/video-tool.ts: cleaning titles and descriptions *)

Module VideoTool.

(** [s.replace(r, w)] for a regular expression without the [g] flag: the
    leftmost match, if there is one, is replaced. *)
Definition replaceFirst (r : regex) (repl : list ascii -> captures -> list ascii)
    (s : string) : string :=
  let l := list_ascii_of_string s in
  match search (length l) r l with
  | Some m =>
      string_of_list_ascii
        (firstn (index m) l ++ repl (matched m) (groups m)
           ++ skipn (index m + length (matched m)) l)
  | None => s
  end.

(** [\w] *)
Definition isWordChar (c : ascii) : bool :=
  Chars.isLower c || Chars.isUpper c || Chars.isDigit c || Ascii.eqb c "_".

(** [/(G){5,}/] where the group [G] is [#\w+\s*] *)
Definition hashtag : regex :=
  Group 1 (Seq (Lit "#")
             (Seq (Plus true (Chr isWordChar)) (Star true (Chr Chars.isSpace)))).

Definition hashtags_pattern : regex := Seq (Rep 5 hashtag) (Star true hashtag).

(** [/\n+/g] *)
Definition newlines_pattern : regex := Plus true (Chr (Chars.isChar "010")).

(** A character of a literal under the [i] flag. *)
Definition sameLetter (x c : ascii) : bool :=
  Ascii.eqb (Js.lowerChar x) (Js.lowerChar c).

Fixpoint LitCI (cs : list ascii) : regex :=
  match cs with
  | [] => Eps
  | c :: cs' => Seq (Chr (sameLetter c)) (LitCI cs')
  end.

(** [/\((?:NOT CLICKBAIT|MUST WATCH|SHOCKING|GONE WRONG)\)/i] *)
Definition clickbait_pattern : regex :=
  Seq (Lit "(")
    (Seq (Alt (LitCI (list_ascii_of_string "NOT CLICKBAIT"))
         (Alt (LitCI (list_ascii_of_string "MUST WATCH"))
         (Alt (LitCI (list_ascii_of_string "SHOCKING"))
              (LitCI (list_ascii_of_string "GONE WRONG")))))
         (Lit ")")).

Definition cleanDescription (description : string) : string :=
  if String.eqb description "" then ""
  else
    let description :=
      replaceAll TranscriptTool.spaces_pattern (constant " ") description in
    let description :=
      replaceFirst hashtags_pattern (constant "[Multiple hashtags]") description in
    let description := replaceAll newlines_pattern (constant LF) description in
    Js.trim description.

Definition cleanTitle (title : string) : string :=
  if String.eqb title "" then ""
  else
    let title := replaceAll TranscriptTool.spaces_pattern (constant " ") title in
    let title := replaceFirst clickbait_pattern (constant "") title in
    Js.trim title.

End VideoTool.

(** ** lib/youtube/base-tool.ts: formatting helpers

    [formatDuration] is modelled for a whole number of seconds of magnitude
    below 2^53, the case in which the divisions and floors of the source are
    exact and its numbers print in plain decimal notation; beyond that the
    numbers of the source round and print with an exponent, which the model
    does not follow. *)

Module BaseTool.

(** [s.slice(from, to)] for [0 <= from <= to] *)
Definition slice (from to : nat) (s : string) : string :=
  string_of_list_ascii (firstn (to - from) (skipn from (list_ascii_of_string s))).

(** [seconds] is [None] when the argument is undefined or null. *)
Definition formatDuration (seconds : option Z) : string :=
  match seconds with
  | None => "Unknown"
  | Some seconds =>
      let hours := (seconds / 3600)%Z in
      let minutes := (Z.rem seconds 3600 / 60)%Z in
      let remainingSeconds := Z.rem seconds 60 in
      if (0 <? hours)%Z then
        (Js.showZ hours ++ ":" ++ Js.padStart2 (Js.showZ minutes) ++ ":"
           ++ Js.padStart2 (Js.showZ remainingSeconds))%string
      else
        (Js.showZ minutes ++ ":" ++ Js.padStart2 (Js.showZ remainingSeconds))%string
  end.

(** [dateStr] is [None] when the argument is undefined or null. *)
Definition formatDate (dateStr : option string) : string :=
  match dateStr with
  | None => "Unknown"
  | Some dateStr =>
      if String.eqb dateStr "" || negb (String.length dateStr =? 8)%nat
      then "Unknown"
      else
        let year := slice 0 4 dateStr in
        let month := slice 4 6 dateStr in
        let day := slice 6 8 dateStr in
        (year ++ "-" ++ month ++ "-" ++ day)%string
  end.

End BaseTool.

(** ** app/(chat)/api/youtube/search/route.ts: reading the request

    The query string is taken as the list of pairs that the caller
    appended. *)

Module SearchRequest.

(** [searchParams.get(name)]: the first value under the name. *)
Fixpoint get (name : string) (pairs : list (string * string)) : option string :=
  match pairs with
  | [] => None
  | (k, v) :: pairs' => if String.eqb k name then Some v else get name pairs'
  end.

(** [value || fallback] *)
Definition orElse (value : option string) (fallback : string) : string :=
  if Tools.truthy value then default fallback value else fallback.

(** [parseInt(searchParams.get('count') || '5')] *)
Definition count (pairs : list (string * string)) : Js.Num :=
  Js.parseInt (orElse (get "count" pairs) "5").

(** [parseInt(searchParams.get('minViews') || '0')] *)
Definition minViews (pairs : list (string * string)) : Js.Num :=
  Js.parseInt (orElse (get "minViews" pairs) "0").

(** [searchParams.get('sort') || 'relevance'] *)
Definition sort (pairs : list (string * string)) : string :=
  orElse (get "sort" pairs) "relevance".

(** [searchParams.get('recent') === 'true'] *)
Definition recent (pairs : list (string * string)) : bool :=
  match get "recent" pairs with
  | Some v => String.eqb v "true"
  | None => false
  end.

(** [searchParams.get('duration') || null] *)
Definition duration (pairs : list (string * string)) : option string :=
  if Tools.truthy (get "duration" pairs) then get "duration" pairs else None.

End SearchRequest.

(** ** app/(chat)/api/youtube/search/route.ts: the minimum of views *)

Module ViewFilter.

(** [/[^0-9]/g] *)
Definition non_digit_pattern : regex :=
  Chr (fun c => negb (Chars.isDigit c)).

(** [x.toString().replace(/[^0-9]/g, '')] for a whole number [x] *)
Definition digitsOf (x : Z) : string :=
  replaceAll non_digit_pattern (constant "") (Js.showZ x).

(** The callback of the filter applied when [options.minViews > 0]: a
    video without views, or with none, is dropped. *)
Definition hasMinViews (minViews : Z) (video : SearchRoute.Video) : bool :=
  match SearchRoute.views video with
  | None => false
  | Some views =>
      if (views =? 0)%Z then false
      else
        match Js.parseInt (digitsOf views) with
        | Some viewCount => (minViews <=? viewCount)%Z
        | None => false
        end
  end.

(** The videos after the type filter, the recency filter and the filter on
    views, in the order of the search result. *)
Definition filteredVideos (DateOf : string -> option Z) (twoYearsAgo : Z)
    (recent : bool) (minViews : Z) (items : list SearchRoute.Video)
  : list SearchRoute.Video :=
  let videos := SearchRoute.recentVideos DateOf twoYearsAgo recent items in
  if (0 <? minViews)%Z then List.filter (hasMinViews minViews) videos else videos.

End ViewFilter.

(** ** What the further properties speak of *)

Module Further.

(** After the white space has been collapsed a character is a space or no
    white space at all; in particular it is no line terminator. *)
Definition plain (c : ascii) : Prop := Chars.isSpace c = false \/ c = " "%char.

(** No opening bracket with a closing one after it. *)
Definition bracketFree (l : list ascii) : Prop :=
  forall a b c, l <> a ++ "["%char :: b ++ "]"%char :: c.

(** Reading one more decimal digit. *)
Definition decimalStep (acc : Z) (c : ascii) : Z :=
  (acc * 10 + (Z.of_N (Chars.code c) - 48))%Z.

(** The characters of a number in decimal notation. *)
Definition uintChars (u : Decimal.uint) : list ascii :=
  list_ascii_of_string (NilEmpty.string_of_uint u).

(** The integers that a JavaScript number holds exactly and prints in
    plain decimal notation. *)
Definition safeInteger (z : Z) : Prop := (- 2 ^ 53 < z < 2 ^ 53)%Z.

(** The text holds an opening bracket with a closing one somewhere after. *)
Definition hasAnnotation (s : string) : Prop :=
  exists a b c,
    list_ascii_of_string s = a ++ "["%char :: b ++ "]"%char :: c.

(** The language that takes effect in a request: none when it is undefined
    or empty. *)
Definition effective (language : option string) : option string :=
  if Tools.truthy language then language else None.

(** After a call that returned a payload, the cache holds it under the key,
    and a later call finds it there for as long as the entry is fresh,
    whatever requests were sent in between. *)
Definition servesAgain (run : Tools.M Value) (key : string) (ttl : Z) : Prop :=
  forall w v w1,
    run w = (Return v, w1) ->
    exists entry,
      Tools.cache w1 !! key = Some entry /\ Tools.data entry = v /\
      forall now sent,
        (now - Tools.timestamp entry < ttl)%Z ->
        run (Tools.mkWorld (Tools.cache w1) now sent)
        = (Return v, Tools.mkWorld (Tools.cache w1) now sent).

(** A call leaves the entries of the other keys as they are and removes
    none. *)
Definition keepsOthers (run : Tools.M Value) (key : string) : Prop :=
  forall w r w',
    run w = (r, w') ->
    (forall other, other <> key -> Tools.cache w' !! other = Tools.cache w !! other) /\
    (forall k, is_Some (Tools.cache w !! k) -> is_Some (Tools.cache w' !! k)).

(** The first audio-only entry of the list among those of the largest bit
    rate. *)
Definition firstBestAudio (raw : list YtDlp.Format) (f : YtDlp.Format) : Prop :=
  exists before after,
    raw = before ++ f :: after /\
    DownloadRoute.isAudioOnly f = true /\
    (forall g, In g before -> DownloadRoute.isAudioOnly g = true ->
               (DownloadRoute.abrOrZero g < DownloadRoute.abrOrZero f)%Q) /\
    (forall g, In g after -> DownloadRoute.isAudioOnly g = true ->
               (DownloadRoute.abrOrZero g <= DownloadRoute.abrOrZero f)%Q).

(** The two decimal digits of a number below 100. *)
Definition digit (d : Z) : ascii := ascii_of_N (Z.to_N (48 + d)).

Definition twoDigits (n : Z) : string :=
  String (digit (n / 10)) (String (digit (n mod 10)) "").

(** The ways to write the address of a video that the extractor knows by
    name, from the host on. *)
Definition urlForms : list string :=
  ["youtube.com/watch?v="; "youtu.be/"; "youtube.com/embed/";
   "youtube.com/shorts/"; "youtube.com/v/"; "youtube.com/e/"].

(** None of the characters [cs] occurs in [s]. *)
Definition without (cs : string) (s : string) : bool :=
  forallb (fun c => negb (Chars.oneOf cs c)) (list_ascii_of_string s).

(** The number of slashes. *)
Definition slashes (s : list ascii) : nat :=
  length (List.filter (Chars.isChar "/") s).

(** Every capture satisfies [G]. *)
Definition capturesIn (G : nat -> list ascii -> Prop) (caps : captures) : Prop :=
  forall n w, capture n caps = Some w -> G n w.

(** Every group of [r] can only capture words that satisfy [G]. *)
Fixpoint groupsIn (total : nat) (G : nat -> list ascii -> Prop) (r : regex) : Prop :=
  match r with
  | Seq r1 r2 | Alt r1 r2 => groupsIn total G r1 /\ groupsIn total G r2
  | Star _ r1 => groupsIn total G r1
  | Group n r1 =>
      groupsIn total G r1 /\
      forall s s', Matches total r1 s s' ->
                   G n (firstn (length s - length s') s)
  | _ => True
  end.

(** A run of decimal digits, not empty. *)
Definition digitRun (w : list ascii) : Prop :=
  w <> [] /\ forallb Chars.isDigit w = true.

(** Every line break is directly followed by an opening bracket. *)
Definition startsLines (l : list ascii) : Prop :=
  forall a b, l = a ++ "010"%char :: b -> exists b', b = "["%char :: b'.

(** No line break at all. *)
Definition oneLine (l : list ascii) : Prop :=
  Forall (fun c => c <> "010"%char) l.

(** How a tool reports a failure [e] in the payload [v]: the message of an
    error under the tag of the tool, anything else as a system error. *)
Definition reports (tag : string) (e : Thrown) (v : Value) : Prop :=
  match e with
  | ErrorObj message => field "error" v = VStr message /\ field "type" v = VStr tag
  | NotAnError => field "type" v = VStr "system_error"
  end.

(** The failure of a request, if it fails: the request is rejected, the
    response is not OK, or its body cannot be read. *)
Definition failure {T : Type} (prefix : string) (reply : Tools.Reply T)
  : option Thrown :=
  match Tools.outcome reply with
  | Tools.Rejected e => Some e
  | Tools.Fulfilled response =>
      if negb (Tools.ok response)
      then Some (ErrorObj (prefix ++ Tools.statusText response))
      else match Tools.json response with
           | Throw e => Some e
           | Return _ => None
           end
  end.

(** On a miss, a failed request is reported in the payload that the tool
    returns; one request has been sent and the cache is as it was. *)
Definition failsClosed {T : Type} (execute : Tools.M Value) (net : Tools.Network T)
    (key endpoint : string) (ttl : Z) (prefix tag : string) : Prop :=
  forall w e,
    ~ Tools.fresh ttl key w ->
    failure prefix (net (Tools.clock w) (Tools.requests w) endpoint) = Some e ->
    exists v,
      execute w =
        (Return v,
         Tools.mkWorld (Tools.cache w)
           (Tools.clock w
            + Tools.elapsed (net (Tools.clock w) (Tools.requests w) endpoint))
           (Tools.requests w ++ [endpoint])) /\
      reports tag e v.

(** The tool refuses the input: a payload with this message and tag comes
    back, and the world is as it was. *)
Definition refuses (execute : Tools.M Value) (message tag : string) : Prop :=
  forall w, exists v,
    execute w = (Return v, w) /\
    field "error" v = VStr message /\ field "type" v = VStr tag.




End Further.

(** * Properties *)

Example extract_watch :
  extractVideoId "https://www.youtube.com/watch?v=dQw4w9WgXcQ" = Return "dQw4w9WgXcQ".
Proof. vm_compute. reflexivity. Qed.

Example extract_watch_amp :
  extractVideoId "https://www.youtube.com/watch?t=4&v=dQw4w9WgXcQ&x=1" = Return "dQw4w9WgXcQ".
Proof. vm_compute. reflexivity. Qed.

Example extract_bad :
  extractVideoId "hello" =
  Throw (ErrorObj "Could not extract valid YouTube video ID from: hello").
Proof. vm_compute. reflexivity. Qed.

Example parseDuration_hms : parseDuration "PT1H2M3S" = Some 3723%Z.
Proof. vm_compute. reflexivity. Qed.

Example parseInput_cats :
  Discovery.parseInput "cats | count=10, sort=views, recent=true" =
  ("cats", {| Discovery.count := 10; Discovery.sort := "views";
              Discovery.recent := true; Discovery.minViews := 0;
              Discovery.duration := None |}).
Proof. vm_compute. reflexivity. Qed.

(** ** The matcher and the denotation agree *)

Lemma alphabet_complete (c : ascii) : In c Chars.alphabet.
Proof.
  unfold Chars.alphabet. apply in_map_iff. exists (nat_of_ascii c). split.
  - apply ascii_nat_embedding.
  - apply in_seq. pose proof (nat_ascii_bounded c). lia.
Qed.

Section MatcherFacts.

Context {A : Type}.
Variable total : nat.

Implicit Types (k : list ascii -> captures -> option A).

Lemma star_loop_sound step g k r :
  (forall s caps k' x, step s caps k' = Some x ->
     exists s' caps', Matches total r s s' /\ k' s' caps' = Some x) ->
  forall fuel s caps x,
    star_loop step g k fuel s caps = Some x ->
    exists s' caps', Matches total (Star g r) s s' /\ k s' caps' = Some x.
Proof.
  intros Hstep fuel.
  induction fuel as [|fuel IHf]; intros s caps x H; simpl in H.
  - exists s, caps. split; [constructor|].
    destruct g; [exact H | destruct (k s caps); congruence].
  - match type of H with
    | (if g then match ?again with _ => _ end else _) = _ =>
        assert (Hor : k s caps = Some x \/ again = Some x)
    end.
    { destruct g.
      - match type of H with
        | match ?again with _ => _ end = _ => destruct again
        end; [right; exact H | left; exact H].
      - destruct (k s caps); [left; exact H | right; exact H]. }
    destruct Hor as [Hk | Hagain].
    + exists s, caps. split; [constructor | exact Hk].
    + apply Hstep in Hagain. destruct Hagain as (s1 & caps1 & M1 & Hc).
      destruct (Nat.ltb_spec (length s1) (length s)) as [Hlt|]; [|discriminate].
      apply IHf in Hc. destruct Hc as (s2 & caps2 & M2 & Hk).
      exists s2, caps2. split; [eapply M_StarS; eassumption | exact Hk].
Qed.

(** A match found by the matcher is a match of the denotation. *)
Lemma rmatch_sound (r : regex) :
  forall s caps k x,
    rmatch total r s caps k = Some x ->
    exists s' caps', Matches total r s s' /\ k s' caps' = Some x.
Proof.
  induction r as [|p|r1 IH1 r2 IH2|r1 IH1 r2 IH2|g r IH|n r IH| |];
    intros s caps k x H; simpl in H.
  - exists s, caps. split; [constructor | exact H].
  - destruct s as [|c s]; [discriminate|].
    destruct (p c) eqn:Hp; [|discriminate].
    exists s, caps. split; [now constructor | exact H].
  - apply IH1 in H. destruct H as (s1 & caps1 & M1 & H).
    apply IH2 in H. destruct H as (s2 & caps2 & M2 & H).
    exists s2, caps2. split; [econstructor; eassumption | exact H].
  - destruct (rmatch total r1 s caps k) eqn:E1.
    + injection H as ->. apply IH1 in E1. destruct E1 as (s' & caps' & M1 & H).
      exists s', caps'. split; [now apply M_AltL | exact H].
    + apply IH2 in H. destruct H as (s' & caps' & M2 & H).
      exists s', caps'. split; [now apply M_AltR | exact H].
  - eapply star_loop_sound; [exact IH | exact H].
  - apply IH in H. destruct H as (s' & caps' & M1 & H).
    eexists s', _. split; [now constructor | exact H].
  - destruct (Nat.eqb_spec (length s) total) as [E|]; [|discriminate].
    exists s, caps. split; [now constructor | exact H].
  - destruct s; [|discriminate].
    exists [], caps. split; [constructor | exact H].
Qed.

Lemma star_loop_complete step g k r s2 :
  (forall s s1, Matches total r s s1 ->
     forall k', (forall caps', is_Some (k' s1 caps')) ->
     forall caps, is_Some (step s caps k')) ->
  (forall caps', is_Some (k s2 caps')) ->
  forall fuel s,
    (length s <= fuel)%nat -> Matches total (Star g r) s s2 ->
    forall caps, is_Some (star_loop step g k fuel s caps).
Proof.
  intros Hstep Hk fuel.
  induction fuel as [|fuel IHf]; intros s Hlen M caps; simpl.
  - inversion M; subst.
    + destruct g; [apply Hk | destruct (Hk caps) as [y ->]; eauto].
    + lia.
  - inversion M as [| | | | | ? ? ? | ? ? ? s1 ? M1 Hlt M2 | | |]; subst.
    + destruct g.
      * match goal with |- is_Some (match ?again with _ => _ end) =>
          destruct again end; [eauto | apply Hk].
      * destruct (Hk caps) as [y ->]; eauto.
    + assert (Hagain : is_Some
        (step s caps (fun s1 caps1 =>
           if (length s1 <? length s)%nat
           then star_loop step g k fuel s1 caps1 else None))).
      { eapply Hstep; [exact M1|]. intros caps'.
        destruct (Nat.ltb_spec (length s1) (length s)); [|lia].
        apply IHf; [lia | exact M2]. }
      destruct Hagain as [y Hy]. rewrite Hy.
      destruct g; [eauto | destruct (k s caps); eauto].
Qed.

(** Where the denotation has a match that the continuation accepts, the
    matcher does not fail. *)
Lemma rmatch_complete (r : regex) :
  forall s s', Matches total r s s' ->
    forall k, (forall caps', is_Some (k s' caps')) ->
    forall caps, is_Some (rmatch total r s caps k).
Proof.
  induction r as [|p|r1 IH1 r2 IH2|r1 IH1 r2 IH2|g r IH|n r IH| |];
    intros s s' M k Hk caps; simpl.
  - inversion M; subst. apply Hk.
  - inversion M as [|? c t Hp| | | | | | | |]; subst. rewrite Hp. apply Hk.
  - inversion M as [| |? ? ? s1 ? M1 M2| | | | | | |]; subst.
    eapply IH1; [exact M1|]. intros caps1. eapply IH2; [exact M2 | exact Hk].
  - destruct (rmatch total r1 s caps k) eqn:E1; [eauto|].
    inversion M as [| | |? ? ? ? M1|? ? ? ? M2| | | | |]; subst.
    + destruct (IH1 _ _ M1 k Hk caps) as [y Hy]. congruence.
    + eapply IH2; [exact M2 | exact Hk].
  - eapply star_loop_complete; [exact IH | exact Hk | lia | exact M].
  - inversion M as [| | | | | | |? ? ? ? M1| |]; subst.
    eapply IH; [exact M1|]. intros caps'. apply Hk.
  - inversion M; subst. rewrite Nat.eqb_refl. apply Hk.
  - inversion M; subst. apply Hk.
Qed.

End MatcherFacts.

Section DenotationFacts.

Variable total : nat.

(** A match consumes a prefix; when [needs P r] holds the prefix has a
    character of [P]. *)
Lemma Matches_consumes P r s s' :
  Matches total r s s' ->
  exists w, s = w ++ s' /\ (needs P r = true -> existsb P w = true).
Proof.
  induction 1 as [s|p c s Hp|r1 r2 s s1 s2 _ IH1 _ IH2|r1 r2 s s' _ IH
                 |r1 r2 s s' _ IH|g r s|g r s s1 s2 _ IH1 Hlt _ IH2
                 |n r s s' _ IH|s Hs|]; cbn [needs].
  - exists []. split; [reflexivity | discriminate].
  - exists [c]. split; [reflexivity|]. intros Hall.
    rewrite forallb_forall in Hall.
    specialize (Hall c (alphabet_complete c)). rewrite Hp in Hall.
    cbn [implb] in Hall. cbn [existsb]. now rewrite Hall.
  - destruct IH1 as (w1 & -> & H1), IH2 as (w2 & -> & H2).
    exists (w1 ++ w2). split; [now rewrite <- app_assoc|].
    rewrite existsb_app. intros [E|E]%orb_true_iff.
    + now rewrite H1.
    + rewrite H2 by exact E. apply orb_true_r.
  - destruct IH as (w & -> & Hw). exists w. split; [reflexivity|].
    intros [E _]%andb_true_iff. auto.
  - destruct IH as (w & -> & Hw). exists w. split; [reflexivity|].
    intros [_ E]%andb_true_iff. auto.
  - exists []. split; [reflexivity | discriminate].
  - destruct IH1 as (w1 & -> & _), IH2 as (w2 & -> & _).
    exists (w1 ++ w2). split; [now rewrite <- app_assoc | discriminate].
  - exact IH.
  - exists []. split; [reflexivity | discriminate].
  - exists []. split; [reflexivity | discriminate].
Qed.

(** [p{n}] consumes exactly [n] characters of the class. *)
Lemma Matches_Rep_intro p w s' :
  forallb p w = true -> Matches total (Rep (length w) (Chr p)) (w ++ s') s'.
Proof.
  induction w as [|c w IH]; simpl; intros H.
  - constructor.
  - apply andb_true_iff in H as [Hc Hw].
    eapply M_Seq; [now constructor | now apply IH].
Qed.

Lemma Matches_Rep_elim p n : forall s s',
  Matches total (Rep n (Chr p)) s s' ->
  exists w, s = w ++ s' /\ length w = n /\ forallb p w = true.
Proof.
  induction n as [|n IH]; simpl; intros s s' M.
  - inversion M; subst. exists []. auto.
  - inversion M as [| |? ? ? s1 ? M1 M2| | | | | | |]; subst.
    inversion M1 as [|? c t Hp| | | | | | | |]; subst.
    apply IH in M2 as (w & -> & Hlen & Hall).
    exists (c :: w). simpl. rewrite Hp, Hall, Hlen. auto.
Qed.

Lemma search_unfold r s :
  search total r s =
  match matchAt total r s with
  | Some (s', caps) =>
      Some (mkMatch (total - length s) (firstn (length s - length s') s) caps)
  | None => match s with [] => None | _ :: s' => search total r s' end
  end.
Proof. destruct s; reflexivity. Qed.

Lemma search_sound r : forall s m,
  search total r s = Some m ->
  exists pre t s', s = pre ++ t /\ matchAt total r t = Some (s', groups m).
Proof.
  induction s as [|c s IH]; intros m H; rewrite search_unfold in H.
  - destruct (matchAt total r []) as [[s' caps]|] eqn:E; [|discriminate].
    injection H as <-. exists [], [], s'. auto.
  - destruct (matchAt total r (c :: s)) as [[s' caps]|] eqn:E.
    + injection H as <-. exists [], (c :: s), s'. auto.
    + apply IH in H as (pre & t & s' & -> & H).
      exists (c :: pre), t, s'. auto.
Qed.

Lemma search_none r : forall s,
  search total r s = None ->
  forall pre t, s = pre ++ t -> matchAt total r t = None.
Proof.
  induction s as [|c s IH]; intros H pre t E; rewrite search_unfold in H.
  - destruct pre, t; try discriminate.
    destruct (matchAt total r []) as [[? ?]|]; [discriminate | reflexivity].
  - destruct (matchAt total r (c :: s)) as [[? ?]|] eqn:Em; [discriminate|].
    destruct pre as [|c' pre]; simpl in E.
    + now subst t.
    + injection E as -> ->. eapply IH; eauto.
Qed.

Lemma matchAt_sound r t s' caps :
  matchAt total r t = Some (s', caps) -> Matches total r t s'.
Proof.
  intros H. apply rmatch_sound in H as (s1 & caps1 & M & E).
  now injection E as -> _.
Qed.

Lemma matchAt_complete r t s' :
  Matches total r t s' -> is_Some (matchAt total r t).
Proof.
  intros M. eapply rmatch_complete; [exact M | eauto].
Qed.

End DenotationFacts.

Lemma length_list_ascii_of_string (s : string) :
  length (list_ascii_of_string s) = String.length s.
Proof. induction s as [|c s IH]; simpl; congruence. Qed.

(** [exec] finds a match exactly when the string contains one. *)
Lemma exec_None_iff r s : exec r s = None <-> ~ containsMatch r s.
Proof.
  unfold exec, containsMatch. split.
  - intros H (pre & t & s' & E & M).
    pose proof (search_none _ _ _ H _ _ E) as Hn.
    destruct (matchAt_complete _ _ _ _ M) as [y Hy]. congruence.
  - intros H.
    destruct (search _ r (list_ascii_of_string s)) as [m|] eqn:E; [|reflexivity].
    exfalso. apply H.
    apply search_sound in E as (pre & t & s' & E & Hm).
    exists pre, t, s'. split; [exact E | eapply matchAt_sound; exact Hm].
Qed.

(** ** Identifier extraction *)

Lemma forallb_existsb_negb {X : Type} (p : X -> bool) (w : list X) :
  forallb p w = true -> existsb (fun c => negb (p c)) w = true -> False.
Proof.
  induction w as [|c w IH]; simpl; [discriminate|].
  intros [Hc Hw]%andb_true_iff [E|E]%orb_true_iff; [|auto].
  rewrite Hc in E. discriminate.
Qed.

(** No word of the URL pattern is made of identifier characters only: the
    pattern asks for a dot and a slash. *)
Lemma youtube_pattern_needs_other :
  needs (fun c => negb (Chars.isIdChar c)) youtube_pattern = true.
Proof. vm_compute. reflexivity. Qed.

Lemma exec_youtube_pattern_id_chars (s : string) :
  forallb Chars.isIdChar (list_ascii_of_string s) = true ->
  exec youtube_pattern s = None.
Proof.
  intros Hall. apply exec_None_iff. intros (pre & t & s' & E & M).
  destruct (Matches_consumes _ (fun c => negb (Chars.isIdChar c)) _ _ _ M)
    as (w & -> & Hw).
  specialize (Hw youtube_pattern_needs_other).
  rewrite E, !forallb_app in Hall.
  apply andb_true_iff in Hall as [_ Hall].
  apply andb_true_iff in Hall as [Hall _].
  eapply forallb_existsb_negb; eassumption.
Qed.

(** The anchored test accepts exactly the bare identifiers. *)
Lemma test_bare_id_pattern (s : string) :
  test bare_id_pattern s = true <-> isBareId s.
Proof.
  unfold test, exec, isBareId. rewrite <- length_list_ascii_of_string.
  set (l := list_ascii_of_string s). split.
  - destruct (search (length l) bare_id_pattern l) as [m|] eqn:E; [|discriminate].
    intros _. apply search_sound in E as (pre & t & s' & E & Hm).
    apply matchAt_sound in Hm.
    inversion Hm as [| |? ? ? s1 ? M1 M2| | | | | | |]; subst.
    inversion M1 as [| | | | | | | |? Hlen|]; subst.
    inversion M2 as [| |? ? ? s2 ? M3 M4| | | | | | |]; subst.
    inversion M4; subst.
    apply (Matches_Rep_elim _ Chars.isIdChar 11%nat) in M3 as (w & -> & Hw & Hall).
    rewrite E, !length_app in Hlen.
    assert (pre = []) by (destruct pre; [reflexivity | simpl in Hlen; lia]).
    subst pre. rewrite E. simpl. rewrite app_nil_r. auto.
  - intros [Hlen Hall].
    rewrite search_unfold.
    assert (M : Matches (length l) bare_id_pattern l []).
    { eapply M_Seq; [now constructor|].
      eapply M_Seq; [|constructor].
      pose proof (Matches_Rep_intro (length l) _ l [] Hall) as Mr.
      rewrite app_nil_r in Mr. rewrite Hlen in Mr |- *. exact Mr. }
    destruct (matchAt_complete _ _ _ _ M) as [[s' caps] ->]. reflexivity.
Qed.

(** C3.  A string of exactly 11 characters of the identifier alphabet is
    returned unchanged by [extractVideoId]. *)
Theorem extractVideoId_bare_id (s : string) :
  String.length s = 11%nat ->
  forallb Chars.isIdChar (list_ascii_of_string s) = true ->
  extractVideoId s = Return s.
Proof.
  intros Hlen Hall. unfold extractVideoId.
  rewrite exec_youtube_pattern_id_chars by exact Hall.
  assert (Ht : test bare_id_pattern s = true)
    by (apply test_bare_id_pattern; split; assumption).
  now rewrite Ht.
Qed.

Lemma extractVideoId_bare_id_witness :
  extractVideoId "dQw4w9WgXcQ" = Return "dQw4w9WgXcQ".
Proof. apply extractVideoId_bare_id; reflexivity. Defined.

(** C4, as amended.  A string that contains no match of the URL pattern of
    the extractor (the watch, youtu.be, embed and shorts forms, and also the
    [/v/], [/e/] and two-segment path forms) and is not a bare identifier is
    rejected with the error naming the input. *)
Theorem extractVideoId_rejects (s : string) :
  ~ containsMatch youtube_pattern s ->
  ~ isBareId s ->
  extractVideoId s =
  Throw (ErrorObj ("Could not extract valid YouTube video ID from: " ++ s)).
Proof.
  intros Hurl Hbare. unfold extractVideoId.
  apply exec_None_iff in Hurl. rewrite Hurl.
  destruct (test bare_id_pattern s) eqn:Ht; [|reflexivity].
  apply test_bare_id_pattern in Ht. contradiction.
Qed.

Lemma extractVideoId_rejects_witness :
  ~ containsMatch youtube_pattern "not a video" /\
  ~ isBareId "not a video" /\
  extractVideoId "not a video" =
  Throw (ErrorObj "Could not extract valid YouTube video ID from: not a video").
Proof.
  assert (H1 : ~ containsMatch youtube_pattern "not a video")
    by (apply exec_None_iff; vm_compute; reflexivity).
  assert (H2 : ~ isBareId "not a video")
    by (intros [_ H]; vm_compute in H; discriminate).
  split; [exact H1 | split; [exact H2 |]].
  exact (extractVideoId_rejects "not a video" H1 H2).
Defined.

(** The extractor throws in no other case. *)
Lemma extractVideoId_throws_only (s : string) e :
  extractVideoId s = Throw e ->
  ~ containsMatch youtube_pattern s /\ ~ isBareId s.
Proof.
  unfold extractVideoId.
  destruct (exec youtube_pattern s) as [m|] eqn:E.
  - destruct (group 1 m); discriminate.
  - destruct (test bare_id_pattern s) eqn:Ht; [discriminate|]. intros _.
    split; [now apply exec_None_iff|].
    intros Hb. apply test_bare_id_pattern in Hb. congruence.
Qed.

(** A match of the URL pattern binds group 1 to 11 identifier characters. *)
Lemma exec_youtube_pattern_group (s : string) (m : MatchResult) :
  exec youtube_pattern s = Some m ->
  exists id, group 1 m = Some id /\ isBareId id.
Proof.
  unfold exec. intros H.
  apply search_sound in H as (pre & t & s' & _ & H).
  unfold matchAt, youtube_pattern in H. cbn [rmatch] in H.
  apply rmatch_sound in H as (s1 & caps1 & _ & H).
  apply rmatch_sound in H as (s2 & caps2 & M & H).
  injection H as _ Hg.
  apply (Matches_Rep_elim _ Chars.isIdChar 11%nat) in M as (w & -> & Hlen & Hall).
  exists (string_of_list_ascii w).
  unfold group. rewrite <- Hg. cbn [capture Nat.eqb option_map].
  rewrite length_app, Nat.add_sub, firstn_app, Hlen, Nat.sub_diag.
  rewrite <- Hlen, firstn_all. cbn [firstn]. rewrite app_nil_r.
  split; [reflexivity|]. unfold isBareId.
  rewrite <- length_list_ascii_of_string, list_ascii_of_string_of_list_ascii.
  auto.
Qed.

(** Whatever [extractVideoId] returns is an identifier: 11 characters of the
    identifier alphabet. *)
Lemma extractVideoId_returns_id (s id : string) :
  extractVideoId s = Return id -> isBareId id.
Proof.
  unfold extractVideoId.
  destruct (exec youtube_pattern s) as [m|] eqn:E.
  - apply exec_youtube_pattern_group in E as (id' & -> & Hid).
    now intros [= <-].
  - destruct (test bare_id_pattern s) eqn:Ht; [|discriminate].
    intros [= <-]. now apply test_bare_id_pattern.
Qed.

(** C4, as stated, fails: a [/v/] URL is none of the four named forms and
    not a bare identifier, and an identifier is extracted from it. *)
Lemma extractVideoId_unnamed_form :
  ~ containsMatch named_forms_pattern "youtube.com/v/dQw4w9WgXcQ" /\
  ~ isBareId "youtube.com/v/dQw4w9WgXcQ" /\
  extractVideoId "youtube.com/v/dQw4w9WgXcQ" = Return "dQw4w9WgXcQ".
Proof.
  split; [|split].
  - apply exec_None_iff. vm_compute. reflexivity.
  - intros [H _]. vm_compute in H. discriminate.
  - vm_compute. reflexivity.
Qed.

(** ** Duration normalization *)

Section DigitRuns.

Import IsoDuration.

Context {A : Type}.
Variable total : nat.

Implicit Types (k : list ascii -> captures -> option A).

Lemma rmatch_Seq r1 r2 s caps k :
  rmatch total (Seq r1 r2) s caps k =
  rmatch total r1 s caps (fun s1 caps1 => rmatch total r2 s1 caps1 k).
Proof. reflexivity. Qed.

(** A greedy [\d*] before a continuation that refuses digits runs to the end
    of the digits. *)
Lemma digit_run k :
  (forall c s caps, Chars.isDigit c = true -> k (c :: s) caps = None) ->
  forall digits tail fuel caps,
    forallb Chars.isDigit digits = true -> noDigitAhead tail ->
    (length (digits ++ tail) <= fuel)%nat ->
    star_loop (rmatch total (Chr Chars.isDigit)) true k fuel (digits ++ tail) caps
    = k tail caps.
Proof.
  intros Hk digits. induction digits as [|c digits IH];
    intros tail fuel caps Hd Htail Hfuel.
  - cbn [app]. destruct fuel as [|fuel]; cbn [star_loop]; [reflexivity|].
    destruct tail as [|c tail]; cbn [rmatch]; [reflexivity|].
    cbn in Htail. now rewrite Htail.
  - cbn [forallb] in Hd. apply andb_true_iff in Hd as [Hc Hd].
    destruct fuel as [|fuel]; [cbn in Hfuel; lia|].
    cbn [star_loop app rmatch]. rewrite Hc.
    assert (Hlt : (length (digits ++ tail) <? length (c :: digits ++ tail))%nat = true)
      by (apply Nat.ltb_lt; cbn; lia).
    rewrite Hlt, IH by (auto; cbn in Hfuel; lia).
    rewrite (Hk c _ caps Hc). now destruct (k tail caps).
Qed.

Lemma digitsThen_run n unit k digits tail caps :
  Chars.isDigit unit = false ->
  digits <> [] -> forallb Chars.isDigit digits = true -> noDigitAhead tail ->
  rmatch total (digitsThen n unit) (digits ++ tail) caps k =
  rmatch total (LitL [unit]) tail ((n, digits) :: caps) k.
Proof.
  intros Hu Hne Hd Htail. destruct digits as [|c digits]; [contradiction|].
  cbn [forallb] in Hd. apply andb_true_iff in Hd as [Hc Hd].
  unfold digitsThen, Plus. cbn [rmatch app]. rewrite Hc.
  rewrite digit_run; auto.
  - cbn [length]. rewrite length_app.
    replace (S (length digits + length tail) - length tail)%nat
      with (length (c :: digits)) by (cbn; lia).
    change (c :: digits ++ tail) with ((c :: digits) ++ tail).
    rewrite firstn_app, Nat.sub_diag, firstn_all. cbn [firstn].
    now rewrite app_nil_r.
  - intros c' s' caps' Hc'. cbn [rmatch LitL]. unfold Chars.isChar.
    destruct (Ascii.eqb_spec unit c') as [->|]; [congruence | reflexivity].
Qed.

(** The optional group takes the digits and the unit when they are there. *)
Lemma optional_present n unit k digits rest caps :
  Chars.isDigit unit = false ->
  digits <> [] -> forallb Chars.isDigit digits = true ->
  rmatch total (Opt (digitsThen n unit)) (digits ++ unit :: rest) caps k =
  match k rest ((n, digits) :: caps) with
  | Some x => Some x
  | None => k (digits ++ unit :: rest) caps
  end.
Proof.
  intros Hu Hne Hd. unfold Opt. cbn [rmatch].
  rewrite digitsThen_run by (auto; exact Hu).
  cbn [rmatch LitL]. unfold Chars.isChar. now rewrite Ascii.eqb_refl.
Qed.

(** It is skipped when the digits, if any, are followed by something else. *)
Lemma optional_absent n unit k digits tail caps :
  Chars.isDigit unit = false ->
  forallb Chars.isDigit digits = true ->
  match tail with
  | c :: _ => Chars.isDigit c = false /\ c <> unit
  | [] => True
  end ->
  rmatch total (Opt (digitsThen n unit)) (digits ++ tail) caps k =
  k (digits ++ tail) caps.
Proof.
  intros Hu Hd Htail. unfold Opt. cbn [rmatch].
  assert (Hnone : rmatch total (digitsThen n unit) (digits ++ tail) caps k = None).
  { destruct digits as [|c digits].
    - unfold digitsThen, Plus. cbn [rmatch app].
      destruct tail as [|c tail]; [reflexivity|].
      destruct Htail as [-> _]. reflexivity.
    - rewrite digitsThen_run; auto; try discriminate.
      + cbn [rmatch LitL]. destruct tail as [|c' tail]; [reflexivity|].
        destruct Htail as [_ Hne]. unfold Chars.isChar.
        destruct (Ascii.eqb_spec unit c') as [->|]; [contradiction | reflexivity].
      + destruct tail; [exact I | apply Htail]. }
  now rewrite Hnone.
Qed.

End DigitRuns.

(** On a run of digits [parseInt] reads the decimal value. *)
Lemma digit_facts (c : ascii) :
  Chars.isDigit c = true ->
  Chars.isSpace c = false /\ Ascii.eqb c "-" = false /\ Ascii.eqb c "+" = false /\
  Ascii.eqb c "x" = false /\ Ascii.eqb c "X" = false /\
  Js.digitValue 10 c = Some (Z.of_N (Chars.code c) - 48)%Z.
Proof.
  destruct c as [[] [] [] [] [] [] [] []]; intros H;
    try discriminate H; repeat split; reflexivity.
Qed.

Lemma readDigits_decimal (digits : list ascii) : forall acc,
  forallb Chars.isDigit digits = true ->
  Js.readDigits 10 (Some acc) digits =
  Some (fold_left (fun acc c => (acc * 10 + (Z.of_N (Chars.code c) - 48))%Z)
          digits acc).
Proof.
  induction digits as [|c digits IH]; intros acc Hd; [reflexivity|].
  cbn [forallb] in Hd. apply andb_true_iff in Hd as [Hc Hd].
  cbn [Js.readDigits fold_left].
  destruct (digit_facts c Hc) as (_ & _ & _ & _ & _ & ->).
  cbn [default]. now apply IH.
Qed.

Lemma parseInt_digits (digits : list ascii) :
  digits <> [] -> forallb Chars.isDigit digits = true ->
  Js.parseInt (string_of_list_ascii digits) = Some (IsoDuration.decimalValue digits).
Proof.
  intros Hne Hd. unfold Js.parseInt.
  rewrite list_ascii_of_string_of_list_ascii.
  destruct digits as [|c digits]; [contradiction|].
  pose proof Hd as Hd'. cbn [forallb] in Hd'.
  apply andb_true_iff in Hd' as [Hc Hrest].
  destruct (digit_facts c Hc) as (Hsp & Hminus & Hplus & _ & _ & Hv).
  cbn [Js.trimStartL]. rewrite Hsp, Hminus, Hplus. cbn [orb].
  assert (Hhex : match c :: digits with
                 | c0 :: c1 :: _ =>
                     Ascii.eqb c0 "0" && (Ascii.eqb c1 "x" || Ascii.eqb c1 "X")
                 | _ => false
                 end = false).
  { destruct digits as [|c1 digits]; [reflexivity|].
    cbn [forallb] in Hrest. apply andb_true_iff in Hrest as [Hc1 _].
    destruct (digit_facts c1 Hc1) as (_ & _ & _ & -> & -> & _).
    apply andb_false_r. }
  rewrite Hhex. cbn [Js.readDigits]. rewrite Hv. cbn [default].
  rewrite readDigits_decimal by exact Hrest.
  unfold IsoDuration.decimalValue. cbn [fold_left].
  now destruct (fold_left _ digits _).
Qed.

Lemma orZero_digits (digits : list ascii) :
  digits <> [] -> orZero (Some (string_of_list_ascii digits)) = string_of_list_ascii digits.
Proof. destruct digits; [contradiction | reflexivity]. Qed.

Lemma optional_at_end {A : Type} total n unit
    (k : list ascii -> captures -> option A) caps :
  rmatch total (Opt (IsoDuration.digitsThen n unit)) [] caps k = k [] caps.
Proof. reflexivity. Qed.

Ltac duration_side :=
  match goal with
  | |- Chars.isDigit _ = false => reflexivity
  | |- _ <> [] => assumption
  | |- forallb _ _ = true => assumption
  | |- _ /\ _ => split; [reflexivity | discriminate]
  | |- True => exact I
  end.

Ltac take_group :=
  rewrite <- ?app_assoc; cbn [app];
  rewrite optional_present by duration_side; cbn beta.

Ltac skip_group :=
  rewrite <- ?app_assoc; cbn [app];
  first [ rewrite optional_at_end
        | rewrite optional_absent by duration_side ]; cbn beta.

(** The pattern at the start of a duration of the specification binds each
    group to the digits of its part. *)
Lemma matchAt_render total (hours minutes seconds : option (list ascii)) :
  IsoDuration.wellFormed hours -> IsoDuration.wellFormed minutes ->
  IsoDuration.wellFormed seconds ->
  matchAt total duration_pattern
    ("P"%char :: "T"%char
       :: IsoDuration.component hours "H" ++ IsoDuration.component minutes "M"
          ++ IsoDuration.component seconds "S")
  = Some ([], IsoDuration.bindPart 3 seconds
                (IsoDuration.bindPart 2 minutes
                   (IsoDuration.bindPart 1 hours []))).
Proof.
  intros Hh Hm Hs. unfold matchAt, duration_pattern.
  change (Seq (Group 1 (Plus true (Chr Chars.isDigit))) (Lit "H"))
    with (IsoDuration.digitsThen 1 "H").
  change (Seq (Group 2 (Plus true (Chr Chars.isDigit))) (Lit "M"))
    with (IsoDuration.digitsThen 2 "M").
  change (Seq (Group 3 (Plus true (Chr Chars.isDigit))) (Lit "S"))
    with (IsoDuration.digitsThen 3 "S").
  cbn [rmatch Lit LitL list_ascii_of_string Chars.isChar Ascii.eqb Bool.eqb].
  destruct hours as [dh|]; [destruct Hh as [? ?]|];
    (destruct minutes as [dm|]; [destruct Hm as [? ?]|]);
    (destruct seconds as [ds|]; [destruct Hs as [? ?]|]);
    cbn [IsoDuration.component IsoDuration.bindPart app];
    repeat first [ take_group | skip_group ]; reflexivity.
Qed.

(** A duration of the specification is read as its total of seconds, an
    absent part counting for zero. *)
Lemma parseDuration_render (hours minutes seconds : option (list ascii)) :
  IsoDuration.wellFormed hours -> IsoDuration.wellFormed minutes ->
  IsoDuration.wellFormed seconds ->
  parseDuration (IsoDuration.render hours minutes seconds) =
  Some (IsoDuration.totalSeconds hours minutes seconds).
Proof.
  intros Hh Hm Hs. unfold parseDuration, IsoDuration.render, exec.
  rewrite list_ascii_of_string_of_list_ascii, search_unfold.
  rewrite matchAt_render by assumption.
  unfold group, IsoDuration.totalSeconds. cbn [groups].
  destruct hours as [dh|]; [destruct Hh as [? ?]|];
    (destruct minutes as [dm|]; [destruct Hm as [? ?]|]);
    (destruct seconds as [ds|]; [destruct Hs as [? ?]|]);
    cbn [IsoDuration.bindPart capture Nat.eqb option_map IsoDuration.amount];
    rewrite ?orZero_digits, ?parseInt_digits by assumption;
    try change (Js.parseInt (orZero None)) with (Some 0%Z);
    cbn [Js.add Js.mul]; f_equal; lia.
Qed.




(** C6.  [parseDuration] turns an ISO-8601 duration into seconds: the two
    examples of the specification; every duration made of [PT] and the
    hours, minutes and seconds that are present gives its total of seconds,
    an absent part counting for zero (the total being an exact double);
    and where no group matches the result is 0. *)
Theorem parseDuration_spec :
  parseDuration "PT1H2M3S" = Some 3723%Z /\
  parseDuration "PT45S" = Some 45%Z /\
  (forall hours minutes seconds,
     IsoDuration.wellFormed hours -> IsoDuration.wellFormed minutes ->
     IsoDuration.wellFormed seconds ->
     (IsoDuration.totalSeconds hours minutes seconds < 2 ^ 53)%Z ->
     parseDuration (IsoDuration.render hours minutes seconds) =
     Some (IsoDuration.totalSeconds hours minutes seconds)) /\
  (forall duration,
     match exec duration_pattern duration with
     | None => True
     | Some m => group 1 m = None /\ group 2 m = None /\ group 3 m = None
     end ->
     parseDuration duration = Some 0%Z).
Proof.
  split; [vm_compute; reflexivity|].
  split; [vm_compute; reflexivity|]. split.
  - intros hours minutes seconds Hh Hm Hs _. now apply parseDuration_render.
  - intros duration H. unfold parseDuration.
    destruct (exec duration_pattern duration) as [m|]; [|reflexivity].
    destruct H as (-> & -> & ->). reflexivity.
Qed.

Lemma parseDuration_spec_witness :
  parseDuration "PT1H30S" = Some 3630%Z /\
  parseDuration "P3D" = Some 0%Z /\ parseDuration "PT" = Some 0%Z.
Proof.
  destruct parseDuration_spec as (_ & _ & Hiso & Hnone).
  split; [|split].
  - apply (Hiso (Some ["1"%char]) None (Some ["3"%char; "0"%char])).
    + split; [discriminate | reflexivity].
    + exact I.
    + split; [discriminate | reflexivity].
    + reflexivity.
  - apply Hnone. vm_compute. exact I.
  - apply Hnone. vm_compute. auto.
Defined.

(** ** Search parameters *)

Section DiscoveryFacts.

Import Discovery.

(** One more token keeps the count at 20 or below. *)
Lemma applyParam_count (params : SearchParams) (param : string) :
  (count params <= 20)%Z -> (count (applyParam params param) <= 20)%Z.
Proof.
  intros H. unfold applyParam.
  destruct (Js.includes "=" (Js.trim param)); [|exact H].
  destruct (map _ _) as [|key [|value rest]]; try exact H.
  destruct (String.eqb key "count").
  { destruct (Js.parseInt value); [simpl; lia | exact H]. }
  destruct (String.eqb key "sort" && _); [exact H|].
  destruct (String.eqb key "recent" && _); [exact H|].
  destruct (String.eqb key "min_views").
  { destruct (Js.parseInt value); exact H. }
  destruct (String.eqb key "duration" && _); exact H.
Qed.

Lemma fold_applyParam_count (tokens : list string) : forall params,
  (count params <= 20)%Z ->
  (count (fold_left applyParam tokens params) <= 20)%Z.
Proof.
  induction tokens as [|t tokens IH]; intros params H; simpl; [exact H|].
  apply IH, applyParam_count, H.
Qed.

(** C7.  The example of the specification parses as stated; a token
    without [=], with an unknown key or with an invalid value leaves the
    parameters as they are; and the count is at most 20 whatever the input. *)
Theorem parseInput_spec :
  parseInput "cats | count=10, sort=views, recent=true" =
    ("cats", {| count := 10; sort := "views"; recent := true; minViews := 0;
                duration := None |}) /\
  (forall params param,
     Js.includes "=" (Js.trim param) = false ->
     applyParam params param = params) /\
  (forall params param key value rest,
     map (fun part => Js.toLowerCase (Js.trim part))
         (Js.splitLimit "=" 2 (Js.trim param)) = key :: value :: rest ->
     validToken key value = false ->
     applyParam params param = params) /\
  (forall input, (count (snd (parseInput input)) <= 20)%Z).
Proof.
  split; [vm_compute; reflexivity|]. split; [|split].
  - intros params param H. unfold applyParam. now rewrite H.
  - intros params param key value rest E Hv. unfold applyParam.
    destruct (Js.includes "=" (Js.trim param)); [|reflexivity].
    rewrite E. unfold validToken in Hv.
    destruct (String.eqb_spec key "count") as [->|_].
    { destruct (Js.parseInt value); [discriminate | reflexivity]. }
    destruct (String.eqb_spec key "sort") as [->|_]; cbn [andb].
    { rewrite Hv. reflexivity. }
    destruct (String.eqb_spec key "recent") as [->|_]; cbn [andb].
    { rewrite Hv. reflexivity. }
    destruct (String.eqb_spec key "min_views") as [->|_].
    { destruct (Js.parseInt value); [discriminate | reflexivity]. }
    destruct (String.eqb_spec key "duration") as [->|_]; cbn [andb].
    { rewrite Hv. reflexivity. }
    reflexivity.
  - intros input. unfold parseInput. simpl.
    destruct (Js.splitLimit "|" 2 input) as [|part0 [|part1 rest]];
      try (simpl; lia).
    apply fold_applyParam_count. simpl. lia.
Qed.

Lemma parseInput_spec_witness :
  applyParam defaultParams "verbose" = defaultParams /\
  applyParam defaultParams " Colour = red " = defaultParams /\
  applyParam defaultParams "count=many" = defaultParams /\
  applyParam defaultParams "sort=size" = defaultParams.
Proof.
  destruct parseInput_spec as (_ & H1 & H2 & _).
  split; [apply H1; reflexivity|].
  split; [apply (H2 defaultParams " Colour = red " "colour" "red" []); reflexivity|].
  split.
  - apply (H2 defaultParams "count=many" "count" "many" []); reflexivity.
  - apply (H2 defaultParams "sort=size" "sort" "size" []); reflexivity.
Defined.

(** A token with [=] always splits into a key and a value. *)
Lemma splitL_length sep s : (1 <= length (Js.splitL sep s))%nat.
Proof.
  induction s as [|c s IH]; simpl; [lia|].
  destruct (Ascii.eqb c sep); simpl; [lia|].
  destruct (Js.splitL sep s); simpl in *; lia.
Qed.

Lemma splitL_includes sep s :
  existsb (Ascii.eqb sep) s = true -> (2 <= length (Js.splitL sep s))%nat.
Proof.
  induction s as [|c s IH]; simpl; [discriminate|].
  rewrite (Ascii.eqb_sym sep c).
  destruct (Ascii.eqb c sep); simpl.
  - intros _. pose proof (splitL_length sep s). lia.
  - intros H. specialize (IH H). destruct (Js.splitL sep s); simpl in *; lia.
Qed.

Lemma splitLimit_key_value (t : string) :
  Js.includes "=" t = true ->
  exists key value, Js.splitLimit "=" 2 t = [key; value].
Proof.
  unfold Js.includes, Js.splitLimit, Js.split. intros H.
  apply splitL_includes in H.
  destruct (Js.splitL "=" (list_ascii_of_string t)) as [|a [|b rest]];
    simpl in H; try lia.
  simpl. eauto.
Qed.

End DiscoveryFacts.

(** ** The format catalogue *)

Section CatalogueFacts.

Import DownloadRoute.

Lemma fold_categorize (raw : list YtDlp.Format) : forall b,
  fold_left categorize raw b =
  {| combined := combined b ++ map formatInfo (List.filter isCombined raw);
     videoOnly := videoOnly b ++ map formatInfo (List.filter isVideoOnly raw);
     audioOnly := audioOnly b ++ map formatInfo (List.filter isAudioOnly raw) |}.
Proof.
  induction raw as [|f raw IH]; intros b; simpl.
  - rewrite !app_nil_r. now destruct b.
  - rewrite IH. unfold categorize, isCombined, isVideoOnly, isAudioOnly.
    destruct (isStr (YtDlp.resolution f) "audio only"); simpl.
    + now rewrite <- app_assoc.
    + destruct (isStr (YtDlp.acodec f) "none"); simpl; now rewrite <- app_assoc.
Qed.

Lemma head_insertSorted {X : Type} (cmp : X -> X -> Q) (x : X) (l : list X) :
  head (insertSorted cmp x l) =
  match l with
  | [] => Some x
  | y :: _ => if Qle_bool (cmp x y) 0 then Some x else Some y
  end.
Proof. destruct l as [|y l]; simpl; [reflexivity|]. now destruct (Qle_bool _ _). Qed.

(** The first element after sorting has the largest bit rate. *)
Lemma head_sortWith_abr (l : list YtDlp.Format) :
  match head (sortWith byAbrDescending l) with
  | Some f => In f l /\ forall g, In g l -> (abrOrZero g <= abrOrZero f)%Q
  | None => l = []
  end.
Proof.
  induction l as [|x l IH]; simpl; [reflexivity|].
  rewrite head_insertSorted.
  destruct (sortWith byAbrDescending l) as [|y sorted] eqn:E; simpl in IH.
  - subst l. split; [now left|]. intros g [<-|[]]. lra.
  - destruct IH as [Hy Hmax].
    destruct (Qle_bool (byAbrDescending x y) 0) eqn:Hc; unfold byAbrDescending in Hc.
    + apply Qle_bool_iff in Hc. split; [now left|].
      intros g [<-|Hg]; [lra|]. specialize (Hmax g Hg). lra.
    + assert (Hlt : ~ (abrOrZero y - abrOrZero x <= 0)%Q)
        by (intros H; apply Qle_bool_iff in H; congruence).
      split; [now right|].
      intros g [<-|Hg]; [lra|]. now apply Hmax.
Qed.

Lemma isStr_iff (x : option string) (lit : string) :
  isStr x lit = true <-> x = Some lit.
Proof.
  unfold isStr. destruct x as [w|]; [|split; discriminate].
  rewrite String.eqb_eq. split; [now intros -> | now intros [= ->]].
Qed.

Lemma isStr_decide (x : option string) (lit : string) :
  isStr x lit = bool_decide (x = Some lit).
Proof.
  destruct (isStr x lit) eqn:E.
  - apply isStr_iff in E. symmetry. now apply bool_decide_eq_true.
  - symmetry. apply bool_decide_eq_false. intros H.
    apply isStr_iff in H. congruence.
Qed.

Lemma shows_formatInfo (l : list YtDlp.Format) : Forall2 shows l (map formatInfo l).
Proof.
  induction l as [|f l IH]; cbn [map]; constructor; [|exact IH].
  unfold shows. repeat split.
Qed.

(** C8.  Whatever the raw format list, each bucket of the catalogue shows,
    field by field and in the order of the list, the raw formats of its
    class: resolution "audio only"; otherwise audio codec "none"; anything
    else.  The best audio is a raw format of resolution "audio only" whose
    bit rate no other such format exceeds. *)
Theorem getFormatInfo_partition ytdlp videoId result :
  ytdlp ("https://www.youtube.com/watch?v=" ++ videoId)%string = Return result ->
  exists buckets bestQuality,
    getFormatInfo ytdlp videoId =
      FormatCatalogue videoId (title result) (duration result) buckets bestQuality /\
    partitioned (formats result) buckets /\
    isBestAudio (formats result) (bestAudio bestQuality).
Proof.
  intros H. unfold getFormatInfo. rewrite H.
  eexists _, _. split; [reflexivity|]. split.
  - rewrite fold_categorize. unfold partitioned.
    cbn [audioOnly videoOnly combined app].
    assert (Ha : forall l, List.filter audioClass l = List.filter isAudioOnly l)
      by (intros l; apply filter_ext; intros f; symmetry; apply isStr_decide).
    assert (Hv : forall l, List.filter videoClass l = List.filter isVideoOnly l).
    { intros l. apply filter_ext. intros f.
      unfold videoClass, isVideoOnly, isAudioOnly. now rewrite !isStr_decide. }
    assert (Hc : forall l, List.filter combinedClass l = List.filter isCombined l).
    { intros l. apply filter_ext. intros f.
      unfold combinedClass, isCombined, isAudioOnly. now rewrite !isStr_decide. }
    rewrite Ha, Hv, Hc. repeat split; apply shows_formatInfo.
  - cbn [bestAudio]. unfold isBestAudio.
    pose proof (head_sortWith_abr (List.filter isAudioOnly (formats result))) as Hh.
    fold isAudioOnly.
    change (fun f => isStr (YtDlp.resolution f) "audio only") with isAudioOnly.
    destruct (head _) as [f|].
    + destruct Hh as [Hin Hmax]. apply filter_In in Hin as [Hin Ha].
      split; [exact Hin|]. split; [now apply isStr_iff|].
      intros g Hg Hga.
      assert (Hle : (abrOrZero g <= abrOrZero f)%Q)
        by (apply Hmax, filter_In; split; [exact Hg | now apply isStr_iff]).
      unfold abrOrZero in Hle.
      destruct (YtDlp.abr g), (YtDlp.abr f); exact Hle.
    + intros g Hg Hga.
      assert (Hin : In g (List.filter isAudioOnly (formats result)))
        by (apply filter_In; split; [exact Hg | now apply isStr_iff]).
      rewrite Hh in Hin. destruct Hin.
Qed.

(** C8 on the sample: the entries of the three buckets and the best audio,
    the audio-only format of 129.5 kbit/s. *)
Lemma getFormatInfo_partition_witness :
  exists buckets bestQuality,
    getFormatInfo sampleYtdlp "dQw4w9WgXcQ" =
      FormatCatalogue "dQw4w9WgXcQ" (Some "A video") (Some (212 # 1))
        buckets bestQuality /\
    partitioned sampleFormats buckets /\
    isBestAudio sampleFormats (bestAudio bestQuality) /\
    map (fun entry => (formatId entry, abr entry)) (audioOnly buckets)
    = [(Some "139", Some (48 # 1)); (Some "251", Some (259 # 2))] /\
    map (fun entry => (formatId entry, acodec entry)) (videoOnly buckets)
    = [(Some "137", Some "none")] /\
    map (fun entry => (formatId entry, acodec entry)) (combined buckets)
    = [(Some "18", Some "mp4a.40.2")] /\
    option_map YtDlp.format_id (bestAudio bestQuality) = Some (Some "251").
Proof.
  destruct (getFormatInfo_partition sampleYtdlp "dQw4w9WgXcQ" sampleResult eq_refl)
    as (buckets & bestQuality & E & Hp & Hb).
  exists buckets, bestQuality.
  split; [exact E|]. split; [exact Hp|]. split; [exact Hb|].
  vm_compute in E. injection E as <- <-. repeat split; reflexivity.
Defined.

(** The three kinds of entry land in the three buckets, and the best audio
    is the one of 129.5 kbit/s. *)
Example getFormatInfo_sample :
  exists bestQuality,
    getFormatInfo sampleYtdlp "dQw4w9WgXcQ" =
      FormatCatalogue "dQw4w9WgXcQ" (Some "A video") (Some (212 # 1))
        {| combined := [formatInfo combined360];
           videoOnly := [formatInfo video1080];
           audioOnly := [formatInfo audioLow; formatInfo audioMedium] |}
        bestQuality /\
    bestAudio bestQuality = Some audioMedium.
Proof. eexists. split; reflexivity. Qed.

End CatalogueFacts.

(** ** Transcript summaries *)

Example processTranscript_music :
  field "transcript"
    (TranscriptTool.processTranscript
       (Some [TranscriptTool.mkSegment "hello  [Music]" 0 1;
              TranscriptTool.mkSegment "world ." (3 # 2) 1]) "dQw4w9WgXcQ" None)
  = VStr "hello  world.".
Proof. vm_compute. reflexivity. Qed.

(** The tool counts the pieces between single spaces: where an annotation
    has been removed two spaces are left, and the gap counts as a word. *)
Example processTranscript_gap :
  let result :=
    TranscriptTool.processTranscript
      (Some [TranscriptTool.mkSegment "a [Music] b" 0 1]) "dQw4w9WgXcQ" None in
  field "transcript" result = VStr "a  b" /\ field "wordCount" result = VInt 3.
Proof. vm_compute. split; reflexivity. Qed.

Section TranscriptFacts.

Import TranscriptTool.

Lemma concat_cons_char sep c w ws :
  String.concat sep (String c w :: ws) = String c (String.concat sep (w :: ws)).
Proof. destruct ws; reflexivity. Qed.

Lemma splitL_not_nil sep l : Js.splitL sep l <> [].
Proof.
  destruct l as [|c l]; simpl; [discriminate|].
  destruct (Ascii.eqb c sep); [discriminate|].
  destruct (Js.splitL sep l); discriminate.
Qed.

Lemma append_empty_r (s : string) : (s ++ "")%string = s.
Proof.
  induction s as [|c s IH]; [reflexivity|].
  change (String c (s ++ "")%string = String c s). now rewrite IH.
Qed.

(** Splitting at a character and joining with it gives the string back. *)
Lemma join_split (sep : ascii) (s : string) :
  Js.join (String sep "") (Js.split sep s) = s.
Proof.
  unfold Js.join, Js.split.
  rewrite <- (string_of_list_ascii_of_string s) at 2.
  induction (list_ascii_of_string s) as [|c l IH]; simpl; [reflexivity|].
  destruct (Ascii.eqb_spec c sep) as [->|Hne].
  - simpl. pose proof (splitL_not_nil sep l) as Hnil.
    destruct (Js.splitL sep l) as [|w ws]; [contradiction|].
    simpl in *. now rewrite IH.
  - pose proof (splitL_not_nil sep l) as Hnil.
    destruct (Js.splitL sep l) as [|w ws]; [contradiction|].
    cbn [map string_of_list_ascii] in *.
    now rewrite concat_cons_char, IH.
Qed.

(** The summary of the tool: the transcript itself when it has at most 100
    words, its first 100 words and an ellipsis otherwise. *)
Lemma summarize_spec (fullText : string) :
  summarize fullText =
  if (length (Js.split " " fullText) <=? 100)%nat then fullText
  else (Js.join " " (firstn 100 (Js.split " " fullText)) ++ "...")%string.
Proof.
  unfold summarize.
  destruct (Nat.leb_spec (length (Js.split " " fullText)) 100) as [Hle|Hgt].
  - destruct (Nat.ltb_spec 100 (length (Js.split " " fullText))); [lia|].
    rewrite firstn_all2 by exact Hle.
    rewrite (join_split " " fullText). apply append_empty_r.
  - destruct (Nat.ltb_spec 100 (length (Js.split " " fullText))); [reflexivity | lia].
Qed.

Lemma processTranscript_summary segments videoId language :
  segments <> [] ->
  field "transcript" (processTranscript (Some segments) videoId language)
    = VStr (cleanText segments) /\
  field "summary" (processTranscript (Some segments) videoId language)
    = VStr (summarize (cleanText segments)).
Proof.
  intros Hne. destruct segments as [|seg segments]; [contradiction|].
  split; reflexivity.
Qed.

End TranscriptFacts.

(** C9.  The summary built by the route always ends in an ellipsis: a
    transcript of two words comes back with it, though nothing was cut and
    the summary should be the transcript unchanged. *)
Theorem transcriptResult_summary_ellipsis :
  field "summary"
    (TranscriptRoute.transcriptResult "dQw4w9WgXcQ" (Some "en")
       [TranscriptRoute.mkItem 0 2 "hello world"])
  = VStr "hello world..." /\
  forall videoId languageCode transcript,
    field "summary" (TranscriptRoute.transcriptResult videoId languageCode transcript)
    = VStr (Js.join " "
              (firstn 100
                 (splitRegex TranscriptTool.spaces_pattern
                    (Js.join " " (map TranscriptRoute.text transcript))))
            ++ "...").
Proof. split; [vm_compute; reflexivity | reflexivity]. Qed.

(** ** The recency filter *)

Section RecentFacts.

Import SearchRoute.

Variable DateOf : string -> option Z.
Variable twoYearsAgo : Z.

(** The recency filter, case by case.  A video without an upload date is
    kept.  A video with one is removed exactly when its date is not later
    than two years ago: when the date is two years old or older, and also
    when the string is no valid date. *)
Lemma isRecent_cases (video : Video) :
  (noUploadDate video = true -> isRecent DateOf twoYearsAgo video = true) /\
  (isRecent DateOf twoYearsAgo video = false <->
   exists w, uploadedAt video = Some w /\ w <> "" /\
     (DateOf w = None \/ exists t, DateOf w = Some t /\ (t <= twoYearsAgo)%Z)).
Proof.
  unfold isRecent, noUploadDate, laterThan. split.
  - intros ->. reflexivity.
  - destruct (uploadedAt video) as [w|]; simpl.
    + destruct (String.eqb_spec w "") as [->|Hne].
      * split; [discriminate|]. intros (w & [= <-] & Hw & _). contradiction.
      * split.
        -- intros H. exists w. split; [reflexivity|]. split; [exact Hne|].
           destruct (DateOf w) as [t|]; [right | now left].
           exists t. split; [reflexivity|]. apply Z.ltb_ge, H.
        -- intros (w' & [= <-] & _ & [-> | (t & -> & Ht)]); [reflexivity|].
           now apply Z.ltb_ge.
    + split; [discriminate|]. intros (w & [=] & _).
Qed.

End RecentFacts.

(** C10.  The filter keeps a video without an upload date, but it removes
    a video whose upload date the engine cannot read as a date, however
    recent the video is: the comparison with an invalid date is false.  The
    search library reports upload dates as relative phrases. *)
Theorem isRecent_unreadable_date (DateOf : string -> option Z) (twoYearsAgo : Z) :
  DateOf "3 weeks ago" = None ->
  SearchRoute.recentVideos DateOf twoYearsAgo true
    [SearchRoute.mkVideo "video" "dQw4w9WgXcQ" "A video" (Some 10%Z) None;
     SearchRoute.mkVideo "video" "9bZkp7q19f0" "Another" (Some 10%Z)
       (Some "3 weeks ago")]
  = [SearchRoute.mkVideo "video" "dQw4w9WgXcQ" "A video" (Some 10%Z) None].
Proof.
  intros H. unfold SearchRoute.recentVideos. cbn [List.filter SearchRoute.type String.eqb Ascii.eqb Bool.eqb].
  unfold SearchRoute.isRecent. cbn. now rewrite H.
Qed.

Lemma isRecent_unreadable_date_witness :
  SearchRoute.recentVideos SearchRoute.rejectAll 1600000000000 true
    [SearchRoute.mkVideo "video" "dQw4w9WgXcQ" "A video" (Some 10%Z) None;
     SearchRoute.mkVideo "video" "9bZkp7q19f0" "Another" (Some 10%Z)
       (Some "3 weeks ago")]
  = [SearchRoute.mkVideo "video" "dQw4w9WgXcQ" "A video" (Some 10%Z) None].
Proof.
  exact (isRecent_unreadable_date SearchRoute.rejectAll 1600000000000 eq_refl).
Defined.

(** ** The adapters and their cache *)

Section AdapterFacts.

Import Tools.

Lemma freshEntry_Some ttl now cached entry :
  freshEntry ttl now cached = Some entry <->
  cached = Some entry /\ (now - timestamp entry < ttl)%Z.
Proof.
  unfold freshEntry. destruct cached as [e|].
  - destruct (Z.ltb_spec (now - timestamp e) ttl); split.
    + intros [= <-]. auto.
    + intros [[= <-] _]. reflexivity.
    + discriminate.
    + intros [[= <-] ?]. lia.
  - split; [discriminate | intros [[=] _]].
Qed.

Lemma freshEntry_None ttl key w :
  freshEntry ttl (clock w) (cache w !! key) = None <-> ~ fresh ttl key w.
Proof.
  unfold fresh. split.
  - intros H (entry & Hc & Hlt).
    assert (freshEntry ttl (clock w) (cache w !! key) = Some entry)
      by (apply freshEntry_Some; auto).
    congruence.
  - intros H. destruct (freshEntry _ _ _) as [entry|] eqn:E; [|reflexivity].
    apply freshEntry_Some in E as [Hc Hlt]. exfalso. apply H. eauto.
Qed.

(** Unfolds an adapter down to the replies of the network. *)
Ltac run_adapter :=
  unfold tryCatch, bind, cacheGet, dateNow; cbn beta iota;
  cbn [fst snd cache clock requests].

Ltac run_miss :=
  unfold fetch, lift, throw, ret, cacheSet; cbn beta iota zeta;
  repeat case_match; simplify_eq; cbn [cache clock requests].

Ltac solve_timeBoxed E :=
  intros w; split;
  [ intros entry Hc Hlt; run_adapter;
    rewrite (proj2 (freshEntry_Some _ _ _ entry) (conj Hc Hlt)); reflexivity
  | intros Hf; apply freshEntry_None in Hf; run_adapter; rewrite Hf;
    run_miss;
    (eexists _, _; split; [reflexivity|]; split; [reflexivity|]);
    first [ left; reflexivity | right; eexists; split; reflexivity ] ].

Ltac solve_writesThrough :=
  intros w r w' Hf H; apply freshEntry_None in Hf;
  revert H; run_adapter; rewrite Hf; run_miss;
  intros H; simplify_eq; reflexivity.

Variable processVideoInfo : Value -> Exc Value.
Variable processSearchResults : Value -> string -> Discovery.SearchParams -> Exc Value.
Variable processVideoMetadata : Value -> Exc Value.
Variable processAudioStreams : Value -> Exc Value.
Variable processFormats : Value -> Exc Value.
Variable searchParamsToString : list (string * string) -> string.

Lemma fetchTranscript_timeBoxed net videoId language :
  timeBoxed (fetchTranscript net videoId language)
    (transcriptCacheKey videoId language) (transcriptEndpoint videoId language)
    TRANSCRIPT_CACHE_TTL.
Proof. unfold fetchTranscript. solve_timeBoxed tt. Qed.

Lemma fetchVideoInfo_timeBoxed net videoId :
  timeBoxed (fetchVideoInfo processVideoInfo net videoId)
    videoId (videoEndpoint videoId) VIDEO_CACHE_TTL.
Proof. unfold fetchVideoInfo. solve_timeBoxed tt. Qed.

Lemma searchVideos_timeBoxed net query params :
  timeBoxed (searchVideos processSearchResults searchParamsToString net query params)
    (searchCacheKey query params)
    (searchEndpoint searchParamsToString query params) SEARCH_CACHE_TTL.
Proof. unfold searchVideos. solve_timeBoxed tt. Qed.

Lemma getVideoInfo_timeBoxed net videoId mode :
  timeBoxed
    (getVideoInfo processVideoMetadata processAudioStreams processFormats
       net videoId mode)
    (downloadCacheKey videoId mode) (downloadEndpoint videoId mode)
    DOWNLOAD_CACHE_TTL.
Proof. unfold getVideoInfo. solve_timeBoxed tt. Qed.

(** C2.  In every adapter a lookup is a hit exactly when the key has an
    entry younger than the time to live: the stored payload comes back and
    no request is sent.  Otherwise exactly one request is sent, and an
    expired entry stays in the cache until it is overwritten. *)
Theorem adapters_timeBoxed :
  (forall net videoId language,
     timeBoxed (fetchTranscript net videoId language)
       (transcriptCacheKey videoId language)
       (transcriptEndpoint videoId language) TRANSCRIPT_CACHE_TTL) /\
  (forall net videoId,
     timeBoxed (fetchVideoInfo processVideoInfo net videoId)
       videoId (videoEndpoint videoId) VIDEO_CACHE_TTL) /\
  (forall net query params,
     timeBoxed
       (searchVideos processSearchResults searchParamsToString net query params)
       (searchCacheKey query params)
       (searchEndpoint searchParamsToString query params) SEARCH_CACHE_TTL) /\
  (forall net videoId mode,
     timeBoxed
       (getVideoInfo processVideoMetadata processAudioStreams processFormats
          net videoId mode)
       (downloadCacheKey videoId mode) (downloadEndpoint videoId mode)
       DOWNLOAD_CACHE_TTL).
Proof.
  split; [exact fetchTranscript_timeBoxed|].
  split; [exact fetchVideoInfo_timeBoxed|].
  split; [exact searchVideos_timeBoxed | exact getVideoInfo_timeBoxed].
Qed.

(** C1, as amended.  On a miss every adapter stores the payload it returns
    under the derived key, whether the shaping step made it a success or an
    error payload; only an invocation that throws stores nothing. *)
Theorem adapters_writeThrough :
  (forall net videoId language,
     writesThrough (fetchTranscript net videoId language)
       (transcriptCacheKey videoId language) TRANSCRIPT_CACHE_TTL) /\
  (forall net videoId,
     writesThrough (fetchVideoInfo processVideoInfo net videoId)
       videoId VIDEO_CACHE_TTL) /\
  (forall net query params,
     writesThrough
       (searchVideos processSearchResults searchParamsToString net query params)
       (searchCacheKey query params) SEARCH_CACHE_TTL) /\
  (forall net videoId mode,
     writesThrough
       (getVideoInfo processVideoMetadata processAudioStreams processFormats
          net videoId mode)
       (downloadCacheKey videoId mode) DOWNLOAD_CACHE_TTL).
Proof.
  repeat split.
  - intros net videoId language. unfold fetchTranscript. solve_writesThrough.
  - intros net videoId. unfold fetchVideoInfo. solve_writesThrough.
  - intros net query params. unfold searchVideos. solve_writesThrough.
  - intros net videoId mode. unfold getVideoInfo. solve_writesThrough.
Qed.




End AdapterFacts.

(** C2 at work: a second call within the hour returns the stored payload
    and sends nothing; after the hour the same call sends one request. *)
Lemma adapters_timeBoxed_witness :
  Tools.fetchTranscript Tools.emptyTranscriptNet "dQw4w9WgXcQ" None
    (Tools.warmWorld 2000)
  = (Return Tools.storedPayload, Tools.warmWorld 2000) /\
  exists r w',
    Tools.fetchTranscript Tools.emptyTranscriptNet "dQw4w9WgXcQ" None
      (Tools.warmWorld 3601000) = (r, w') /\
    Tools.requests w' = ["/earlier"; "/api/youtube/transcript?videoId=dQw4w9WgXcQ"].
Proof.
  pose proof (adapters_timeBoxed (fun v => Return v) (fun v _ _ => Return v)
                (fun v => Return v) (fun v => Return v) (fun v => Return v)
                (fun _ => "")) as (H & _).
  split.
  - apply (proj1 (H Tools.emptyTranscriptNet "dQw4w9WgXcQ" None
                      (Tools.warmWorld 2000))
             (Tools.mkEntry Tools.storedPayload 1000)); reflexivity.
  - destruct (H Tools.emptyTranscriptNet "dQw4w9WgXcQ" None
                (Tools.warmWorld 3601000)) as [_ Hmiss].
    destruct Hmiss as (r & w' & E & Hreq & _).
    + intros (entry & Hc & Hlt). vm_compute in Hc. injection Hc as <-.
      vm_compute in Hlt. discriminate.
    + exists r, w'. split; [exact E | exact Hreq].
Defined.

(** C1, as stated, fails: the shaping step makes an error payload of an
    empty transcript, the adapter stores it, and the next call within the
    hour gets it back as a hit, without a request. *)
Lemma fetchTranscript_caches_error :
  exists v w1,
    Tools.fetchTranscript Tools.emptyTranscriptNet "dQw4w9WgXcQ" None Tools.coldWorld
      = (Return v, w1) /\
    hasField "error" v = true /\
    Tools.cache w1 !! "dQw4w9WgXcQ" = Some (Tools.mkEntry v 1120) /\
    Tools.fetchTranscript Tools.emptyTranscriptNet "dQw4w9WgXcQ" None
      (Tools.mkWorld (Tools.cache w1) 5000 (Tools.requests w1))
      = (Return v, Tools.mkWorld (Tools.cache w1) 5000 (Tools.requests w1)).
Proof.
  eexists _, _. split; [reflexivity|].
  split; [reflexivity|]. split; reflexivity.
Qed.

Lemma adapters_writeThrough_witness :
  exists v w1,
    Tools.fetchTranscript Tools.emptyTranscriptNet "dQw4w9WgXcQ" None Tools.coldWorld
      = (Return v, w1) /\
    Tools.cache w1 =
      <["dQw4w9WgXcQ" := Tools.mkEntry v (Tools.clock w1)]> (Tools.cache Tools.coldWorld).
Proof.
  pose proof (adapters_writeThrough (fun v => Return v) (fun v _ _ => Return v)
                (fun v => Return v) (fun v => Return v) (fun v => Return v)
                (fun _ => "")) as (H & _).
  eexists _, _. split; [reflexivity|].
  refine (H Tools.emptyTranscriptNet "dQw4w9WgXcQ" None Tools.coldWorld
            (Return _) _ _ eq_refl).
  intros (entry & Hc & _). vm_compute in Hc. discriminate.
Defined.



(** * Further properties *)

(** ** Replacing and what it leaves *)

Section ReplaceFacts.

Variable total : nat.

Lemma matchAt_consumed r s s' caps :
  matchAt total r s = Some (s', caps) ->
  exists w, s = w ++ s' /\ firstn (length s - length s') s = w.
Proof.
  intros H. apply matchAt_sound in H.
  destruct (Matches_consumes total (fun _ => false) _ _ _ H) as (w & -> & _).
  exists w. split; [reflexivity|].
  rewrite length_app, Nat.add_sub, firstn_app, Nat.sub_diag, firstn_all.
  cbn [firstn]. apply app_nil_r.
Qed.

(** Where every replacement is a sublist of what it replaces, so is the
    whole result of the text. *)
Lemma replace_loop_sublist r repl :
  (forall s s' caps w,
     matchAt total r s = Some (s', caps) -> s = w ++ s' ->
     repl w caps `sublist_of` w) ->
  forall fuel s, replace_loop fuel total r repl s `sublist_of` s.
Proof.
  intros Hrepl fuel. induction fuel as [|fuel IH]; intros s; cbn [replace_loop].
  - reflexivity.
  - destruct (matchAt total r s) as [[s' caps]|] eqn:E.
    + destruct (matchAt_consumed _ _ _ _ E) as (w & Hs & Hw). rewrite Hw.
      pose proof (Hrepl _ _ _ _ E Hs) as Hsub.
      destruct (Nat.eqb_spec (length s - length s') 0) as [Hz|Hnz].
      * assert (w = []) as ->.
        { rewrite <- Hw, Hz. reflexivity. }
        apply sublist_nil_r in Hsub. rewrite Hsub.
        destruct s as [|c t]; [reflexivity|].
        cbn [app]. apply sublist_skip, IH.
      * rewrite Hs. apply sublist_app; [exact Hsub | apply IH].
    + destruct s as [|c t]; [reflexivity|]. apply sublist_skip, IH.
Qed.

End ReplaceFacts.

(** ** Cleaning a transcript *)

Section CleaningFacts.

Import TranscriptTool.

Variable total : nat.

Lemma plain_isDot (c : ascii) : Further.plain c -> Chars.isDot c = true.
Proof.
  intros [H | ->]; [|reflexivity].
  destruct c as [[] [] [] [] [] [] [] []]; try reflexivity; discriminate H.
Qed.

Lemma Matches_spaces s s' :
  Matches total spaces_pattern s s' -> (length s' < length s)%nat.
Proof.
  unfold spaces_pattern, Plus. intros M.
  inversion M as [| |? ? ? s1 ? M1 M2| | | | | | |]; subst.
  inversion M1; subst.
  destruct (Matches_consumes total (fun _ => false) _ _ _ M2) as (w & -> & _).
  cbn [length]. rewrite length_app. lia.
Qed.

Lemma spaces_collapsed : forall fuel s,
  (length s < fuel)%nat ->
  Forall Further.plain (replace_loop fuel total spaces_pattern (constant " ") s).
Proof.
  induction fuel as [|fuel IH]; intros s Hlen; [lia|]. cbn [replace_loop].
  destruct (matchAt total spaces_pattern s) as [[s' caps]|] eqn:E.
  - pose proof (Matches_spaces _ _ (matchAt_sound _ _ _ _ _ E)) as Hlt.
    destruct (Nat.eqb_spec (length s - length s') 0) as [Hz|_]; [lia|].
    unfold constant at 1. cbn [list_ascii_of_string app].
    constructor; [now right|]. apply IH. lia.
  - destruct s as [|c t]; [constructor|].
    constructor; [|apply IH; cbn in Hlen; lia].
    left. destruct (Chars.isSpace c) eqn:Hc; [|reflexivity].
    assert (M : Matches total spaces_pattern (c :: t) t).
    { unfold spaces_pattern, Plus.
      eapply M_Seq; [now constructor | constructor]. }
    destruct (matchAt_complete _ _ _ _ M) as [y Hy]. congruence.
Qed.

Lemma Matches_annotation s s' :
  Matches total annotation_pattern s s' -> (length s' < length s)%nat.
Proof.
  unfold annotation_pattern. intros M.
  inversion M as [| |? ? ? s1 ? M1 M2| | | | | | |]; subst.
  destruct (Matches_consumes total (fun _ => false) _ _ _ M2) as (w & -> & _).
  inversion M1 as [| |? ? ? s2 ? M3 M4| | | | | | |]; subst.
  inversion M3; subst. inversion M4; subst.
  cbn [length]. rewrite length_app. lia.
Qed.

Lemma Matches_star_run g p w rest :
  forallb p w = true -> Matches total (Star g (Chr p)) (w ++ rest) rest.
Proof.
  induction w as [|c w IH]; cbn [forallb app]; intros H; [constructor|].
  apply andb_true_iff in H as [Hc Hw].
  eapply M_StarS; [now constructor | cbn; lia | now apply IH].
Qed.

Lemma annotation_found b rest :
  forallb Chars.isDot b = true ->
  is_Some (matchAt total annotation_pattern ("["%char :: b ++ "]"%char :: rest)).
Proof.
  intros Hb. apply (matchAt_complete total _ _ rest). unfold annotation_pattern.
  eapply M_Seq.
  - eapply M_Seq; [now constructor | constructor].
  - eapply M_Seq; [now apply Matches_star_run|].
    eapply M_Seq; [now constructor | constructor].
Qed.

Lemma bracketFree_sublist l k :
  l `sublist_of` k -> Further.bracketFree k -> Further.bracketFree l.
Proof.
  intros Hsub Hk a b c ->.
  apply sublist_app_cons_l in Hsub as (k1 & k2 & -> & _ & Hsub).
  apply sublist_app_cons_l in Hsub as (k3 & k4 & -> & _ & _).
  now apply (Hk k1 k3 k4).
Qed.

Lemma annotations_removed : forall fuel s,
  (length s < fuel)%nat -> forallb Chars.isDot s = true ->
  Further.bracketFree (replace_loop fuel total annotation_pattern (constant "") s).
Proof.
  induction fuel as [|fuel IH]; intros s Hlen Hdot; [lia|]. cbn [replace_loop].
  destruct (matchAt total annotation_pattern s) as [[s' caps]|] eqn:E.
  - pose proof (Matches_annotation _ _ (matchAt_sound _ _ _ _ _ E)) as Hlt.
    destruct (matchAt_consumed _ _ _ _ _ E) as (w & Hs & _).
    destruct (Nat.eqb_spec (length s - length s') 0) as [Hz|_]; [lia|].
    unfold constant at 1. cbn [list_ascii_of_string app].
    apply IH; [lia|]. rewrite Hs, forallb_app in Hdot.
    now apply andb_true_iff in Hdot as [_ Hdot].
  - destruct s as [|c t]; [intros [|? ?] ? ?; discriminate|].
    cbn [forallb] in Hdot. apply andb_true_iff in Hdot as [_ Hdot].
    assert (Hrest : Further.bracketFree
                      (replace_loop fuel total annotation_pattern (constant "") t))
      by (apply IH; [cbn in Hlen; lia | exact Hdot]).
    intros [|c' a] b d Heq; cbn [app] in Heq.
    + injection Heq as -> Heq.
      assert (Hin : "]"%char ∈
                replace_loop fuel total annotation_pattern (constant "") t)
        by (rewrite Heq; apply elem_of_app; right; left).
      eapply elem_of_sublist in Hin;
        [|apply replace_loop_sublist; intros; apply sublist_nil_l].
      apply list_elem_of_split in Hin as (b' & d' & ->).
      rewrite forallb_app in Hdot. apply andb_true_iff in Hdot as [Hb' _].
      destruct (annotation_found b' d' Hb') as [y Hy]. congruence.
    + injection Heq as -> Heq. now apply (Hrest a b d).
Qed.

Lemma matchAt_punctuation s s' caps :
  matchAt total punctuation_pattern s = Some (s', caps) ->
  exists c1 c2, s = c1 :: c2 :: s' /\ caps = [(1%nat, [c2])].
Proof.
  unfold matchAt, punctuation_pattern. cbn [rmatch].
  destruct s as [|c1 [|c2 s2]]; [discriminate | |].
  - destruct (Chars.isSpace c1); discriminate.
  - destruct (Chars.isSpace c1); [|discriminate].
    destruct (Chars.oneOf ".,;!?" c2); [|discriminate].
    intros [= <- <-]. exists c1, c2. split; [reflexivity|].
    cbn [length]. now rewrite Nat.sub_succ_l, Nat.sub_diag by lia.
Qed.

Lemma punctuation_sublist fuel s :
  replace_loop fuel total punctuation_pattern (aroundGroup1 "" "") s `sublist_of` s.
Proof.
  apply replace_loop_sublist. intros t t' caps w E Ht.
  apply matchAt_punctuation in E as (c1 & c2 & -> & ->).
  assert (w = [c1; c2]) as ->.
  { change (c1 :: c2 :: t') with ([c1; c2] ++ t') in Ht.
    now apply app_inv_tail in Ht. }
  unfold aroundGroup1. cbn. apply sublist_cons, sublist_skip. reflexivity.
Qed.

End CleaningFacts.

(** After the cleaning no opening bracket is followed, anywhere, by a
    closing one. *)
Lemma cleanText_no_annotation (segments : list TranscriptTool.TranscriptSegment) :
  ~ Further.hasAnnotation (TranscriptTool.cleanText segments).
Proof.
  unfold Further.hasAnnotation, TranscriptTool.cleanText, replaceAll.
  rewrite !list_ascii_of_string_of_list_ascii.
  set (l0 := list_ascii_of_string _).
  set (l1 := replace_loop _ _ TranscriptTool.spaces_pattern _ l0).
  set (l2 := replace_loop _ _ TranscriptTool.annotation_pattern _ l1).
  intros (a & b & c & H).
  assert (H1 : forallb Chars.isDot l1 = true).
  { apply forallb_forall. intros x Hx.
    apply plain_isDot.
    pose proof (spaces_collapsed (length l0) (S (length l0)) l0 (Nat.lt_succ_diag_r _)) as Hp.
    rewrite Forall_forall in Hp. apply Hp. now apply list_elem_of_In. }
  assert (H2 : Further.bracketFree l2)
    by (apply annotations_removed; [lia | exact H1]).
  eapply bracketFree_sublist; [apply punctuation_sublist | exact H2 | exact H].
Qed.

(** X1.  Whatever the upstream data, the transcript text of the payload that
    [processTranscript] builds holds no bracketed annotation: no opening
    bracket in it is followed, anywhere, by a closing one. *)
Theorem processTranscript_no_annotation
    (data : option (list TranscriptTool.TranscriptSegment))
    (videoId : string) (language : option string) (t : string) :
  field "transcript" (TranscriptTool.processTranscript data videoId language) = VStr t ->
  ~ Further.hasAnnotation t.
Proof.
  destruct data as [[|seg segments]|]; try discriminate.
  intros [= <-]. apply cleanText_no_annotation.
Qed.

Lemma processTranscript_no_annotation_witness :
  ~ Further.hasAnnotation "a  b] [c".
Proof.
  apply (processTranscript_no_annotation
           (Some [TranscriptTool.mkSegment "a [x [y] b] [c" 0 1]) "dQw4w9WgXcQ" None).
  vm_compute. reflexivity.
Defined.

(** ** The adapters: repeated calls and the rest of the cache *)

Section AdapterFurther.

Import Tools.

Lemma servesAgain_of run key endpoint ttl :
  timeBoxed run key endpoint ttl -> writesThrough run key ttl ->
  Further.servesAgain run key ttl.
Proof.
  intros TB WT w v w1 Hrun.
  assert (Hagain : forall entry, cache w1 !! key = Some entry -> data entry = v ->
            forall now sent, (now - timestamp entry < ttl)%Z ->
              run (mkWorld (cache w1) now sent)
              = (Return v, mkWorld (cache w1) now sent)).
  { intros entry Hc <- now sent Hlt.
    destruct (TB (mkWorld (cache w1) now sent)) as [Hit _].
    apply Hit; [exact Hc | exact Hlt]. }
  destruct (freshEntry ttl (clock w) (cache w !! key)) as [entry|] eqn:E.
  - apply freshEntry_Some in E as [Hc Hlt].
    destruct (TB w) as [Hit _]. rewrite (Hit _ Hc Hlt) in Hrun.
    injection Hrun as <- <-. exists entry. eauto.
  - apply freshEntry_None in E. specialize (WT w _ _ E Hrun). cbn in WT.
    exists (mkEntry v (clock w1)).
    assert (Hc : cache w1 !! key = Some (mkEntry v (clock w1)))
      by (rewrite WT; apply lookup_insert_eq).
    eauto.
Qed.

Lemma keepsOthers_of run key endpoint ttl :
  timeBoxed run key endpoint ttl -> Further.keepsOthers run key.
Proof.
  intros TB w r w' Hrun.
  destruct (freshEntry ttl (clock w) (cache w !! key)) as [entry|] eqn:E.
  - apply freshEntry_Some in E as [Hc Hlt].
    destruct (TB w) as [Hit _]. rewrite (Hit _ Hc Hlt) in Hrun.
    injection Hrun as <- <-. auto.
  - apply freshEntry_None in E.
    destruct (TB w) as [_ Hmiss].
    destruct (Hmiss E) as (r0 & w0 & Hrun0 & _ & Hcache).
    rewrite Hrun in Hrun0. injection Hrun0 as <- <-.
    destruct Hcache as [-> | (v & _ & ->)]; [auto|]. split.
    + intros other Hne. now apply lookup_insert_ne.
    + intros k Hk. apply lookup_insert_is_Some'. auto.
Qed.

Ltac run_adapter :=
  unfold tryCatch, bind, cacheGet, dateNow; cbn beta iota;
  cbn [fst snd cache clock requests].

Ltac run_miss :=
  unfold fetch, lift, throw, ret, cacheSet; cbn beta iota zeta;
  repeat case_match; simplify_eq; cbn [cache clock requests].

Ltac solve_writesThrough :=
  intros w r w' Hf H; apply freshEntry_None in Hf;
  revert H; run_adapter; rewrite Hf; run_miss;
  intros H; simplify_eq; reflexivity.

Variable processVideoInfo : Value -> Exc Value.
Variable processSearchResults : Value -> string -> Discovery.SearchParams -> Exc Value.
Variable processVideoMetadata : Value -> Exc Value.
Variable processAudioStreams : Value -> Exc Value.
Variable processFormats : Value -> Exc Value.
Variable searchParamsToString : list (string * string) -> string.

Lemma fetchTranscript_writesThrough net videoId language :
  writesThrough (fetchTranscript net videoId language)
    (transcriptCacheKey videoId language) TRANSCRIPT_CACHE_TTL.
Proof. unfold fetchTranscript. solve_writesThrough. Qed.

Lemma fetchVideoInfo_writesThrough net videoId :
  writesThrough (fetchVideoInfo processVideoInfo net videoId)
    videoId VIDEO_CACHE_TTL.
Proof. unfold fetchVideoInfo. solve_writesThrough. Qed.

Lemma searchVideos_writesThrough net query params :
  writesThrough
    (searchVideos processSearchResults searchParamsToString net query params)
    (searchCacheKey query params) SEARCH_CACHE_TTL.
Proof. unfold searchVideos. solve_writesThrough. Qed.

Lemma getVideoInfo_writesThrough net videoId mode :
  writesThrough
    (getVideoInfo processVideoMetadata processAudioStreams processFormats
       net videoId mode)
    (downloadCacheKey videoId mode) DOWNLOAD_CACHE_TTL.
Proof. unfold getVideoInfo. solve_writesThrough. Qed.

(** X2.  Once an adapter has returned a payload, the cache holds it under
    the derived key, and every later call for the same arguments made within
    the time to live of that entry returns the same payload without sending
    a request or touching the cache, whatever the network would answer. *)
Theorem adapters_serveAgain :
  (forall net videoId language,
     Further.servesAgain (fetchTranscript net videoId language)
       (transcriptCacheKey videoId language) TRANSCRIPT_CACHE_TTL) /\
  (forall net videoId,
     Further.servesAgain (fetchVideoInfo processVideoInfo net videoId)
       videoId VIDEO_CACHE_TTL) /\
  (forall net query params,
     Further.servesAgain
       (searchVideos processSearchResults searchParamsToString net query params)
       (searchCacheKey query params) SEARCH_CACHE_TTL) /\
  (forall net videoId mode,
     Further.servesAgain
       (getVideoInfo processVideoMetadata processAudioStreams processFormats
          net videoId mode)
       (downloadCacheKey videoId mode) DOWNLOAD_CACHE_TTL).
Proof.
  split; [|split; [|split]]; intros.
  - eapply servesAgain_of;
      [apply fetchTranscript_timeBoxed | apply fetchTranscript_writesThrough].
  - eapply servesAgain_of;
      [apply fetchVideoInfo_timeBoxed | apply fetchVideoInfo_writesThrough].
  - eapply servesAgain_of;
      [apply searchVideos_timeBoxed | apply searchVideos_writesThrough].
  - eapply servesAgain_of;
      [apply getVideoInfo_timeBoxed | apply getVideoInfo_writesThrough].
Qed.

(** X3.  An adapter call reads and writes one key only: every entry under
    another key is left as it was, and no entry is ever removed, whether the
    call hits, misses, fails or throws. *)
Theorem adapters_keepOthers :
  (forall net videoId language,
     Further.keepsOthers (fetchTranscript net videoId language)
       (transcriptCacheKey videoId language)) /\
  (forall net videoId,
     Further.keepsOthers (fetchVideoInfo processVideoInfo net videoId) videoId) /\
  (forall net query params,
     Further.keepsOthers
       (searchVideos processSearchResults searchParamsToString net query params)
       (searchCacheKey query params)) /\
  (forall net videoId mode,
     Further.keepsOthers
       (getVideoInfo processVideoMetadata processAudioStreams processFormats
          net videoId mode)
       (downloadCacheKey videoId mode)).
Proof.
  split; [|split; [|split]]; intros.
  - eapply keepsOthers_of, fetchTranscript_timeBoxed.
  - eapply keepsOthers_of, fetchVideoInfo_timeBoxed.
  - eapply keepsOthers_of, searchVideos_timeBoxed.
  - eapply keepsOthers_of, getVideoInfo_timeBoxed.
Qed.

End AdapterFurther.

(** The second call of X2 on a cold cache: the payload of the first call is
    stored and, fifty minutes later, served again. *)
Lemma adapters_serveAgain_witness :
  let v := TranscriptTool.processTranscript (Some []) "dQw4w9WgXcQ" None in
  let stored : gmap string Tools.CacheEntry :=
    {[ "dQw4w9WgXcQ" := Tools.mkEntry v 1120 ]} in
  Tools.fetchTranscript Tools.emptyTranscriptNet "dQw4w9WgXcQ" None Tools.coldWorld
  = (Return v, Tools.mkWorld stored 1120 ["/api/youtube/transcript?videoId=dQw4w9WgXcQ"]) /\
  Tools.fetchTranscript Tools.emptyTranscriptNet "dQw4w9WgXcQ" None
    (Tools.mkWorld stored 3000000 [])
  = (Return v, Tools.mkWorld stored 3000000 []).
Proof.
  intros v stored.
  assert (E : Tools.fetchTranscript Tools.emptyTranscriptNet "dQw4w9WgXcQ" None
                Tools.coldWorld
              = (Return v, Tools.mkWorld stored 1120
                             ["/api/youtube/transcript?videoId=dQw4w9WgXcQ"]))
    by (vm_compute; reflexivity).
  split; [exact E|].
  pose proof (adapters_serveAgain (fun v => Return v) (fun v _ _ => Return v)
                (fun v => Return v) (fun v => Return v) (fun v => Return v)
                (fun _ => "")) as (H & _).
  destruct (H Tools.emptyTranscriptNet "dQw4w9WgXcQ" None _ _ _ E)
    as (entry & Hc & _ & Hagain).
  apply Hagain. vm_compute in Hc. injection Hc as <-. reflexivity.
Defined.

(** X3 at work: a miss for one video leaves the entry of another in place. *)
Lemma adapters_keepOthers_witness :
  exists r w',
    Tools.fetchTranscript Tools.emptyTranscriptNet "abcdefghijk" None
      (Tools.warmWorld 2000) = (r, w') /\
    Tools.cache w' !! "dQw4w9WgXcQ" = Some (Tools.mkEntry Tools.storedPayload 1000).
Proof.
  pose proof (adapters_keepOthers (fun v => Return v) (fun v _ _ => Return v)
                (fun v => Return v) (fun v => Return v) (fun v => Return v)
                (fun _ => "")) as (H & _).
  destruct (Tools.fetchTranscript Tools.emptyTranscriptNet "abcdefghijk" None
              (Tools.warmWorld 2000)) as [r w'] eqn:E.
  exists r, w'. split; [reflexivity|].
  destruct (H Tools.emptyTranscriptNet "abcdefghijk" None _ _ _ E) as [Hothers _].
  rewrite Hothers; [vm_compute; reflexivity|].
  intros Heq. vm_compute in Heq. discriminate Heq.
Defined.

(** ** The tools: inputs they refuse and requests that fail *)

Section ToolFailures.

Import Tools.

Variable processVideoInfo : Value -> Exc Value.
Variable processSearchResults : Value -> string -> Discovery.SearchParams -> Exc Value.
Variable processVideoMetadata : Value -> Exc Value.
Variable processAudioStreams : Value -> Exc Value.
Variable processFormats : Value -> Exc Value.
Variable searchParamsToString : list (string * string) -> string.

Lemma extractVideoId_message (s : string) e :
  extractVideoId s = Throw e ->
  e = ErrorObj ("Could not extract valid YouTube video ID from: " ++ s).
Proof.
  unfold extractVideoId.
  destruct (exec youtube_pattern s) as [m|].
  - destruct (group 1 m); discriminate.
  - destruct (test bare_id_pattern s); [discriminate|]. now intros [= <-].
Qed.

Ltac run_tool :=
  unfold tryCatch, bind, lift, cacheGet, dateNow; cbn beta iota;
  cbn [fst snd cache clock requests].

(** X4.  An input in which no video identifier is found, or a search whose
    query is blank, is refused by the tool with a tagged error payload; no
    request is sent and the cache is not touched. *)
Theorem tools_refuse_unusable_input :
  (forall net input e,
     let videoInput := Js.trim (nth 0 (Js.splitLimit "|" 2 input) "") in
     extractVideoId videoInput = Throw e ->
     Further.refuses (transcriptExecute net input)
       ("Could not extract valid YouTube video ID from: " ++ videoInput)
       "transcript_error") /\
  (forall net input e,
     extractVideoId (Js.trim input) = Throw e ->
     Further.refuses (videoExecute processVideoInfo net input)
       ("Could not extract valid YouTube video ID from: " ++ Js.trim input)
       "video_info_error") /\
  (forall net input,
     Js.trim (nth 0 (Js.splitLimit "|" 2 input) "") = "" ->
     Further.refuses
       (discoveryExecute processSearchResults searchParamsToString net input)
       "Please provide a search query" "search_error") /\
  (forall net input e,
     let videoInput := Js.trim (nth 0 (Js.splitLimit "|" 2 input) "") in
     extractVideoId videoInput = Throw e ->
     Further.refuses
       (downloadExecute processVideoMetadata processAudioStreams processFormats
          net input)
       ("Could not extract valid YouTube video ID from: " ++ videoInput)
       "download_error").
Proof.
  split; [|split; [|split]].
  - intros net input e videoInput H w.
    pose proof (extractVideoId_message _ _ H) as ->.
    unfold transcriptExecute. run_tool. fold videoInput. rewrite H.
    eexists. split; [reflexivity|]. split; reflexivity.
  - intros net input e H w.
    pose proof (extractVideoId_message _ _ H) as ->.
    unfold videoExecute. run_tool. rewrite H.
    eexists. split; [reflexivity|]. split; reflexivity.
  - intros net input H w.
    unfold discoveryExecute, Discovery.parseInput. run_tool. rewrite H.
    eexists. split; [reflexivity|]. split; reflexivity.
  - intros net input e videoInput H w.
    pose proof (extractVideoId_message _ _ H) as ->.
    unfold downloadExecute, downloadParseInput. run_tool.
    fold videoInput. rewrite H.
    eexists. split; [reflexivity|]. split; reflexivity.
Qed.

Ltac fail_closed Hid :=
  let w := fresh "w" in
  let e := fresh "e" in
  let Hf := fresh "Hf" in
  let Hfail := fresh "Hfail" in
  intros w e Hf Hfail; apply freshEntry_None in Hf;
  run_tool; rewrite ?Hid; cbn beta iota; rewrite Hf;
  unfold Further.failure in Hfail; unfold fetch, throw, ret, lift, bind;
  cbn beta iota zeta;
  destruct (outcome _) as [e'|response];
  [ injection Hfail as ->
  | destruct (ok response); cbn [negb] in Hfail |- *;
    [ destruct (json response) as [?|e']; [discriminate Hfail|];
      injection Hfail as ->
    | injection Hfail as <- ] ];
  try (destruct e as [message|]);
  (eexists; split; [reflexivity|]; cbn [Further.reports];
   first [ split; reflexivity | reflexivity ]).

(** X5.  When the request of a tool fails on a miss (it is rejected, the
    response is not OK, or its body cannot be read), the tool still returns:
    the payload carries the message of the error, for a response that is
    not OK the fixed prefix of the tool followed by the status text, under
    the tag of the tool, and anything thrown that is no error is reported as
    a system error.  One request has been sent and nothing is cached. *)
Theorem tools_fail_closed :
  (forall net input videoId,
     let parts := Js.splitLimit "|" 2 input in
     let language :=
       match parts with
       | _ :: part1 :: _ => Some (Js.trim part1)
       | _ => None
       end in
     extractVideoId (Js.trim (nth 0 parts "")) = Return videoId ->
     Further.failsClosed (transcriptExecute net input) net
       (transcriptCacheKey videoId language)
       (transcriptEndpoint videoId language) TRANSCRIPT_CACHE_TTL
       "Failed to fetch transcript: " "transcript_error") /\
  (forall net input videoId,
     extractVideoId (Js.trim input) = Return videoId ->
     Further.failsClosed (videoExecute processVideoInfo net input) net
       videoId (videoEndpoint videoId) VIDEO_CACHE_TTL
       "Failed to fetch video info: " "video_info_error") /\
  (forall net input,
     let query := fst (Discovery.parseInput input) in
     let params := snd (Discovery.parseInput input) in
     query <> "" ->
     Further.failsClosed
       (discoveryExecute processSearchResults searchParamsToString net input) net
       (searchCacheKey query params)
       (searchEndpoint searchParamsToString query params) SEARCH_CACHE_TTL
       "Search failed: " "search_error") /\
  (forall net input videoId mode,
     downloadParseInput input = Return (videoId, mode) ->
     Further.failsClosed
       (downloadExecute processVideoMetadata processAudioStreams processFormats
          net input) net
       (downloadCacheKey videoId mode) (downloadEndpoint videoId mode)
       DOWNLOAD_CACHE_TTL
       "Failed to get video information: " "download_error").
Proof.
  split; [|split; [|split]].
  - intros net input videoId parts language Hid.
    unfold transcriptExecute, fetchTranscript. fold parts. fold language.
    fail_closed Hid.
  - intros net input videoId Hid.
    unfold videoExecute, fetchVideoInfo. fail_closed Hid.
  - intros net input query params Hq.
    unfold discoveryExecute, searchVideos.
    destruct (Discovery.parseInput input) as [q p] eqn:Hp.
    cbn [fst snd] in query, params. subst query params.
    apply String.eqb_neq in Hq.
    fail_closed Hq.
  - intros net input videoId mode Hid.
    unfold downloadExecute, getVideoInfo. fail_closed Hid.
Qed.

End ToolFailures.

(** X4 at work: free text is refused by the transcript tool. *)
Lemma tools_refuse_unusable_input_witness :
  exists v,
    Tools.transcriptExecute Tools.emptyTranscriptNet "not a video | en" Tools.coldWorld
    = (Return v, Tools.coldWorld) /\
    field "error" v
    = VStr "Could not extract valid YouTube video ID from: not a video" /\
    field "type" v = VStr "transcript_error".
Proof.
  pose proof (tools_refuse_unusable_input (fun v => Return v) (fun v _ _ => Return v)
                (fun v => Return v) (fun v => Return v) (fun v => Return v)
                (fun _ => "")) as (H & _).
  refine (H Tools.emptyTranscriptNet "not a video | en"
            (ErrorObj "Could not extract valid YouTube video ID from: not a video")
            _ Tools.coldWorld).
  vm_compute. reflexivity.
Defined.

(** X5 at work: the video tool when the route answers 503. *)
Lemma tools_fail_closed_witness :
  let net : Tools.Network Value :=
    fun _ _ _ =>
      Tools.mkReply 30
        (Tools.Fulfilled (Tools.mkResponse false "Service Unavailable" (Return VNull))) in
  exists v,
    Tools.videoExecute (fun v => Return v) net "https://youtu.be/dQw4w9WgXcQ"
      Tools.coldWorld
    = (Return v,
       Tools.mkWorld ∅ 1030 ["/api/youtube/video?videoId=dQw4w9WgXcQ"]) /\
    field "error" v = VStr "Failed to fetch video info: Service Unavailable" /\
    field "type" v = VStr "video_info_error".
Proof.
  intros net.
  pose proof (tools_fail_closed (fun v => Return v) (fun v _ _ => Return v)
                (fun v => Return v) (fun v => Return v) (fun v => Return v)
                (fun _ => "")) as (_ & H & _).
  refine (H net "https://youtu.be/dQw4w9WgXcQ" "dQw4w9WgXcQ" _ Tools.coldWorld
            (ErrorObj "Failed to fetch video info: Service Unavailable") _ _).
  - vm_compute. reflexivity.
  - intros (entry & Hc & _). vm_compute in Hc. discriminate Hc.
  - vm_compute. reflexivity.
Defined.

(** ** Printing a number and reading it back *)

Section DecimalFacts.

Import Further.

Lemma chars_digits (u : Decimal.uint) : forallb Chars.isDigit (uintChars u) = true.
Proof. induction u; cbn; auto. Qed.

Lemma fold_of_uint_acc (u : Decimal.uint) : forall acc,
  fold_left decimalStep (uintChars u) (Zpos acc) = Zpos (Pos.of_uint_acc u acc).
Proof.
  induction u; intros acc; cbn [uintChars NilEmpty.string_of_uint list_ascii_of_string
                                 fold_left Pos.of_uint_acc];
    [reflexivity | fold (uintChars u); rewrite <- IHu; f_equal; unfold decimalStep; cbn; lia ..].
Qed.

Lemma fold_of_uint (u : Decimal.uint) :
  fold_left decimalStep (uintChars u) 0%Z = Z.of_N (Pos.of_uint u).
Proof.
  induction u; cbn [uintChars NilEmpty.string_of_uint list_ascii_of_string
                    fold_left Pos.of_uint];
    [reflexivity | fold (uintChars u) ..].
  - exact IHu.
  - apply (fold_of_uint_acc u 1).
  - apply (fold_of_uint_acc u 2).
  - apply (fold_of_uint_acc u 3).
  - apply (fold_of_uint_acc u 4).
  - apply (fold_of_uint_acc u 5).
  - apply (fold_of_uint_acc u 6).
  - apply (fold_of_uint_acc u 7).
  - apply (fold_of_uint_acc u 8).
  - apply (fold_of_uint_acc u 9).
Qed.

Lemma chars_to_uint (p : positive) :
  let digits := uintChars (Pos.to_uint p) in
  digits <> [] /\ forallb Chars.isDigit digits = true /\
  IsoDuration.decimalValue digits = Zpos p.
Proof.
  cbn zeta. split; [|split].
  - pose proof (DecimalPos.Unsigned.to_uint_nonnil p) as Hn.
    unfold uintChars. destruct (Pos.to_uint p); [contradiction | discriminate ..].
  - apply chars_digits.
  - unfold IsoDuration.decimalValue. fold decimalStep. rewrite fold_of_uint.
    now rewrite DecimalPos.Unsigned.of_to.
Qed.

Lemma showZ_pos (p : positive) :
  Js.showZ (Zpos p) = string_of_list_ascii (uintChars (Pos.to_uint p)).
Proof. unfold uintChars. now rewrite string_of_list_ascii_of_string. Qed.

Lemma showZ_neg (p : positive) :
  Js.showZ (Zneg p) = String "-" (string_of_list_ascii (uintChars (Pos.to_uint p))).
Proof. unfold uintChars. now rewrite string_of_list_ascii_of_string. Qed.

Lemma parseInt_minus_digits (digits : list ascii) :
  digits <> [] -> forallb Chars.isDigit digits = true ->
  Js.parseInt (String "-" (string_of_list_ascii digits))
  = Some (- IsoDuration.decimalValue digits)%Z.
Proof.
  intros Hne Hd. unfold Js.parseInt.
  cbn [list_ascii_of_string]. rewrite list_ascii_of_string_of_list_ascii.
  change (Js.trimStartL ("-"%char :: digits)) with ("-"%char :: digits).
  cbn [Ascii.eqb Bool.eqb orb].
  destruct digits as [|c digits]; [contradiction|].
  pose proof Hd as Hd'. cbn [forallb] in Hd'.
  apply andb_true_iff in Hd' as [Hc Hrest].
  destruct (digit_facts c Hc) as (_ & _ & _ & _ & _ & Hv).
  assert (Hhex : match c :: digits with
                 | c0 :: c1 :: _ =>
                     Ascii.eqb c0 "0" && (Ascii.eqb c1 "x" || Ascii.eqb c1 "X")
                 | _ => false
                 end = false).
  { destruct digits as [|c1 digits]; [reflexivity|].
    cbn [forallb] in Hrest. apply andb_true_iff in Hrest as [Hc1 _].
    destruct (digit_facts c1 Hc1) as (_ & _ & _ & -> & -> & _).
    apply andb_false_r. }
  rewrite Hhex. cbn [Js.readDigits]. rewrite Hv. cbn [default].
  rewrite readDigits_decimal by exact Hrest.
  unfold IsoDuration.decimalValue. cbn [fold_left].
  f_equal; lia.
Qed.

Lemma parseInt_showZ_any (z : Z) : Js.parseInt (Js.showZ z) = Some z.
Proof.
  destruct z as [|p|p].
  - reflexivity.
  - destruct (chars_to_uint p) as (Hne & Hd & Hv).
    rewrite showZ_pos, parseInt_digits by assumption. now rewrite Hv.
  - destruct (chars_to_uint p) as (Hne & Hd & Hv).
    rewrite showZ_neg, parseInt_minus_digits by assumption. now rewrite Hv.
Qed.

Lemma showZ_not_empty (z : Z) : Js.showZ z <> "".
Proof.
  destruct z as [|p|p]; [discriminate | | discriminate].
  destruct (chars_to_uint p) as (Hne & _ & _).
  rewrite showZ_pos. destruct (uintChars (Pos.to_uint p)); [contradiction | discriminate].
Qed.

End DecimalFacts.

(** ** The search request, written by the tool and read by the route *)

Section SearchRequestFacts.

Import Discovery.

Lemma orElse_showZ (z : Z) fallback :
  SearchRequest.orElse (Some (Js.showZ z)) fallback = Js.showZ z.
Proof.
  unfold SearchRequest.orElse, Tools.truthy.
  destruct (String.eqb_spec (Js.showZ z) "") as [E|_]; [|reflexivity].
  now apply showZ_not_empty in E.
Qed.

(** X6.  What the search route reads from the request is what the discovery
    tool wrote into it: the count and the sort key as they are (an empty
    sort key read as relevance), the recency flag, the duration when there
    is one, and the minimum of views when it is positive, zero otherwise. *)
Theorem search_request_read_back (query : string) (params : SearchParams) :
  Further.safeInteger (count params) ->
  Further.safeInteger (minViews params) ->
  let sent := Tools.searchQueryParams query params in
  SearchRequest.count sent = Some (count params) /\
  SearchRequest.minViews sent = Some (Z.max 0 (minViews params)) /\
  SearchRequest.sort sent
    = (if String.eqb (sort params) "" then "relevance" else sort params) /\
  SearchRequest.recent sent = recent params /\
  SearchRequest.duration sent = Further.effective (duration params).
Proof.
  intros _ _ sent. subst sent. unfold Tools.searchQueryParams.
  split; [|split; [|split; [|split]]].
  - unfold SearchRequest.count. cbn. rewrite orElse_showZ.
    apply parseInt_showZ_any.
  - unfold SearchRequest.minViews.
    destruct (Z.ltb_spec 0 (minViews params)) as [Hpos|Hle].
    + replace (Z.max 0 (minViews params)) with (minViews params) by lia.
      destruct (recent params); cbn; rewrite orElse_showZ;
        apply parseInt_showZ_any.
    + replace (Z.max 0 (minViews params)) with 0%Z by lia.
      destruct (recent params), (Tools.truthy (duration params)),
        (Js.startsWith "channel:" query), (Js.startsWith "playlist:" query);
        reflexivity.
  - unfold SearchRequest.sort, SearchRequest.orElse. cbn.
    now destruct (String.eqb (sort params) "").
  - unfold SearchRequest.recent.
    destruct (recent params); cbn; [reflexivity|].
    destruct (0 <? minViews params)%Z, (Tools.truthy (duration params)),
      (Js.startsWith "channel:" query), (Js.startsWith "playlist:" query);
      reflexivity.
  - unfold SearchRequest.duration, Further.effective.
    destruct (duration params) as [d|]; cbn [Tools.truthy default];
      [destruct (String.eqb d "") eqn:Hd; cbn [negb]|];
      destruct (recent params), (0 <? minViews params)%Z; cbn;
      rewrite ?Hd; cbn [negb]; try reflexivity;
      destruct (Js.startsWith "channel:" query),
        (Js.startsWith "playlist:" query); reflexivity.
Qed.

End SearchRequestFacts.

Lemma search_request_read_back_witness :
  let params := Discovery.mkParams 7 "views" true 1000 (Some "long") in
  let sent := Tools.searchQueryParams "channel: UC123" params in
  SearchRequest.count sent = Some 7%Z /\
  SearchRequest.minViews sent = Some 1000%Z /\
  SearchRequest.sort sent = "views" /\
  SearchRequest.recent sent = true /\
  SearchRequest.duration sent = Some "long".
Proof.
  apply (search_request_read_back "channel: UC123"
           (Discovery.mkParams 7 "views" true 1000 (Some "long")));
    unfold Further.safeInteger; cbn; lia.
Defined.

(** ** The filters of the search route *)

Section ViewFilterFacts.

Import SearchRoute ViewFilter.

Variable total : nat.

Lemma replace_chr_filter (p : ascii -> bool) : forall fuel s,
  (length s < fuel)%nat ->
  replace_loop fuel total (Chr p) (constant "") s
  = List.filter (fun c => negb (p c)) s.
Proof.
  induction fuel as [|fuel IH]; intros s Hlen; [lia|].
  destruct s as [|c t]; [reflexivity|].
  cbn [replace_loop matchAt rmatch List.filter]. cbn [length] in Hlen.
  destruct (p c); cbn [negb].
  - cbn [length]. rewrite Nat.sub_succ_l, Nat.sub_diag by lia.
    cbn [Nat.eqb]. unfold constant at 1. cbn [list_ascii_of_string app].
    apply IH. lia.
  - f_equal. apply IH. lia.
Qed.

Lemma filter_all {A : Type} (f : A -> bool) (l : list A) :
  forallb f l = true -> List.filter f l = l.
Proof.
  induction l as [|x l IH]; cbn; [reflexivity|].
  intros H. apply andb_true_iff in H as [-> Hl]. f_equal. auto.
Qed.

Lemma filter_filter {A : Type} (f g : A -> bool) (l : list A) :
  List.filter f (List.filter g l) = List.filter (fun x => g x && f x) l.
Proof.
  induction l as [|x l IH]; cbn; [reflexivity|].
  destruct (g x); cbn; [destruct (f x)|]; now rewrite IH.
Qed.

End ViewFilterFacts.

Lemma digitsOf_abs (n : Z) :
  n <> 0%Z -> ViewFilter.digitsOf n = Js.showZ (Z.abs n).
Proof.
  intros Hn. unfold ViewFilter.digitsOf, replaceAll, ViewFilter.non_digit_pattern.
  rewrite replace_chr_filter by lia.
  assert (Hkeep : forall l, forallb Chars.isDigit l = true ->
            List.filter (fun c => negb (negb (Chars.isDigit c))) l = l).
  { intros l H. apply filter_all, forallb_forall. intros x Hx.
    rewrite negb_involutive. revert x Hx. now apply forallb_forall. }
  destruct n as [|p|p]; [contradiction | |]; cbn [Z.abs];
    destruct (chars_to_uint p) as (_ & Hd & _).
  - rewrite Hkeep; [apply string_of_list_ascii_of_string | exact Hd].
  - change (Js.showZ (Z.neg p))
      with (String "-" (NilEmpty.string_of_uint (Pos.to_uint p))).
    cbn [list_ascii_of_string List.filter].
    change (negb (negb (Chars.isDigit "-"))) with false. cbn iota.
    rewrite Hkeep by exact Hd. apply string_of_list_ascii_of_string.
Qed.

Lemma hasMinViews_abs (minViews : Z) (video : SearchRoute.Video) :
  ViewFilter.hasMinViews minViews video =
  match SearchRoute.views video with
  | Some n => negb (n =? 0)%Z && (minViews <=? Z.abs n)%Z
  | None => false
  end.
Proof.
  unfold ViewFilter.hasMinViews.
  destruct (SearchRoute.views video) as [n|]; [|reflexivity].
  destruct (Z.eqb_spec n 0) as [->|Hn]; [reflexivity|].
  now rewrite digitsOf_abs, parseInt_showZ_any.
Qed.

(** X7.  The two filters of the search route amount to one: an item is kept,
    in its place, when it is a video, is recent if recency is asked for, and,
    if a positive minimum of views is given, has a view count that is not
    zero and whose magnitude reaches the minimum. *)
Theorem filteredVideos_one_filter (DateOf : string -> option Z) (twoYearsAgo : Z)
    (recent : bool) (minViews : Z) (items : list SearchRoute.Video) :
  (forall video n, In video items -> SearchRoute.views video = Some n ->
                   Further.safeInteger n) ->
  ViewFilter.filteredVideos DateOf twoYearsAgo recent minViews items
  = List.filter
      (fun video =>
         String.eqb (SearchRoute.type video) "video"
         && implb recent (SearchRoute.isRecent DateOf twoYearsAgo video)
         && implb (0 <? minViews)%Z
              match SearchRoute.views video with
              | Some n => negb (n =? 0)%Z && (minViews <=? Z.abs n)%Z
              | None => false
              end)
      items.
Proof.
  intros _. unfold ViewFilter.filteredVideos, SearchRoute.recentVideos.
  destruct recent, (0 <? minViews)%Z; cbn [implb];
    rewrite ?filter_filter; apply filter_ext; intros video;
    rewrite ?hasMinViews_abs, ?andb_true_r, ?andb_assoc; reflexivity.
Qed.

Lemma filteredVideos_one_filter_witness :
  ViewFilter.filteredVideos SearchRoute.rejectAll 0 false 1000
    [SearchRoute.mkVideo "video" "a" "A" (Some 999%Z) None;
     SearchRoute.mkVideo "channel" "b" "B" (Some 5000%Z) None;
     SearchRoute.mkVideo "video" "c" "C" (Some 1000%Z) None;
     SearchRoute.mkVideo "video" "d" "D" None None]
  = [SearchRoute.mkVideo "video" "c" "C" (Some 1000%Z) None].
Proof.
  apply (filteredVideos_one_filter SearchRoute.rejectAll 0 false 1000
           [SearchRoute.mkVideo "video" "a" "A" (Some 999%Z) None;
            SearchRoute.mkVideo "channel" "b" "B" (Some 5000%Z) None;
            SearchRoute.mkVideo "video" "c" "C" (Some 1000%Z) None;
            SearchRoute.mkVideo "video" "d" "D" None None]).
  intros video n Hin Hv. unfold Further.safeInteger.
  cbn [In] in Hin.
  destruct Hin as [<-|[<-|[<-|[<-|[]]]]]; cbn in Hv; try discriminate Hv;
    injection Hv as <-; cbn; lia.
Defined.

(** ** lib/youtube/base-tool.ts: durations and dates *)

Section FormattingFacts.

Import BaseTool.

Lemma padStart2_twoDigits (n : Z) :
  (0 <= n < 60)%Z -> Js.padStart2 (Js.showZ n) = Further.twoDigits n.
Proof.
  intros [Hlo Hhi]. destruct n as [|p|p]; [reflexivity | | lia].
  do 6 (try destruct p as [p|p|]); try lia; reflexivity.
Qed.

(** X8.  For a whole number of seconds that is not negative and below
    2^53, [formatDuration] splits it into hours, minutes and seconds that
    add up to it, minutes and seconds below sixty.  The seconds are always
    written with two digits.  With a full hour the result is
    hours:minutes:seconds and the minutes have two digits as well; without
    one the hours are left out and the minutes are written as they are, not
    padded. *)
Theorem formatDuration_fields (seconds : Z) :
  (0 <= seconds < 2 ^ 53)%Z ->
  exists h m s : Z,
    (seconds = h * 3600 + m * 60 + s /\ 0 <= h /\ 0 <= m < 60 /\ 0 <= s < 60)%Z /\
    formatDuration (Some seconds)
    = (if (0 <? h)%Z
       then Js.showZ h ++ ":" ++ Further.twoDigits m ++ ":" ++ Further.twoDigits s
       else Js.showZ m ++ ":" ++ Further.twoDigits s)%string.
Proof.
  intros [Hs _].
  exists (seconds / 3600)%Z, (seconds mod 3600 / 60)%Z, (seconds mod 60)%Z.
  assert (Hm : (0 <= seconds mod 3600 / 60 < 60)%Z).
  { pose proof (Z.mod_pos_bound seconds 3600 ltac:(lia)).
    split; [apply Z.div_pos; lia | apply Z.div_lt_upper_bound; lia]. }
  assert (Hsec : (0 <= seconds mod 60 < 60)%Z)
    by (apply Z.mod_pos_bound; lia).
  split.
  - repeat split; try lia; [|apply Z.div_pos; lia].
    pose proof (Z.div_mod seconds 3600 ltac:(lia)) as H1.
    pose proof (Z.div_mod (seconds mod 3600) 60 ltac:(lia)) as H2.
    assert (H3 : ((seconds mod 3600) mod 60 = seconds mod 60)%Z).
    { apply Z.mod_mod_divide. exists 60%Z. reflexivity. }
    lia.
  - unfold formatDuration.
    rewrite !Z.rem_mod_nonneg by lia.
    rewrite !padStart2_twoDigits by assumption.
    reflexivity.
Qed.

Lemma formatDuration_fields_witness :
  exists h m s : Z,
    (65 = h * 3600 + m * 60 + s /\ 0 <= h /\ 0 <= m < 60 /\ 0 <= s < 60)%Z /\
    "1:05"
    = (if (0 <? h)%Z
       then Js.showZ h ++ ":" ++ Further.twoDigits m ++ ":" ++ Further.twoDigits s
       else Js.showZ m ++ ":" ++ Further.twoDigits s)%string.
Proof. apply (formatDuration_fields 65). lia. Defined.

Lemma formatDate_eight (d : string) :
  String.length d = 8%nat ->
  exists c1 c2 c3 c4 c5 c6 c7 c8,
    d = string_of_list_ascii [c1; c2; c3; c4; c5; c6; c7; c8] /\
    formatDate (Some d)
    = string_of_list_ascii [c1; c2; c3; c4; "-"%char; c5; c6; "-"%char; c7; c8].
Proof.
  intros H.
  destruct d as [|c1 [|c2 [|c3 [|c4 [|c5 [|c6 [|c7 [|c8 [|c9 d]]]]]]]]];
    try discriminate H.
  exists c1, c2, c3, c4, c5, c6, c7, c8. split; reflexivity.
Qed.

(** X9.  [formatDate] answers "Unknown" exactly when the date is missing or
    is not 8 characters long; it looks at nothing else.  For 8 characters
    the answer has 10, and taking the two dashes out of it gives the date
    back. *)
Theorem formatDate_spec :
  (forall dateStr,
     formatDate dateStr = "Unknown" <->
     match dateStr with
     | Some d => String.length d <> 8%nat
     | None => True
     end) /\
  (forall d, String.length d = 8%nat ->
     String.length (formatDate (Some d)) = 10%nat /\
     (slice 0 4 (formatDate (Some d)) ++ slice 5 7 (formatDate (Some d))
        ++ slice 8 10 (formatDate (Some d)))%string = d /\
     slice 4 5 (formatDate (Some d)) = "-" /\
     slice 7 8 (formatDate (Some d)) = "-").
Proof.
  split.
  - intros [d|]; [|easy].
    destruct (Nat.eq_dec (String.length d) 8) as [H8|Hn].
    + destruct (formatDate_eight d H8)
        as (c1 & c2 & c3 & c4 & c5 & c6 & c7 & c8 & _ & ->).
      split; [discriminate | contradiction].
    + split; [easy|]. intros _. unfold formatDate.
      apply Nat.eqb_neq in Hn. rewrite Hn. now rewrite orb_true_r.
  - intros d H8.
    destruct (formatDate_eight d H8)
      as (c1 & c2 & c3 & c4 & c5 & c6 & c7 & c8 & -> & ->).
    repeat split; reflexivity.
Qed.

End FormattingFacts.

Lemma formatDate_spec_witness :
  BaseTool.formatDate (Some "20240131") = "2024-01-31" /\
  BaseTool.formatDate (Some "2024-01-31") = "Unknown".
Proof.
  destruct formatDate_spec as [Hunknown Hback]. split.
  - destruct (Hback "20240131" eq_refl) as (_ & _ & _ & _). reflexivity.
  - apply (Hunknown (Some "2024-01-31")). cbn. lia.
Defined.

(** ** Identifiers, modes and cache keys *)

Section StringFacts.

Lemma chars_append (a b : string) :
  list_ascii_of_string (a ++ b)
  = list_ascii_of_string a ++ list_ascii_of_string b.
Proof.
  induction a as [|c a IH]; [reflexivity|].
  change (list_ascii_of_string (String c (a ++ b))
          = c :: (list_ascii_of_string a ++ list_ascii_of_string b)).
  cbn [list_ascii_of_string]. now rewrite IH.
Qed.

Lemma string_of_app (l1 l2 : list ascii) :
  string_of_list_ascii (l1 ++ l2)
  = (string_of_list_ascii l1 ++ string_of_list_ascii l2)%string.
Proof.
  rewrite <- (string_of_list_ascii_of_string (_ ++ _)%string), chars_append.
  now rewrite !list_ascii_of_string_of_list_ascii.
Qed.

Lemma append_inj_length (a b c d : string) :
  String.length a = String.length b ->
  (a ++ c)%string = (b ++ d)%string -> a = b /\ c = d.
Proof.
  revert b. induction a as [|x a IH]; intros [|y b] Hlen H; try discriminate Hlen.
  - auto.
  - change (String x (a ++ c) = String y (b ++ d))%string in H.
    injection H as -> H. injection Hlen as Hlen.
    destruct (IH b Hlen H) as [-> ->]. auto.
Qed.

End StringFacts.

(** A match of the URL pattern takes its identifier out of the input. *)
Lemma exec_youtube_pattern_within (s : string) (m : MatchResult) :
  exec youtube_pattern s = Some m ->
  exists id before after,
    group 1 m = Some id /\ s = (before ++ id ++ after)%string.
Proof.
  unfold exec. intros H.
  apply search_sound in H as (pre & t & s' & Hs & H).
  unfold matchAt, youtube_pattern in H. cbn [rmatch] in H.
  apply rmatch_sound in H as (s1 & caps1 & M1 & H).
  apply rmatch_sound in H as (s2 & caps2 & M & H).
  injection H as _ Hg.
  destruct (Matches_consumes _ (fun _ => false) _ _ _ M1) as (w0 & -> & _).
  apply (Matches_Rep_elim _ Chars.isIdChar 11%nat) in M as (w & -> & Hlen & Hall).
  exists (string_of_list_ascii w), (string_of_list_ascii (pre ++ w0)),
    (string_of_list_ascii s2).
  split.
  - unfold group. rewrite <- Hg. cbn [capture Nat.eqb option_map].
    rewrite length_app, Nat.add_sub, firstn_app, Hlen, Nat.sub_diag.
    rewrite <- Hlen, firstn_all. cbn [firstn]. now rewrite app_nil_r.
  - rewrite <- !string_of_app, <- app_assoc, <- Hs.
    symmetry. apply string_of_list_ascii_of_string.
Qed.

(** X10.  [extractVideoId] has two outcomes only.  It returns 11
    identifier characters that stand, together, somewhere in the input; or
    it throws the error that names the input, and then the input holds no
    match of the URL pattern and is no bare identifier. *)
Theorem extractVideoId_cases (s : string) :
  match extractVideoId s with
  | Return id =>
      isBareId id /\ exists before after, s = (before ++ id ++ after)%string
  | Throw e =>
      e = ErrorObj ("Could not extract valid YouTube video ID from: " ++ s) /\
      ~ containsMatch youtube_pattern s /\ ~ isBareId s
  end.
Proof.
  destruct (extractVideoId s) as [id|e] eqn:E.
  - split; [eapply extractVideoId_returns_id; exact E|].
    unfold extractVideoId in E.
    destruct (exec youtube_pattern s) as [m|] eqn:Em.
    + apply exec_youtube_pattern_within in Em as (id' & before & after & Hg & Hs).
      rewrite Hg in E. injection E as <-. eauto.
    + destruct (test bare_id_pattern s); [|discriminate E].
      injection E as <-. exists "", "".
      symmetry. apply append_empty_r.
  - split; [|eapply extractVideoId_throws_only; exact E].
    unfold extractVideoId in E.
    destruct (exec youtube_pattern s) as [m|].
    + destruct (group 1 m); discriminate E.
    + destruct (test bare_id_pattern s); [discriminate E|]. now injection E as <-.
Qed.

(** X11.  When the download tool accepts an input, the video reference is an
    identifier and the mode is one of the three known ones: a mode other
    than the default is what stands after the bar, trimmed and in lower
    case, and anything else after the bar silently selects the default. *)
Theorem downloadParseInput_result (input videoId mode : string) :
  Tools.downloadParseInput input = Return (videoId, mode) ->
  isBareId videoId /\
  (mode = "metadata_only" \/ mode = "audio_info" \/ mode = "formats") /\
  (mode <> "metadata_only" ->
   exists first param,
     Js.splitLimit "|" 2 input = [first; param] /\
     Js.toLowerCase (Js.trim param) = mode).
Proof.
  unfold Tools.downloadParseInput.
  assert (Hlen : (length (Js.splitLimit "|" 2 input) <= 2)%nat)
    by apply firstn_le_length.
  destruct (extractVideoId _) as [id|e] eqn:E; [|discriminate].
  intros [= <- <-].
  split; [eapply extractVideoId_returns_id; exact E|].
  destruct (Js.splitLimit "|" 2 input) as [|first [|param rest]];
    [split; [auto | congruence] ..|].
  destruct rest; [|cbn in Hlen; lia].
  destruct (String.eqb_spec (Js.toLowerCase (Js.trim param)) "audio_info") as [Ha|Ha];
    [|destruct (String.eqb_spec (Js.toLowerCase (Js.trim param)) "formats") as [Hf|Hf]];
    cbn [orb].
  - split; [rewrite Ha; auto | eauto].
  - split; [rewrite Hf; auto | eauto].
  - split; [auto | congruence].
Qed.

Lemma downloadParseInput_result_witness :
  isBareId "dQw4w9WgXcQ" /\
  ("audio_info" = "metadata_only" \/ "audio_info" = "audio_info"
   \/ "audio_info" = "formats") /\
  ("audio_info" <> "metadata_only" ->
   exists first param,
     Js.splitLimit "|" 2 "https://youtu.be/dQw4w9WgXcQ | Audio_Info "
     = [first; param] /\
     Js.toLowerCase (Js.trim param) = "audio_info").
Proof.
  apply (downloadParseInput_result
           "https://youtu.be/dQw4w9WgXcQ | Audio_Info " "dQw4w9WgXcQ" "audio_info").
  vm_compute. reflexivity.
Defined.

(** X12.  For identifiers, the cache keys of the transcript tool and of the
    download tool tell requests apart: two keys are equal only when the
    videos are the same and so are the languages in effect (a missing and
    an empty language are the same), respectively the modes. *)
Theorem cache_keys_injective :
  (forall id1 id2 language1 language2,
     isBareId id1 -> isBareId id2 ->
     Tools.transcriptCacheKey id1 language1 = Tools.transcriptCacheKey id2 language2 ->
     id1 = id2 /\ Further.effective language1 = Further.effective language2) /\
  (forall id1 id2 mode1 mode2,
     isBareId id1 -> isBareId id2 ->
     Tools.downloadCacheKey id1 mode1 = Tools.downloadCacheKey id2 mode2 ->
     id1 = id2 /\ mode1 = mode2).
Proof.
  split.
  - intros id1 id2 l1 l2 [H1 _] [H2 _] H.
    unfold Tools.transcriptCacheKey in H.
    apply append_inj_length in H as [-> H]; [|congruence].
    split; [reflexivity|]. unfold Further.effective.
    destruct l1 as [l1|], l2 as [l2|]; cbn [Tools.truthy default] in H |- *;
      try destruct (String.eqb_spec l1 ""); try destruct (String.eqb_spec l2 "");
      cbn [negb] in H |- *; try reflexivity; try discriminate H.
    change (String "_" l1 = String "_" l2) in H. now injection H as ->.
  - intros id1 id2 m1 m2 [H1 _] [H2 _] H.
    unfold Tools.downloadCacheKey in H.
    apply append_inj_length in H as [-> H]; [|congruence].
    change (String "_" m1 = String "_" m2) in H. now injection H as ->.
Qed.

Lemma cache_keys_injective_witness :
  "dQw4w9WgXcQ" = "dQw4w9WgXcQ" /\
  Further.effective (Some "") = Further.effective None.
Proof.
  apply (proj1 cache_keys_injective "dQw4w9WgXcQ" "dQw4w9WgXcQ" (Some "") None);
    first [reflexivity | split; reflexivity].
Defined.

(** ** The address forms of a video *)

Section PatternShape.

Context {A : Type}.
Variable total : nat.

(** The URL pattern with its two open-ended parts and its group left
    abstract: [a1] is the two-segment path form, [o] the parameters in front
    of [v=]. *)
Variables a1 o g : regex.

Local Notation "'shape'" :=
  (Seq (Alt (Seq (Lit "youtube.com/")
              (Alt a1
              (Alt (Seq (Alt (Lit "v") (Seq (Lit "e") (Opt (Lit "mbed")))) (Lit "/"))
              (Alt (Seq (Lit "watch?") (Seq (Opt o) (Lit "v=")))
                   (Lit "shorts/")))))
           (Lit "youtu.be/"))
      g) (only parsing).

Variable k : list ascii -> captures -> option A.

Lemma shape_not_y c rest :
  Chars.isChar "y" c = false -> rmatch total shape (c :: rest) [] k = None.
Proof. intros H. cbn in H |- *. now rewrite H. Qed.

Lemma shape_watch tail :
  (forall caps k', rmatch (A := A) total a1
                     (list_ascii_of_string "watch?v=" ++ tail) caps k' = None) ->
  (forall caps k', rmatch (A := A) total o
                     (list_ascii_of_string "v=" ++ tail) caps k' = None) ->
  rmatch total shape (list_ascii_of_string "youtube.com/watch?v=" ++ tail) [] k
  = rmatch total g tail [] k.
Proof. intros H1 H2. cbn in H1, H2. cbn. rewrite H1, H2.
  now destruct (rmatch total g tail [] k).
Qed.

Lemma shape_youtu_be tail :
  rmatch total shape (list_ascii_of_string "youtu.be/" ++ tail) [] k
  = rmatch total g tail [] k.
Proof. cbn. now destruct (rmatch total g tail [] k). Qed.

Lemma shape_embed tail :
  (forall caps k', rmatch (A := A) total a1
                     (list_ascii_of_string "embed/" ++ tail) caps k' = None) ->
  rmatch total shape (list_ascii_of_string "youtube.com/embed/" ++ tail) [] k
  = rmatch total g tail [] k.
Proof. intros H1. cbn in H1. cbn. rewrite H1.
  now destruct (rmatch total g tail [] k).
Qed.

Lemma shape_shorts tail :
  (forall caps k', rmatch (A := A) total a1
                     (list_ascii_of_string "shorts/" ++ tail) caps k' = None) ->
  rmatch total shape (list_ascii_of_string "youtube.com/shorts/" ++ tail) [] k
  = rmatch total g tail [] k.
Proof. intros H1. cbn in H1. cbn. rewrite H1.
  now destruct (rmatch total g tail [] k).
Qed.

Lemma shape_v tail :
  (forall caps k', rmatch (A := A) total a1
                     (list_ascii_of_string "v/" ++ tail) caps k' = None) ->
  rmatch total shape (list_ascii_of_string "youtube.com/v/" ++ tail) [] k
  = rmatch total g tail [] k.
Proof. intros H1. cbn in H1. cbn. rewrite H1.
  now destruct (rmatch total g tail [] k).
Qed.

Lemma shape_e tail :
  (forall caps k', rmatch (A := A) total a1
                     (list_ascii_of_string "e/" ++ tail) caps k' = None) ->
  rmatch total shape (list_ascii_of_string "youtube.com/e/" ++ tail) [] k
  = rmatch total g tail [] k.
Proof.
  intros H1. cbn in H1. cbn. rewrite H1.
  now destruct (rmatch total g tail [] k).
Qed.

End PatternShape.

Section UrlFacts.

Variable total : nat.

Lemma none_of_has (P : ascii -> bool) (w : list ascii) :
  forallb (fun c => negb (P c)) w = true -> existsb P w = true -> False.
Proof.
  induction w as [|c w IH]; cbn; [discriminate|].
  intros [Hc Hw]%andb_true_iff [E|E]%orb_true_iff; [|auto].
  rewrite E in Hc. discriminate.
Qed.

(** A pattern all of whose words hold a character that the text lacks does
    not match, whatever comes after it. *)
Lemma rmatch_needs_fail {A : Type} (P : ascii -> bool) (r : regex) s caps
    (k : list ascii -> captures -> option A) :
  needs P r = true -> forallb (fun c => negb (P c)) s = true ->
  rmatch total r s caps k = None.
Proof.
  intros Hn Hs. destruct (rmatch total r s caps k) as [x|] eqn:E; [|reflexivity].
  exfalso. apply rmatch_sound in E as (s' & caps' & M & _).
  destruct (Matches_consumes total P _ _ _ M) as (w & -> & Hw).
  rewrite forallb_app in Hs. apply andb_true_iff in Hs as [Hs _].
  eapply none_of_has; eauto.
Qed.

Lemma slashes_app (a b : list ascii) :
  Further.slashes (a ++ b) = (Further.slashes a + Further.slashes b)%nat.
Proof. unfold Further.slashes. now rewrite List.filter_app, length_app. Qed.

Lemma slashes_has (w : list ascii) :
  existsb (Chars.isChar "/") w = true -> (1 <= Further.slashes w)%nat.
Proof.
  unfold Further.slashes. induction w as [|c w IH]; cbn [existsb List.filter];
    [discriminate|].
  destruct (Chars.isChar "/" c); cbn [orb length]; [lia | exact IH].
Qed.

(** The two-segment path form needs two slashes. *)
Lemma two_segments_fail {A : Type} s caps (k : list ascii -> captures -> option A) :
  (Further.slashes s <= 1)%nat ->
  rmatch total
    (Seq (Plus true (Chr Chars.isPathSegChar))
       (Seq (Lit "/") (Seq (Plus true (Chr Chars.isNonSpace)) (Lit "/"))))
    s caps k = None.
Proof.
  intros Hs.
  destruct (rmatch total _ s caps k) as [x|] eqn:E; [|reflexivity].
  exfalso. apply rmatch_sound in E as (s' & caps' & M & _).
  inversion M as [| |? ? ? s1 ? M1 M2| | | | | | |]; subst.
  inversion M2 as [| |? ? ? s2 ? M3 M4| | | | | | |]; subst.
  inversion M3 as [| |? ? ? s3 ? M5 M6| | | | | | |]; subst.
  inversion M5 as [|? c ? Hc| | | | | | | |]; subst. inversion M6; subst.
  destruct (Matches_consumes total (fun _ => false) _ _ _ M1) as (w1 & -> & _).
  destruct (Matches_consumes total (Chars.isChar "/") _ _ _ M4) as (w & -> & Hw).
  pose proof (slashes_has w (Hw ltac:(vm_compute; reflexivity))) as H1.
  change (c :: w ++ s') with ([c] ++ w ++ s') in Hs.
  rewrite !slashes_app in Hs.
  assert (Further.slashes [c] = 1%nat)
    by (unfold Further.slashes; cbn [List.filter]; now rewrite Hc).
  lia.
Qed.

Lemma rmatch_Rep_run {A : Type} (p : ascii -> bool) (w s : list ascii) caps
    (k : list ascii -> captures -> option A) :
  forallb p w = true ->
  rmatch total (Rep (length w) (Chr p)) (w ++ s) caps k = k s caps.
Proof.
  induction w as [|c w IH]; cbn [forallb length Rep rmatch app]; [reflexivity|].
  intros [-> Hw]%andb_true_iff. now apply IH.
Qed.

Lemma idChar_plain (w : list ascii) :
  forallb Chars.isIdChar w = true ->
  forallb (fun c => negb (Chars.oneOf "/&" c)) w = true.
Proof.
  intros H. apply forallb_forall. intros c Hc.
  apply (proj1 (forallb_forall _ _) H) in Hc.
  destruct c as [[] [] [] [] [] [] [] []]; try discriminate Hc; reflexivity.
Qed.

Lemma plain_no_slash (w : list ascii) :
  forallb (fun c => negb (Chars.oneOf "/&" c)) w = true ->
  Further.slashes w = 0%nat /\
  forallb (fun c => negb (Chars.isChar "&" c)) w = true.
Proof.
  unfold Further.slashes. induction w as [|c w IH]; cbn [forallb List.filter];
    [auto|].
  intros [Hc Hw]%andb_true_iff. destruct (IH Hw) as [IH1 IH2].
  assert (Chars.isChar "/" c = false /\ Chars.isChar "&" c = false) as [-> ->]
    by (destruct c as [[] [] [] [] [] [] [] []]; try discriminate Hc;
        split; reflexivity).
  auto.
Qed.

Lemma group_of_run (id rest : list ascii) :
  length id = 11%nat -> forallb Chars.isIdChar id = true ->
  rmatch total (Group 1 (Rep 11 (Chr Chars.isIdChar))) (id ++ rest) []
    (fun s' caps => Some (s', caps))
  = Some (rest, [(1%nat, id)]).
Proof.
  intros Hlen Hid. cbn [rmatch]. rewrite <- Hlen at 1.
  rewrite rmatch_Rep_run by exact Hid.
  rewrite length_app, Nat.add_sub, firstn_app, Nat.sub_diag, firstn_all.
  cbn [firstn]. now rewrite app_nil_r.
Qed.

Lemma matchAt_form (form : string) (id rest : list ascii) :
  In form Further.urlForms ->
  length id = 11%nat -> forallb Chars.isIdChar id = true ->
  forallb (fun c => negb (Chars.oneOf "/&" c)) rest = true ->
  matchAt total youtube_pattern (list_ascii_of_string form ++ id ++ rest)
  = Some (rest, [(1%nat, id)]).
Proof.
  intros Hform Hlen Hid Hrest.
  assert (Htail : forallb (fun c => negb (Chars.oneOf "/&" c)) (id ++ rest) = true)
    by (rewrite forallb_app, idChar_plain, Hrest; auto).
  destruct (plain_no_slash _ Htail) as [Hslash Hamp].
  assert (Hone : forall w : string,
            (Further.slashes (list_ascii_of_string w) <= 1)%nat ->
            (Further.slashes (list_ascii_of_string w ++ id ++ rest) <= 1)%nat)
    by (intros w Hw; rewrite slashes_app, Hslash; lia).
  unfold matchAt, youtube_pattern, youtube_prefix.
  cbn [In Further.urlForms] in Hform.
  destruct Hform as [<-|[<-|[<-|[<-|[<-|[<-|[]]]]]]].
  - rewrite shape_watch.
    + now apply group_of_run.
    + intros caps k'. apply two_segments_fail, Hone. cbn. lia.
    + intros caps k'.
      apply (rmatch_needs_fail (Chars.isChar "&")); [vm_compute; reflexivity|].
      rewrite forallb_app, Hamp. reflexivity.
  - rewrite shape_youtu_be. now apply group_of_run.
  - rewrite shape_embed; [now apply group_of_run|].
    intros caps k'. apply two_segments_fail, Hone. cbn. lia.
  - rewrite shape_shorts; [now apply group_of_run|].
    intros caps k'. apply two_segments_fail, Hone. cbn. lia.
  - rewrite shape_v; [now apply group_of_run|].
    intros caps k'. apply two_segments_fail, Hone. cbn. lia.
  - rewrite shape_e; [now apply group_of_run|].
    intros caps k'. apply two_segments_fail, Hone. cbn. lia.
Qed.

Lemma search_skip_y (before t : list ascii) :
  forallb (fun c => negb (Chars.oneOf "y" c)) before = true ->
  search total youtube_pattern (before ++ t) = search total youtube_pattern t.
Proof.
  induction before as [|c before IH]; cbn [forallb app]; [reflexivity|].
  intros [Hc Hb]%andb_true_iff. rewrite search_unfold.
  assert (Hy : Chars.isChar "y" c = false)
    by (destruct c as [[] [] [] [] [] [] [] []]; try discriminate Hc; reflexivity).
  unfold matchAt at 1, youtube_pattern at 1, youtube_prefix.
  rewrite shape_not_y by exact Hy. now apply IH.
Qed.

End UrlFacts.

(** X13.  An address of one of the known forms (watch, youtu.be, embed,
    shorts, [/v/], [/e/]) followed by an identifier yields that identifier,
    whatever stands in front of the host name as long as it holds no [y]
    (a scheme, [www.], [m.]), and whatever follows the identifier as long
    as it holds no slash and no ampersand. *)
Theorem extractVideoId_url_forms (before form id after : string) :
  In form Further.urlForms ->
  isBareId id ->
  Further.without "y" before = true ->
  Further.without "/&" after = true ->
  extractVideoId (before ++ form ++ id ++ after) = Return id.
Proof.
  intros Hform [Hlen Hid] Hbefore Hafter.
  rewrite <- length_list_ascii_of_string in Hlen.
  unfold extractVideoId, exec. rewrite !chars_append.
  rewrite search_skip_y by exact Hbefore.
  rewrite search_unfold, (matchAt_form _ form) by assumption.
  unfold group. cbn [groups capture Nat.eqb option_map].
  now rewrite string_of_list_ascii_of_string.
Qed.

Lemma extractVideoId_url_forms_witness :
  extractVideoId "https://www.youtube.com/watch?v=dQw4w9WgXcQ?t=42"
  = Return "dQw4w9WgXcQ".
Proof.
  apply (extractVideoId_url_forms "https://www." "youtube.com/watch?v="
           "dQw4w9WgXcQ" "?t=42").
  - cbn. auto.
  - split; reflexivity.
  - reflexivity.
  - reflexivity.
Defined.

(** ** The parameters of a search *)

Section ParameterFacts.

Import Discovery.

Lemma inList_In (ws : list string) (v : string) :
  Js.inList ws v = true -> In v ws.
Proof.
  unfold Js.inList. intros H. apply existsb_exists in H as (w & Hin & Heq).
  apply String.eqb_eq in Heq. now subst w.
Qed.

Lemma applyParam_keeps (P : SearchParams -> Prop) :
  (forall params c, P params ->
     P {| count := Z.min c 20; sort := sort params; recent := recent params;
          minViews := minViews params; duration := duration params |}) ->
  (forall params v, P params -> In v ["relevance"; "date"; "views"; "rating"] ->
     P {| count := count params; sort := v; recent := recent params;
          minViews := minViews params; duration := duration params |}) ->
  (forall params, P params ->
     P {| count := count params; sort := sort params; recent := true;
          minViews := minViews params; duration := duration params |}) ->
  (forall params m, P params ->
     P {| count := count params; sort := sort params; recent := recent params;
          minViews := m; duration := duration params |}) ->
  (forall params v, P params -> In v ["short"; "medium"; "long"] ->
     P {| count := count params; sort := sort params; recent := recent params;
          minViews := minViews params; duration := Some v |}) ->
  forall params param, P params -> P (applyParam params param).
Proof.
  intros Hcount Hsort Hrecent Hviews Hduration params param HP.
  unfold applyParam.
  destruct (Js.includes "=" (Js.trim param)); [|exact HP].
  destruct (map _ _) as [|key [|value rest]]; try exact HP.
  destruct (String.eqb key "count").
  { destruct (Js.parseInt value); [now apply Hcount | exact HP]. }
  destruct (String.eqb key "sort" && _) eqn:E1.
  { apply andb_true_iff in E1 as [_ E1]. apply Hsort; [exact HP|].
    now apply inList_In. }
  destruct (String.eqb key "recent" && _); [now apply Hrecent|].
  destruct (String.eqb key "min_views").
  { destruct (Js.parseInt value); [now apply Hviews | exact HP]. }
  destruct (String.eqb key "duration" && _) eqn:E2; [|exact HP].
  apply andb_true_iff in E2 as [_ E2]. apply Hduration; [exact HP|].
  now apply inList_In.
Qed.

Lemma fold_applyParam_keeps (P : SearchParams -> Prop) :
  (forall params param, P params -> P (applyParam params param)) ->
  forall tokens params, P params -> P (fold_left applyParam tokens params).
Proof.
  intros Hstep tokens. induction tokens as [|t tokens IH]; intros params HP;
    cbn [fold_left]; [exact HP|]. apply IH, Hstep, HP.
Qed.

(** X14.  Whatever the input, the parameters that [parseInput] returns are
    within their domains: the sort key is one of the four known keys, the
    duration is missing or one of the three known classes, and the count is
    at most 20. *)
Theorem parseInput_within_domains (input : string) :
  let params := snd (parseInput input) in
  In (sort params) ["relevance"; "date"; "views"; "rating"] /\
  (count params <= 20)%Z /\
  match duration params with
  | Some d => In d ["short"; "medium"; "long"]
  | None => True
  end.
Proof.
  set (P := fun params : SearchParams =>
              In (sort params) ["relevance"; "date"; "views"; "rating"] /\
              (count params <= 20)%Z /\
              match duration params with
              | Some d => In d ["short"; "medium"; "long"]
              | None => True
              end).
  assert (Hdefault : P defaultParams) by (unfold P; cbn; intuition lia).
  assert (Hstep : forall params param, P params -> P (applyParam params param)).
  { apply applyParam_keeps; unfold P; cbn [sort count duration];
      intros; intuition lia. }
  cbn zeta. change (P (snd (parseInput input))).
  unfold parseInput. cbn [snd].
  destruct (Js.splitLimit "|" 2 input) as [|part0 [|part1 rest]];
    try exact Hdefault.
  now apply fold_applyParam_keeps.
Qed.

Lemma splitL_at (sep : ascii) (a rest : list ascii) :
  forallb (fun c => negb (Ascii.eqb c sep)) a = true ->
  Js.splitL sep (a ++ sep :: rest) = a :: Js.splitL sep rest.
Proof.
  induction a as [|c a IH]; cbn [forallb app Js.splitL].
  - intros _. now rewrite Ascii.eqb_refl.
  - intros [Hc Ha]%andb_true_iff. apply negb_true_iff in Hc. rewrite Hc.
    now rewrite IH.
Qed.

Lemma splitL_whole (sep : ascii) (a : list ascii) :
  forallb (fun c => negb (Ascii.eqb c sep)) a = true -> Js.splitL sep a = [a].
Proof.
  induction a as [|c a IH]; cbn [forallb Js.splitL]; [reflexivity|].
  intros [Hc Ha]%andb_true_iff. apply negb_true_iff in Hc. rewrite Hc.
  now rewrite IH.
Qed.

Lemma without_bar (s : string) :
  Further.without "|" s = true ->
  forallb (fun c => negb (Ascii.eqb c "|")) (list_ascii_of_string s) = true.
Proof.
  unfold Further.without.
  induction (list_ascii_of_string s) as [|c l IH]; cbn [forallb]; [reflexivity|].
  intros [Hc Hl]%andb_true_iff. rewrite IH by exact Hl.
  unfold Chars.oneOf in Hc. cbn [list_ascii_of_string existsb] in Hc.
  rewrite orb_false_r in Hc. now rewrite Hc.
Qed.

(** X15.  Of the parameters of a search only those between the first and
    the second bar are read: what follows a second bar is dropped, so
    parameters separated by bars, after the first, have no effect. *)
Theorem parseInput_second_bar (query parameters more : string) :
  Further.without "|" query = true ->
  Further.without "|" parameters = true ->
  parseInput (query ++ "|" ++ parameters ++ "|" ++ more)
  = parseInput (query ++ "|" ++ parameters).
Proof.
  intros Hq Hp. apply without_bar in Hq, Hp.
  assert (H1 : Js.splitLimit "|" 2 (query ++ "|" ++ parameters ++ "|" ++ more)
               = [query; parameters]).
  { unfold Js.splitLimit, Js.split. rewrite !chars_append.
    change (list_ascii_of_string "|") with ["|"%char]. cbn [app].
    rewrite splitL_at by exact Hq. rewrite splitL_at by exact Hp.
    cbn [map firstn]. now rewrite !string_of_list_ascii_of_string. }
  assert (H2 : Js.splitLimit "|" 2 (query ++ "|" ++ parameters)
               = [query; parameters]).
  { unfold Js.splitLimit, Js.split. rewrite !chars_append.
    change (list_ascii_of_string "|") with ["|"%char]. cbn [app].
    rewrite splitL_at by exact Hq. rewrite splitL_whole by exact Hp.
    cbn [map firstn]. now rewrite !string_of_list_ascii_of_string. }
  unfold parseInput. now rewrite H1, H2.
Qed.

End ParameterFacts.

Lemma parseInput_second_bar_witness :
  Discovery.parseInput "cats | count=3 | sort=date"
  = Discovery.parseInput "cats | count=3 ".
Proof.
  apply (parseInput_second_bar "cats " " count=3 " " sort=date"); reflexivity.
Defined.

(** ** The best formats of the catalogue *)

Section BestFacts.

Import DownloadRoute.

(** After sorting, the first element comes before every other element of
    the same bit rate: ties are not reordered. *)
Lemma head_sortWith_first (l : list YtDlp.Format) (f : YtDlp.Format) :
  head (sortWith byAbrDescending l) = Some f ->
  exists before after,
    l = before ++ f :: after /\
    (forall g, In g before -> (abrOrZero g < abrOrZero f)%Q) /\
    (forall g, In g after -> (abrOrZero g <= abrOrZero f)%Q).
Proof.
  revert f. induction l as [|x l IH]; intros f; cbn [sortWith fold_right];
    [discriminate|].
  fold (sortWith byAbrDescending l). rewrite head_insertSorted.
  pose proof (head_sortWith_abr l) as Hmax.
  destruct (sortWith byAbrDescending l) as [|y sorted] eqn:E; cbn [head] in *.
  - intros [= <-]. subst l. exists [], []. repeat split; intros g [].
  - destruct Hmax as [_ Hmax].
    destruct (Qle_bool (byAbrDescending x y) 0) eqn:Hc.
    + intros [= Heq]. subst f. apply Qle_bool_iff in Hc. unfold byAbrDescending in Hc.
      exists [], l. split; [reflexivity|]. split; [intros g []|].
      intros g Hg. specialize (Hmax g Hg). lra.
    + intros [= Heq]. subst f.
      assert (Hlt : (abrOrZero x < abrOrZero y)%Q).
      { destruct (Qlt_le_dec (abrOrZero x) (abrOrZero y)) as [Hlt|Hle];
          [exact Hlt|].
        assert (Qle_bool (byAbrDescending x y) 0 = true)
          by (apply Qle_bool_iff; unfold byAbrDescending; lra).
        congruence. }
      destruct (IH y eq_refl) as (before & after & -> & Hb & Ha).
      exists (x :: before), after. split; [reflexivity|]. split; [|exact Ha].
      intros g [<-|Hg]; [exact Hlt | now apply Hb].
Qed.

Lemma filter_split {X : Type} (p : X -> bool) (l : list X) :
  forall b x a, List.filter p l = b ++ x :: a ->
  exists b' a', l = b' ++ x :: a' /\ List.filter p b' = b /\ List.filter p a' = a.
Proof.
  induction l as [|y l IH]; intros b x a H; cbn [List.filter] in H.
  - destruct b; discriminate H.
  - destruct (p y) eqn:Hy.
    + destruct b as [|z b]; cbn [app] in H; injection H as -> H.
      * exists [], l. auto.
      * destruct (IH _ _ _ H) as (b' & a' & -> & <- & <-).
        exists (z :: b'), a'. cbn [List.filter app]. now rewrite Hy.
    + destruct (IH _ _ _ H) as (b' & a' & -> & <- & <-).
      exists (y :: b'), a'. cbn [List.filter app]. now rewrite Hy.
Qed.

(** X16.  The best audio of the catalogue is the first audio-only entry, in
    the order of the media extractor, among those of the largest bit rate:
    every audio-only entry before it has a smaller bit rate and none after
    it has a larger one (a missing bit rate counts as 0). *)
Theorem getFormatInfo_bestAudio_first ytdlp videoId result title duration
    buckets bestQuality f :
  ytdlp ("https://www.youtube.com/watch?v=" ++ videoId)%string = Return result ->
  getFormatInfo ytdlp videoId
  = FormatCatalogue videoId title duration buckets bestQuality ->
  bestAudio bestQuality = Some f ->
  Further.firstBestAudio (formats result) f.
Proof.
  intros H. unfold getFormatInfo. rewrite H. intros [= _ _ _ <-].
  cbn [bestAudio]. fold isAudioOnly.
  change (fun f => isStr (YtDlp.resolution f) "audio only") with isAudioOnly.
  intros Hhead. apply head_sortWith_first in Hhead as (b & a & Hl & Hb & Ha).
  assert (Hf : isAudioOnly f = true).
  { assert (Hin : In f (List.filter isAudioOnly (formats result)))
      by (rewrite Hl; apply in_or_app; right; left; reflexivity).
    now apply filter_In in Hin as [_ Hin]. }
  apply filter_split in Hl as (b' & a' & Hraw & <- & <-).
  exists b', a'. split; [exact Hraw|]. split; [exact Hf|]. split.
  - intros g Hg Hga. apply Hb, filter_In. auto.
  - intros g Hg Hga. apply Ha, filter_In. auto.
Qed.

Lemma sameStr_iff (x y : option string) : sameStr x y = true <-> x = y.
Proof.
  unfold sameStr. destruct x as [v|], y as [w|];
    try (split; [discriminate | intros [=]]); [|split; reflexivity].
  rewrite String.eqb_eq. split; [now intros -> | now intros [= ->]].
Qed.

(** X17.  The best video of the catalogue, when there is one, is a raw
    format that has the format identifier chosen by the media extractor and
    whose [vcodec] and [acodec] fields are both other than the string
    "none"; a field that is missing passes this test, so the entry need not
    have a video track.  It is never an entry of the video-only class, and
    the best format is then present as well, with the same identifier. *)
Theorem getFormatInfo_bestVideo ytdlp videoId result title duration
    buckets bestQuality f :
  ytdlp ("https://www.youtube.com/watch?v=" ++ videoId)%string = Return result ->
  getFormatInfo ytdlp videoId
  = FormatCatalogue videoId title duration buckets bestQuality ->
  bestVideo bestQuality = Some f ->
  In f (formats result) /\
  YtDlp.format_id f = format_id result /\
  YtDlp.vcodec f <> Some "none" /\
  YtDlp.acodec f <> Some "none" /\
  videoClass f = false /\
  exists f', best bestQuality = Some f' /\
             YtDlp.format_id f' = format_id result.
Proof.
  intros H. unfold getFormatInfo. rewrite H. intros [= _ _ _ <-].
  cbn [bestVideo best]. intros Hfind.
  apply find_some in Hfind as [Hin Hp].
  apply andb_true_iff in Hp as [Hp Hid]. apply andb_true_iff in Hp as [Hv Ha].
  apply negb_true_iff in Hv, Ha. apply sameStr_iff in Hid.
  assert (Hv' : YtDlp.vcodec f <> Some "none")
    by (intros E; apply isStr_iff in E; congruence).
  assert (Ha' : YtDlp.acodec f <> Some "none")
    by (intros E; apply isStr_iff in E; congruence).
  repeat (split; [assumption|]). split.
  - unfold videoClass. rewrite (bool_decide_eq_false_2 _ Ha'). apply andb_false_r.
  - destruct (find _ (formats result)) as [f'|] eqn:E.
    + exists f'. split; [reflexivity|].
      apply find_some in E as [_ E]. now apply sameStr_iff.
    + eapply find_none in E; [|exact Hin]. cbn beta in E.
      apply sameStr_iff in Hid. congruence.
Qed.

End BestFacts.

Lemma getFormatInfo_bestAudio_first_witness :
  Further.firstBestAudio DownloadRoute.sampleFormats DownloadRoute.audioMedium.
Proof.
  apply (getFormatInfo_bestAudio_first DownloadRoute.sampleYtdlp "dQw4w9WgXcQ"
           DownloadRoute.sampleResult (Some "A video") (Some (212 # 1))
           _ _ DownloadRoute.audioMedium eq_refl eq_refl).
  reflexivity.
Defined.

Lemma getFormatInfo_bestVideo_witness :
  YtDlp.format_id DownloadRoute.combined360 = Some "18" /\
  YtDlp.vcodec DownloadRoute.combined360 <> Some "none" /\
  DownloadRoute.videoClass DownloadRoute.combined360 = false.
Proof.
  destruct (getFormatInfo_bestVideo DownloadRoute.sampleYtdlp "dQw4w9WgXcQ"
              DownloadRoute.sampleResult (Some "A video") (Some (212 # 1))
              _ _ DownloadRoute.combined360 eq_refl eq_refl eq_refl)
    as (_ & Hid & Hv & _ & Hclass & _).
  split; [exact Hid|]. split; [exact Hv | exact Hclass].
Defined.

(** ** What the groups of a match hold *)

Section CaptureFacts.

Context {A : Type}.
Variable total : nat.
Variable G : nat -> list ascii -> Prop.

Implicit Types (k : list ascii -> captures -> option A).

Lemma star_loop_captures step g k r :
  (forall s caps k' x, Further.capturesIn G caps -> step s caps k' = Some x ->
     exists s' caps', Matches total r s s' /\ Further.capturesIn G caps' /\
                      k' s' caps' = Some x) ->
  forall fuel s caps x,
    Further.capturesIn G caps ->
    star_loop step g k fuel s caps = Some x ->
    exists s' caps', Matches total (Star g r) s s' /\ Further.capturesIn G caps' /\
                     k s' caps' = Some x.
Proof.
  intros Hstep fuel.
  induction fuel as [|fuel IHf]; intros s caps x HG H; simpl in H.
  - exists s, caps. split; [constructor|]. split; [exact HG|].
    destruct g; [exact H | destruct (k s caps); congruence].
  - match type of H with
    | (if g then match ?again with _ => _ end else _) = _ =>
        assert (Hor : k s caps = Some x \/ again = Some x)
    end.
    { destruct g.
      - match type of H with
        | match ?again with _ => _ end = _ => destruct again
        end; [right; exact H | left; exact H].
      - destruct (k s caps); [left; exact H | right; exact H]. }
    destruct Hor as [Hk | Hagain].
    + exists s, caps. split; [constructor | auto].
    + apply Hstep in Hagain; [|exact HG].
      destruct Hagain as (s1 & caps1 & M1 & HG1 & Hc).
      destruct (Nat.ltb_spec (length s1) (length s)) as [Hlt|]; [|discriminate].
      apply IHf in Hc; [|exact HG1]. destruct Hc as (s2 & caps2 & M2 & HG2 & Hk).
      exists s2, caps2. split; [eapply M_StarS; eassumption | auto].
Qed.

(** The captures of a match come from the groups of the pattern. *)
Lemma rmatch_captures (r : regex) :
  Further.groupsIn total G r ->
  forall s caps k x,
    Further.capturesIn G caps ->
    rmatch total r s caps k = Some x ->
    exists s' caps', Matches total r s s' /\ Further.capturesIn G caps' /\
                     k s' caps' = Some x.
Proof.
  induction r as [|p|r1 IH1 r2 IH2|r1 IH1 r2 IH2|g r IH|n r IH| |];
    intros Hr s caps k x HG H; simpl in H; cbn [Further.groupsIn] in Hr.
  - exists s, caps. split; [constructor | auto].
  - destruct s as [|c s]; [discriminate|].
    destruct (p c) eqn:Hp; [|discriminate].
    exists s, caps. split; [now constructor | auto].
  - destruct Hr as [Hr1 Hr2].
    apply (IH1 Hr1) in H; [|exact HG]. destruct H as (s1 & caps1 & M1 & HG1 & H).
    apply (IH2 Hr2) in H; [|exact HG1]. destruct H as (s2 & caps2 & M2 & HG2 & H).
    exists s2, caps2. split; [econstructor; eassumption | auto].
  - destruct Hr as [Hr1 Hr2].
    destruct (rmatch total r1 s caps k) eqn:E1.
    + injection H as ->. apply (IH1 Hr1) in E1; [|exact HG].
      destruct E1 as (s' & caps' & M1 & HG1 & H).
      exists s', caps'. split; [now apply M_AltL | auto].
    + apply (IH2 Hr2) in H; [|exact HG]. destruct H as (s' & caps' & M2 & HG2 & H).
      exists s', caps'. split; [now apply M_AltR | auto].
  - eapply star_loop_captures; [exact (IH Hr) | exact HG | exact H].
  - destruct Hr as [Hr1 Hn].
    apply (IH Hr1) in H; [|exact HG]. destruct H as (s' & caps' & M1 & HG1 & H).
    eexists s', _. split; [now constructor|]. split; [|exact H].
    intros n' w. cbn [capture].
    destruct (Nat.eqb n' n) eqn:En; [|apply HG1].
    apply Nat.eqb_eq in En. subst n'. intros [= <-]. now apply Hn.
  - destruct (Nat.eqb_spec (length s) total) as [E|]; [|discriminate].
    exists s, caps. split; [now constructor | auto].
  - destruct s; [|discriminate].
    exists [], caps. split; [constructor | auto].
Qed.

(** The same for an input of at most [N] characters: no capture is longer
    than that. *)
Variable N : nat.

Lemma star_loop_captures_within step g k r :
  (forall s caps k' x,
     (length s <= N)%nat ->
     Further.capturesIn (fun n w => G n w /\ (length w <= N)%nat) caps ->
     step s caps k' = Some x ->
     exists s' caps', Matches total r s s' /\
       Further.capturesIn (fun n w => G n w /\ (length w <= N)%nat) caps' /\
       k' s' caps' = Some x) ->
  forall fuel s caps x,
    (length s <= N)%nat ->
    Further.capturesIn (fun n w => G n w /\ (length w <= N)%nat) caps ->
    star_loop step g k fuel s caps = Some x ->
    exists s' caps', Matches total (Star g r) s s' /\
      Further.capturesIn (fun n w => G n w /\ (length w <= N)%nat) caps' /\
      k s' caps' = Some x.
Proof.
  intros Hstep fuel.
  induction fuel as [|fuel IHf]; intros s caps x Hlen HG H; simpl in H.
  - exists s, caps. split; [constructor|]. split; [exact HG|].
    destruct g; [exact H | destruct (k s caps); congruence].
  - match type of H with
    | (if g then match ?again with _ => _ end else _) = _ =>
        assert (Hor : k s caps = Some x \/ again = Some x)
    end.
    { destruct g.
      - match type of H with
        | match ?again with _ => _ end = _ => destruct again
        end; [right; exact H | left; exact H].
      - destruct (k s caps); [left; exact H | right; exact H]. }
    destruct Hor as [Hk | Hagain].
    + exists s, caps. split; [constructor | auto].
    + apply Hstep in Hagain; [|exact Hlen | exact HG].
      destruct Hagain as (s1 & caps1 & M1 & HG1 & Hc).
      destruct (Nat.ltb_spec (length s1) (length s)) as [Hlt|]; [|discriminate].
      apply IHf in Hc; [|lia | exact HG1].
      destruct Hc as (s2 & caps2 & M2 & HG2 & Hk).
      exists s2, caps2. split; [eapply M_StarS; eassumption | auto].
Qed.

Lemma rmatch_captures_within (r : regex) :
  Further.groupsIn total G r ->
  forall s caps k x,
    (length s <= N)%nat ->
    Further.capturesIn (fun n w => G n w /\ (length w <= N)%nat) caps ->
    rmatch total r s caps k = Some x ->
    exists s' caps', Matches total r s s' /\
      Further.capturesIn (fun n w => G n w /\ (length w <= N)%nat) caps' /\
      k s' caps' = Some x.
Proof.
  induction r as [|p|r1 IH1 r2 IH2|r1 IH1 r2 IH2|g r IH|n r IH| |];
    intros Hr s caps k x Hlen HG H; simpl in H; cbn [Further.groupsIn] in Hr.
  - exists s, caps. split; [constructor | auto].
  - destruct s as [|c s]; [discriminate|].
    destruct (p c) eqn:Hp; [|discriminate].
    exists s, caps. split; [now constructor | auto].
  - destruct Hr as [Hr1 Hr2].
    apply (IH1 Hr1) in H; [|exact Hlen | exact HG].
    destruct H as (s1 & caps1 & M1 & HG1 & H).
    assert (Hlen1 : (length s1 <= N)%nat).
    { destruct (Matches_consumes total (fun _ => false) _ _ _ M1) as (w & Hw & _).
      rewrite Hw, length_app in Hlen. lia. }
    apply (IH2 Hr2) in H; [|exact Hlen1 | exact HG1].
    destruct H as (s2 & caps2 & M2 & HG2 & H).
    exists s2, caps2. split; [econstructor; eassumption | auto].
  - destruct Hr as [Hr1 Hr2].
    destruct (rmatch total r1 s caps k) eqn:E1.
    + injection H as ->. apply (IH1 Hr1) in E1; [|exact Hlen | exact HG].
      destruct E1 as (s' & caps' & M1 & HG1 & H).
      exists s', caps'. split; [now apply M_AltL | auto].
    + apply (IH2 Hr2) in H; [|exact Hlen | exact HG].
      destruct H as (s' & caps' & M2 & HG2 & H).
      exists s', caps'. split; [now apply M_AltR | auto].
  - eapply star_loop_captures_within; [exact (IH Hr) | exact Hlen | exact HG | exact H].
  - destruct Hr as [Hr1 Hn].
    apply (IH Hr1) in H; [|exact Hlen | exact HG].
    destruct H as (s' & caps' & M1 & HG1 & H).
    eexists s', _. split; [now constructor|]. split; [|exact H].
    intros n' w. cbn [capture].
    destruct (Nat.eqb n' n) eqn:En; [|apply HG1].
    apply Nat.eqb_eq in En. subst n'. intros [= <-]. split; [now apply Hn|].
    rewrite length_firstn. lia.
  - destruct (Nat.eqb_spec (length s) total) as [E|]; [|discriminate].
    exists s, caps. split; [now constructor | auto].
  - destruct s; [|discriminate].
    exists [], caps. split; [constructor | auto].
Qed.

End CaptureFacts.

(** ** Durations: every string has a value *)

Section DurationFacts.

Variable total : nat.

Lemma Matches_star_chr g p s s' :
  Matches total (Star g (Chr p)) s s' ->
  exists w, s = w ++ s' /\ forallb p w = true.
Proof.
  intros M. remember (Star g (Chr p)) as r eqn:Hr.
  induction M as [| | | | |g' r' s|g' r' s s1 s2 M1 _ Hlt M2 IH| | |];
    try discriminate Hr.
  - exists []. auto.
  - injection Hr as -> ->. destruct (IH eq_refl) as (w & -> & Hw).
    inversion M1 as [|? c ? Hc| | | | | | | |]; subst.
    exists (c :: w). cbn [forallb app]. now rewrite Hc, Hw.
Qed.

Lemma Matches_plus_chr g p s s' :
  Matches total (Plus g (Chr p)) s s' ->
  exists w, s = w ++ s' /\ w <> [] /\ forallb p w = true.
Proof.
  unfold Plus. intros M.
  inversion M as [| |? ? ? s1 ? M1 M2| | | | | | |]; subst.
  inversion M1 as [|? c ? Hc| | | | | | | |]; subst.
  apply Matches_star_chr in M2 as (w & -> & Hw).
  exists (c :: w). cbn [forallb app]. rewrite Hc, Hw. now repeat split.
Qed.

Lemma duration_groups :
  Further.groupsIn total (fun _ w => Further.digitRun w) duration_pattern.
Proof.
  assert (H : forall s s',
            Matches total (Plus true (Chr Chars.isDigit)) s s' ->
            Further.digitRun (firstn (length s - length s') s)).
  { intros s s' M. apply Matches_plus_chr in M as (w & -> & Hne & Hd).
    rewrite length_app, Nat.add_sub, firstn_app, Nat.sub_diag, firstn_all.
    cbn [firstn]. rewrite app_nil_r. now split. }
  unfold duration_pattern, Lit, Opt.
  cbn [Further.groupsIn LitL list_ascii_of_string Plus]. tauto.
Qed.

End DurationFacts.

Lemma decimalValue_bounds (w : list ascii) :
  forallb Chars.isDigit w = true ->
  (0 <= IsoDuration.decimalValue w < 10 ^ Z.of_nat (length w))%Z.
Proof.
  unfold IsoDuration.decimalValue.
  assert (H : forall acc, (0 <= acc)%Z -> forallb Chars.isDigit w = true ->
            (0 <= fold_left
                    (fun acc c => acc * 10 + (Z.of_N (Chars.code c) - 48)) w acc
             < (acc + 1) * 10 ^ Z.of_nat (length w))%Z).
  { induction w as [|c w IH]; intros acc Hacc Hw; cbn [fold_left forallb length] in *;
      [cbn; lia|].
    apply andb_true_iff in Hw as [Hc Hw].
    assert (Hd : (0 <= Z.of_N (Chars.code c) - 48 <= 9)%Z)
      by (destruct c as [[] [] [] [] [] [] [] []]; try discriminate Hc;
          cbn; lia).
    specialize (IH (acc * 10 + (Z.of_N (Chars.code c) - 48))%Z ltac:(lia) Hw).
    rewrite Nat2Z.inj_succ, Z.pow_succ_r by lia.
    assert (Hp : (0 < 10 ^ Z.of_nat (length w))%Z) by (apply Z.pow_pos_nonneg; lia).
    nia. }
  intros Hw. specialize (H 0%Z ltac:(lia) Hw). lia.
Qed.

Lemma group_amount (N : nat) (m : MatchResult) (n : nat) :
  Further.capturesIn
    (fun _ w => Further.digitRun w /\ (length w <= N)%nat) (groups m) ->
  exists v, Js.parseInt (orZero (group n m)) = Some v /\
            (0 <= v < 10 ^ Z.of_nat N)%Z.
Proof.
  intros HG. unfold group.
  assert (Hpos : (0 < 10 ^ Z.of_nat N)%Z) by (apply Z.pow_pos_nonneg; lia).
  destruct (capture n (groups m)) as [w|] eqn:E; cbn [option_map].
  - destruct (HG n w E) as [[Hne Hd] Hlen].
    rewrite orZero_digits, parseInt_digits by assumption.
    eexists. split; [reflexivity|].
    pose proof (decimalValue_bounds w Hd) as Hb.
    assert (10 ^ Z.of_nat (length w) <= 10 ^ Z.of_nat N)%Z
      by (apply Z.pow_le_mono_r; lia).
    lia.
  - exists 0%Z. split; [reflexivity | lia].
Qed.

(** X18.  For a string of at most 12 characters [parseDuration] returns a
    whole number of seconds that is not negative and stays below 2^53: each
    group of a match holds a run of digits, so nothing is NaN, and every
    intermediate value is small enough for the arithmetic of the source to
    be exact. *)
Theorem parseDuration_number (duration : string) :
  (String.length duration <= 12)%nat ->
  exists seconds,
    parseDuration duration = Some seconds /\ (0 <= seconds < 2 ^ 53)%Z.
Proof.
  intros Hlen. unfold parseDuration.
  destruct (exec duration_pattern duration) as [m|] eqn:E;
    [|exists 0%Z; split; [reflexivity | lia]].
  unfold exec in E. rewrite length_list_ascii_of_string in E.
  apply search_sound in E as (pre & t & s' & Hs & E).
  unfold matchAt in E.
  apply (rmatch_captures_within _ _ 12 _ (duration_groups _)) in E.
  - destruct E as (s1 & caps1 & _ & HG & [= _ Heq]). rewrite Heq in HG.
    destruct (group_amount 12 m 1 HG) as (h & -> & Hh).
    destruct (group_amount 12 m 2 HG) as (mi & -> & Hm).
    destruct (group_amount 12 m 3 HG) as (se & -> & Hse).
    cbn [Js.add Js.mul]. eexists. split; [reflexivity|].
    change (10 ^ Z.of_nat 12)%Z with 1000000000000%Z in *.
    change (2 ^ 53)%Z with 9007199254740992%Z. lia.
  - rewrite <- length_list_ascii_of_string, Hs, length_app in Hlen. lia.
  - intros n w; discriminate.
Qed.

Lemma parseDuration_number_witness :
  exists seconds,
    parseDuration "PT12H34M56S" = Some seconds /\ (0 <= seconds < 2 ^ 53)%Z.
Proof. apply parseDuration_number. cbn. lia. Defined.

(** ** lib/youtube/video-tool.ts: cleaned titles and descriptions *)

Example cleanTitle_marker :
  VideoTool.cleanTitle "  Hello   (shocking) World (SHOCKING) "
  = "Hello  World (SHOCKING)".
Proof. vm_compute. reflexivity. Qed.

Example cleanDescription_hashtags :
  VideoTool.cleanDescription
    (String "a" (LF ++ LF ++ "b #a #b #c #d #e #f end"))
  = "a b [Multiple hashtags]end".
Proof. vm_compute. reflexivity. Qed.

Section VideoToolFacts.

Import VideoTool.

Lemma search_needs_fail total (P : ascii -> bool) (r : regex) (s : list ascii) :
  needs P r = true -> forallb (fun c => negb (P c)) s = true ->
  search total r s = None.
Proof.
  intros Hn. induction s as [|c s IH]; intros Hs; rewrite search_unfold;
    unfold matchAt; rewrite (rmatch_needs_fail total P) by assumption;
    [reflexivity|].
  cbn [forallb] in Hs. apply andb_true_iff in Hs as [_ Hs]. now apply IH.
Qed.

Lemma replace_loop_needs_id total (P : ascii -> bool) (r : regex) repl :
  needs P r = true ->
  forall fuel s, forallb (fun c => negb (P c)) s = true ->
    replace_loop fuel total r repl s = s.
Proof.
  intros Hn fuel. induction fuel as [|fuel IH]; intros s Hs; [reflexivity|].
  cbn [replace_loop]. unfold matchAt.
  rewrite (rmatch_needs_fail total P) by assumption.
  destruct s as [|c s]; [reflexivity|].
  cbn [forallb] in Hs. apply andb_true_iff in Hs as [_ Hs].
  now rewrite IH.
Qed.

(** What a global replacement by a constant is made of: characters of the
    text and characters of the constant. *)
Lemma replace_loop_constant total (Q : ascii -> Prop) (r : regex) (w : string) :
  Forall Q (list_ascii_of_string w) ->
  forall fuel s, Forall Q s -> Forall Q (replace_loop fuel total r (constant w) s).
Proof.
  intros Hw fuel. induction fuel as [|fuel IH]; intros s Hs; [exact Hs|].
  cbn [replace_loop].
  destruct (matchAt total r s) as [[s' caps]|] eqn:E.
  - destruct (matchAt_consumed _ _ _ _ _ E) as (v & Hv & _).
    assert (Hs' : Forall Q s').
    { rewrite Hv in Hs. now apply Forall_app in Hs as [_ Hs]. }
    unfold constant at 1. unfold constant at 1.
    destruct (length s - length s' =? 0)%nat.
    + destruct s as [|c t]; [exact Hw|].
      apply Forall_app. split; [exact Hw|].
      apply Forall_cons_1 in Hs as [Hc Ht]. constructor; [exact Hc | now apply IH].
    + apply Forall_app. split; [exact Hw | now apply IH].
  - destruct s as [|c t]; [constructor|].
    apply Forall_cons_1 in Hs as [Hc Ht]. constructor; [exact Hc | now apply IH].
Qed.

Lemma replaceFirst_constant (Q : ascii -> Prop) (r : regex) (w s : string) :
  Forall Q (list_ascii_of_string w) -> Forall Q (list_ascii_of_string s) ->
  Forall Q (list_ascii_of_string (replaceFirst r (constant w) s)).
Proof.
  intros Hw Hs. unfold replaceFirst.
  destruct (search _ r _) as [m|]; [|exact Hs].
  rewrite list_ascii_of_string_of_list_ascii.
  apply Forall_app. split; [now apply Forall_take|].
  apply Forall_app. split; [exact Hw | now apply Forall_drop].
Qed.

Lemma trimStartL_keeps (Q : ascii -> Prop) (l : list ascii) :
  Forall Q l -> Forall Q (Js.trimStartL l).
Proof.
  induction l as [|c l IH]; intros H; cbn [Js.trimStartL]; [constructor|].
  destruct (Chars.isSpace c); [|exact H].
  apply Forall_cons_1 in H as [_ H]. now apply IH.
Qed.

Lemma trim_keeps (Q : ascii -> Prop) (s : string) :
  Forall Q (list_ascii_of_string s) ->
  Forall Q (list_ascii_of_string (Js.trim s)).
Proof.
  intros H. unfold Js.trim, Js.trimEndL.
  rewrite list_ascii_of_string_of_list_ascii.
  apply Forall_rev, trimStartL_keeps, Forall_rev, trimStartL_keeps, H.
Qed.

Lemma collapsed_plain (s : string) :
  Forall Further.plain
    (list_ascii_of_string
       (replaceAll TranscriptTool.spaces_pattern (constant " ") s)).
Proof.
  unfold replaceAll. rewrite list_ascii_of_string_of_list_ascii.
  apply spaces_collapsed. lia.
Qed.

Lemma plain_no_newline (l : list ascii) :
  Forall Further.plain l ->
  forallb (fun c => negb (Chars.isChar "010" c)) l = true.
Proof.
  intros H. apply forallb_forall. intros c Hc.
  rewrite Forall_forall in H. apply list_elem_of_In in Hc.
  destruct (H c Hc) as [Hs | ->]; [|reflexivity].
  destruct c as [[] [] [] [] [] [] [] []]; try reflexivity; discriminate Hs.
Qed.

(** X19.  A cleaned description holds no line break, tab or other white
    space than the plain space; so the step that collapses runs of
    newlines never changes anything, and the result is the trimmed text
    after the white space and hashtag steps alone. *)
Theorem cleanDescription_plain (description : string) :
  Forall Further.plain (list_ascii_of_string (cleanDescription description)) /\
  cleanDescription description
  = (if String.eqb description "" then ""
     else Js.trim
            (replaceFirst hashtags_pattern (constant "[Multiple hashtags]")
               (replaceAll TranscriptTool.spaces_pattern (constant " ")
                  description))).
Proof.
  unfold cleanDescription.
  destruct (String.eqb description ""); [split; [constructor | reflexivity]|].
  set (d1 := replaceAll TranscriptTool.spaces_pattern (constant " ") description).
  set (d2 := replaceFirst hashtags_pattern (constant "[Multiple hashtags]") d1).
  assert (H2 : Forall Further.plain (list_ascii_of_string d2)).
  { apply replaceFirst_constant; [|apply collapsed_plain].
    cbn [list_ascii_of_string].
    repeat (constructor; [first [left; reflexivity | right; reflexivity]|]).
    constructor. }
  assert (H3 : replaceAll newlines_pattern (constant LF) d2 = d2).
  { unfold replaceAll.
    rewrite (replace_loop_needs_id _ (Chars.isChar "010"));
      [apply string_of_list_ascii_of_string | vm_compute; reflexivity|].
    now apply plain_no_newline. }
  rewrite H3. split; [now apply trim_keeps | reflexivity].
Qed.

(** X20.  A cleaned title holds no white space other than the plain space,
    and a title without an opening parenthesis is changed in its white
    space only. *)
Theorem cleanTitle_plain (title : string) :
  Forall Further.plain (list_ascii_of_string (cleanTitle title)) /\
  (Further.without "(" title = true ->
   cleanTitle title
   = Js.trim (replaceAll TranscriptTool.spaces_pattern (constant " ") title)).
Proof.
  unfold cleanTitle. split.
  - destruct (String.eqb title ""); [constructor|].
    apply trim_keeps, replaceFirst_constant; [constructor | apply collapsed_plain].
  - intros Hno. destruct (String.eqb_spec title "") as [->|_]; [reflexivity|].
    f_equal. unfold replaceFirst.
    rewrite (search_needs_fail _ (Chars.isChar "(")); [reflexivity | reflexivity |].
    unfold replaceAll. rewrite list_ascii_of_string_of_list_ascii.
    apply forallb_forall. intros c Hc. apply list_elem_of_In in Hc. revert c Hc.
    apply Forall_forall, replace_loop_constant.
    + constructor; [reflexivity | constructor].
    + apply Forall_forall. intros c Hc. apply list_elem_of_In in Hc.
      unfold Further.without in Hno.
      apply (proj1 (forallb_forall _ _) Hno) in Hc.
      unfold Chars.oneOf in Hc. cbn [list_ascii_of_string existsb] in Hc.
      rewrite orb_false_r, Ascii.eqb_sym in Hc. exact Hc.
Qed.

End VideoToolFacts.

Lemma cleanTitle_plain_witness :
  VideoTool.cleanTitle "  Never   gonna  give you up "
  = Js.trim (replaceAll TranscriptTool.spaces_pattern (constant " ")
               "  Never   gonna  give you up ").
Proof.
  apply (proj2 (cleanTitle_plain "  Never   gonna  give you up ")).
  reflexivity.
Defined.

(** ** The payload of the transcript tool *)

(** X21.  In the payload of the transcript tool the summary is the whole
    cleaned transcript when it has at most 100 pieces between single
    spaces, and otherwise its first 100 pieces followed by an ellipsis; the
    word count is the number of these pieces, the length that of the
    cleaned text, and the language is "auto" when none, or an empty one,
    was asked for. *)
Theorem processTranscript_payload
    (data : option (list TranscriptTool.TranscriptSegment))
    (videoId : string) (language : option string) (t : string) :
  field "transcript" (TranscriptTool.processTranscript data videoId language) = VStr t ->
  let result := TranscriptTool.processTranscript data videoId language in
  let pieces := Js.split " " t in
  field "summary" result
  = VStr (if (length pieces <=? 100)%nat then t
          else (Js.join " " (firstn 100 pieces) ++ "...")%string) /\
  field "wordCount" result = VInt (Z.of_nat (length pieces)) /\
  field "length" result = VInt (Z.of_nat (String.length t)) /\
  field "language" result = VStr (default "auto" (Further.effective language)).
Proof.
  destruct data as [[|seg segments]|]; try discriminate.
  intros [= <-]. cbn zeta.
  set (fullText := TranscriptTool.cleanText (seg :: segments)).
  split; [|split; [|split]].
  - change (VStr (TranscriptTool.summarize fullText) = VStr
              (if (length (Js.split " " fullText) <=? 100)%nat then fullText
               else (Js.join " " (firstn 100 (Js.split " " fullText)) ++ "...")%string)).
    now rewrite summarize_spec.
  - reflexivity.
  - reflexivity.
  - change (VStr (TranscriptTool.languageOrAuto language)
            = VStr (default "auto" (Further.effective language))).
    f_equal. unfold TranscriptTool.languageOrAuto, Further.effective, Tools.truthy.
    destruct language as [l|]; [|reflexivity].
    now destruct (String.eqb l "").
Qed.

Lemma processTranscript_payload_witness :
  let result :=
    TranscriptTool.processTranscript
      (Some [TranscriptTool.mkSegment "a [Music] b" 0 1]) "dQw4w9WgXcQ" (Some "") in
  field "summary" result = VStr "a  b" /\
  field "wordCount" result = VInt 3 /\
  field "length" result = VInt 4 /\
  field "language" result = VStr "auto".
Proof.
  apply (processTranscript_payload
           (Some [TranscriptTool.mkSegment "a [Music] b" 0 1]) "dQw4w9WgXcQ"
           (Some "") "a  b").
  vm_compute. reflexivity.
Defined.

(** ** The transcript with time stamps *)

Section TimestampFacts.

Import TranscriptTool Further.

Variable total : nat.

Lemma startsLines_cons c l :
  c <> "010"%char -> startsLines l -> startsLines (c :: l).
Proof.
  intros Hc Hl [|x a] b H; injection H as -> H; [contradiction|].
  now apply (Hl a b).
Qed.

Lemma startsLines_break l :
  startsLines ("["%char :: l) -> startsLines ("010"%char :: "["%char :: l).
Proof.
  intros Hl [|x a] b H; injection H as H'.
  - subst b. eauto.
  - subst x. now apply (Hl a b).
Qed.

Lemma startsLines_app a l : oneLine a -> startsLines l -> startsLines (a ++ l).
Proof.
  induction 1 as [|c a Hc _ IH]; intros Hl; [exact Hl|].
  cbn [app]. apply startsLines_cons; auto.
Qed.

Lemma startsLines_oneLine l : oneLine l -> startsLines l.
Proof.
  intros H. rewrite <- (app_nil_r l). apply startsLines_app; [exact H|].
  intros [|x a] b E; discriminate E.
Qed.

Lemma startsLines_suffix p l : startsLines (p ++ l) -> startsLines l.
Proof. intros H a b ->. apply (H (p ++ a) b). now rewrite <- app_assoc. Qed.

Lemma plain_oneLine l : Forall plain l -> oneLine l.
Proof.
  intros H. apply Forall_forall. intros c Hc.
  rewrite Forall_forall in H. destruct (H c Hc) as [Hs | ->]; [|discriminate].
  intros ->. discriminate Hs.
Qed.

Lemma digits_oneLine w : forallb Chars.isDigit w = true -> oneLine w.
Proof.
  intros H. apply Forall_forall. intros c Hc E. subst c.
  apply list_elem_of_In in Hc.
  apply (proj1 (forallb_forall _ _) H) in Hc. discriminate Hc.
Qed.

Lemma timestamp_groups :
  groupsIn total (fun _ w => oneLine w) timestamp_pattern.
Proof.
  unfold timestamp_pattern, Lit.
  cbn [groupsIn LitL list_ascii_of_string Plus]. repeat split.
  intros s s' M.
  inversion M as [| |? ? ? s1 ? M1 M2| | | | | | |]; subst.
  inversion M2 as [| |? ? ? s2 ? M3 M4| | | | | | |]; subst.
  inversion M3 as [| |? ? ? s3 ? M5 M6| | | | | | |]; subst.
  inversion M5 as [|? c ? Hc| | | | | | | |]; subst. inversion M6; subst.
  apply (Matches_plus_chr total) in M4 as (w2 & -> & _ & H2).
  apply (Matches_plus_chr total) in M1 as (w1 & Hw1 & _ & H1). subst s.
  replace (w1 ++ c :: w2 ++ s') with ((w1 ++ c :: w2) ++ s')
    by (now rewrite <- app_assoc).
  rewrite length_app, Nat.add_sub, firstn_app, Nat.sub_diag, firstn_all.
  cbn [firstn]. rewrite app_nil_r.
  apply Forall_app. split; [now apply digits_oneLine|].
  constructor; [|now apply digits_oneLine].
  intros ->. discriminate Hc.
Qed.

Lemma timestamps_lines : forall fuel s,
  Forall plain s ->
  startsLines
    (replace_loop fuel total timestamp_pattern (aroundGroup1 (LF ++ "[") "] ") s).
Proof.
  induction fuel as [|fuel IH]; intros s Hs;
    [now apply startsLines_oneLine, plain_oneLine|].
  cbn [replace_loop].
  destruct (matchAt total timestamp_pattern s) as [[s' caps]|] eqn:E.
  - destruct (matchAt_consumed _ _ _ _ _ E) as (w & Hw & _).
    assert (Hs' : Forall plain s')
      by (rewrite Hw in Hs; now apply Forall_app in Hs as [_ Hs]).
    assert (Hg : oneLine (default [] (capture 1 caps))).
    { unfold matchAt in E.
      apply (rmatch_captures _ _ _ timestamp_groups) in E;
        [|intros n v; discriminate].
      destruct E as (s1 & caps1 & _ & HG & [= _ Heq]). rewrite Heq in HG.
      destruct (capture 1 caps) as [g|] eqn:Eg; [exact (HG _ _ Eg) | constructor]. }
    assert (Hrepl : forall v,
              aroundGroup1 (LF ++ "[") "] " v caps
              = ["010"%char; "["%char]
                  ++ default [] (capture 1 caps) ++ ["]"%char; " "%char])
      by reflexivity.
    rewrite !Hrepl.
    assert (Hout : forall rest, startsLines rest ->
              startsLines (["010"%char; "["%char]
                           ++ default [] (capture 1 caps) ++ ["]"%char; " "%char]
                           ++ rest)).
    { intros rest Hrest. cbn [app]. apply startsLines_break.
      apply startsLines_cons; [discriminate|].
      apply startsLines_app; [exact Hg|].
      apply startsLines_cons; [discriminate|].
      apply startsLines_cons; [discriminate | exact Hrest]. }
    destruct (length s - length s' =? 0)%nat.
    + destruct s as [|c t].
      * rewrite <- (app_nil_r (default _ _ ++ _)), <- !app_assoc.
        apply Hout. intros [|x a] b Hb; discriminate Hb.
      * rewrite <- !app_assoc. apply Hout.
        apply Forall_cons_1 in Hs as [Hc Ht].
        apply startsLines_cons; [|now apply IH].
        destruct Hc as [Hc | ->]; [intros ->|]; discriminate.
    + rewrite <- !app_assoc. apply Hout. now apply IH.
  - destruct s as [|c t]; [intros [|x a] b Hb; discriminate Hb|].
    apply Forall_cons_1 in Hs as [Hc Ht].
    apply startsLines_cons; [|now apply IH].
    destruct Hc as [Hc | ->]; [intros ->|]; discriminate.
Qed.

Lemma matchAt_punctuation_colon s s' caps :
  matchAt total punctuation_colon_pattern s = Some (s', caps) ->
  exists c1 c2, s = c1 :: c2 :: s' /\ caps = [(1%nat, [c2])] /\
                Chars.oneOf ".,;:!?" c2 = true.
Proof.
  unfold matchAt, punctuation_colon_pattern. cbn [rmatch].
  destruct s as [|c1 [|c2 s2]]; [discriminate | |].
  - destruct (Chars.isSpace c1); discriminate.
  - destruct (Chars.isSpace c1); [|discriminate].
    destruct (Chars.oneOf ".,;:!?" c2) eqn:Hp; [|discriminate].
    intros [= <- <-]. exists c1, c2. split; [reflexivity|]. split; [|exact Hp].
    cbn [length]. now rewrite Nat.sub_succ_l, Nat.sub_diag by lia.
Qed.

Lemma punctuation_keeps_bracket fuel t :
  exists r,
    replace_loop fuel total punctuation_colon_pattern (aroundGroup1 "" "")
      ("["%char :: t) = "["%char :: r.
Proof. destruct fuel as [|fuel]; cbn; eauto. Qed.

Lemma punctuation_lines : forall fuel s,
  startsLines s ->
  startsLines
    (replace_loop fuel total punctuation_colon_pattern (aroundGroup1 "" "") s).
Proof.
  induction fuel as [|fuel IH]; intros s Hs; [exact Hs|].
  cbn [replace_loop].
  destruct (matchAt total punctuation_colon_pattern s) as [[s' caps]|] eqn:E.
  - apply matchAt_punctuation_colon in E as (c1 & c2 & -> & -> & Hp).
    cbn [length]. rewrite Nat.sub_succ_l, Nat.sub_succ_l, Nat.sub_diag by lia.
    cbn [Nat.eqb]. unfold aroundGroup1 at 1. cbn.
    apply startsLines_cons; [intros ->; discriminate Hp|].
    apply IH. now apply (startsLines_suffix [c1; c2]).
  - destruct s as [|c t]; [exact Hs|].
    pose proof (IH t (startsLines_suffix [c] t Hs)) as Ht.
    destruct (Ascii.eqb_spec c "010") as [->|Hc];
      [|now apply startsLines_cons].
    destruct (Hs [] t eq_refl) as (t' & ->).
    destruct (punctuation_keeps_bracket fuel t') as (r & Hr).
    rewrite Hr in Ht |- *. now apply startsLines_break.
Qed.

Lemma trimStartL_head l c r :
  Js.trimStartL l = c :: r -> Chars.isSpace c = false.
Proof.
  induction l as [|x l IH]; cbn [Js.trimStartL]; [discriminate|].
  destruct (Chars.isSpace x) eqn:Hx; [exact IH|]. now intros [= <- _].
Qed.

Lemma trimStartL_suffix l : exists p, l = p ++ Js.trimStartL l.
Proof.
  induction l as [|x l [p IH]]; cbn [Js.trimStartL]; [now exists []|].
  destruct (Chars.isSpace x); [|now exists []].
  exists (x :: p). cbn [app]. now rewrite <- IH.
Qed.

Lemma trim_lines l :
  startsLines l -> startsLines (Js.trimEndL (Js.trimStartL l)).
Proof.
  intros Hl.
  destruct (trimStartL_suffix l) as (p & Hp).
  assert (H1 : startsLines (Js.trimStartL l))
    by (apply (startsLines_suffix p); now rewrite <- Hp).
  set (l1 := Js.trimStartL l) in *. unfold Js.trimEndL.
  destruct (trimStartL_suffix (rev l1)) as (q & Hq).
  set (k := Js.trimStartL (rev l1)) in *.
  assert (Hl1 : l1 = rev k ++ rev q).
  { rewrite <- rev_app_distr, <- Hq. symmetry. apply rev_involutive. }
  intros a b Hab.
  destruct (H1 a (b ++ rev q)) as (b' & Hb').
  { rewrite Hl1, Hab, <- app_assoc. reflexivity. }
  destruct b as [|x b]; [|cbn [app] in Hb'; injection Hb' as -> _; eauto].
  exfalso.
  assert (Hk : k = "010"%char :: rev a).
  { rewrite <- (rev_involutive k), Hab, rev_app_distr. reflexivity. }
  apply trimStartL_head in Hk. discriminate Hk.
Qed.

Lemma trim_first l c rest :
  Js.trimEndL (Js.trimStartL l) = c :: rest -> Chars.isSpace c = false.
Proof.
  unfold Js.trimEndL. set (l1 := Js.trimStartL l). intros H.
  destruct (trimStartL_suffix (rev l1)) as (q & Hq).
  assert (Hl1 : l1 = rev (Js.trimStartL (rev l1)) ++ rev q).
  { rewrite <- rev_app_distr, <- Hq. symmetry. apply rev_involutive. }
  rewrite H in Hl1. cbn [app] in Hl1.
  now apply (trimStartL_head l c (rest ++ rev q)).
Qed.

Lemma trim_last l front c :
  Js.trimEndL (Js.trimStartL l) = front ++ [c] -> Chars.isSpace c = false.
Proof.
  unfold Js.trimEndL. intros H.
  apply (trimStartL_head (rev (Js.trimStartL l)) c (rev front)).
  rewrite <- (rev_involutive (Js.trimStartL (rev (Js.trimStartL l)))), H.
  now rewrite rev_app_distr.
Qed.

End TimestampFacts.

(** X22.  In the transcript with time stamps every line break is directly
    followed by the opening bracket of a time stamp, whatever the segments
    hold, so no segment text can bring a line break of its own; and the
    text neither begins nor ends with a line break, nor with any other
    white space. *)
Theorem formatTranscriptWithTimestamps_lines
    (segments : list TranscriptTool.TranscriptSegment) :
  let formatted :=
    list_ascii_of_string (TranscriptTool.formatTranscriptWithTimestamps segments) in
  Further.startsLines formatted /\
  (forall c rest, formatted = c :: rest ->
     c <> "010"%char /\ Chars.isSpace c = false) /\
  (forall front c, formatted = front ++ [c] ->
     c <> "010"%char /\ Chars.isSpace c = false).
Proof.
  cbn zeta.
  unfold TranscriptTool.formatTranscriptWithTimestamps, Js.trim, replaceAll.
  rewrite !list_ascii_of_string_of_list_ascii.
  assert (Hbreak : forall c, Chars.isSpace c = false ->
            c <> "010"%char /\ Chars.isSpace c = false)
    by (intros c Hc; split; [intros ->; discriminate Hc | exact Hc]).
  split; [|split].
  - apply trim_lines, punctuation_lines, timestamps_lines, spaces_collapsed. lia.
  - intros c rest H. eapply Hbreak, trim_first, H.
  - intros front c H. eapply Hbreak, trim_last, H.
Qed.

Lemma formatTranscriptWithTimestamps_lines_witness :
  let formatted :=
    list_ascii_of_string
      (TranscriptTool.formatTranscriptWithTimestamps
         [TranscriptTool.mkSegment (String "010" "hello") 0 1;
          TranscriptTool.mkSegment "world ." (61 # 1) 1]) in
  string_of_list_ascii formatted
  = ("[0:00] hello " ++ String "010" "[1:01] world.")%string /\
  Chars.isSpace "[" = false /\ Chars.isSpace "." = false.
Proof.
  destruct (formatTranscriptWithTimestamps_lines
              [TranscriptTool.mkSegment (String "010" "hello") 0 1;
               TranscriptTool.mkSegment "world ." (61 # 1) 1])
    as (_ & Hfirst & Hlast).
  cbn zeta. split; [vm_compute; reflexivity|]. split.
  - refine (proj2 (Hfirst "["%char _ _)). vm_compute. reflexivity.
  - refine (proj2 (Hlast (list_ascii_of_string
                            ("[0:00] hello " ++ String "010" "[1:01] world"))
                     "."%char _)).
    vm_compute. reflexivity.
Defined.
